(** * Analytics session reconstruction: the [/analytics] route handler

    A shallow embedding of the session-reconstruction core of the
    [GET /analytics] handler (backend statistics router): the visitor key
    ([buildVisitorId]), the first pass that assigns sessions, the second
    pass that computes dwell durations, the overall aggregates and the
    per-page details.

    Conventions of the embedding.
    - JavaScript integers (timestamps in milliseconds, counters, sums) are
      [Z]; every value stays far below 2^53, where the arithmetic of
      doubles on integers is exact.
    - The result of a JavaScript division is an exact rational [Q], kept in
      lowest terms, and [Math.round] is applied to that rational.  For
      [Math.round(ms / 1000)] on an integer number of milliseconds this is
      what the doubles give; for [bounce_rate], a percentage of a ratio,
      the doubles can differ by one at a half, and what is proved below
      about such a percentage (that it is 0, that it lies between 0 and
      100) holds for both.
    - A [Map] is an insertion-ordered association list ([JsMap]), because
      the handler iterates over [Map.prototype.values()]; a [Set] of which
      only [size] is observed is a [gset].
    - A column value read from the database is a [jsval]: [null], a number
      or a string.  A string is the sequence of its UTF-8 bytes.
    - The handler is given twice: as functions on the values of its
      tables, pass by pass, for what it computes, and statement by
      statement over a heap of objects ([handle_request]), for what it
      keeps from one invocation to the next.  The second is proved to
      return what the first computes. *)

From Stdlib Require Import ZArith QArith Qround Lia.
From Stdlib Require Import Ascii String.
From stdpp Require Import base decidable option list sorting.
From stdpp Require Import strings pretty gmap.

Local Open Scope Z_scope.

(** ** JavaScript values *)

Inductive jsval : Type :=
  | JNull : jsval
  | JNum : Z -> jsval
  | JStr : string -> jsval.

Global Instance jsval_eq_dec : EqDecision jsval.
Proof. solve_decision. Defined.

(** [ToBoolean]: [null], [0] and the empty string are falsy. *)
Definition truthy (v : jsval) : bool :=
  match v with
  | JNull => false
  | JNum n => negb (n =? 0)
  | JStr s => negb (String.eqb s "")
  end.

(** [String(v)] on the values a row can hold. *)
Definition js_String (v : jsval) : string :=
  match v with
  | JNull => "null"
  | JNum n => pretty n
  | JStr s => s
  end.

(** Truthiness of a nullable string column. *)
Definition truthy_str (o : option string) : bool :=
  match o with
  | None => false
  | Some s => negb (String.eqb s "")
  end.

(** [Math.round]: the nearest integer, halves rounded towards +infinity. *)
Definition Math_round (q : Q) : Z := Qfloor (q + (1 # 2)).

(** [a / b] on integers, as an exact rational in lowest terms. *)
Definition js_div (a b : Z) : Q := Qred (inject_Z a / inject_Z b).

(** [x || 0] on a number. *)
Definition or_zero (x : Z) : Z := if x =? 0 then 0 else x.

Definition or_zeroQ (x : Q) : Q := if Qeq_bool x 0 then 0%Q else x.

(** ** MD5, as computed by [crypto.createHash('md5')] (RFC 1321) *)

Module Md5.

Definition mask32 : Z := 4294967295.

Definition add32 (x y : Z) : Z := Z.land (x + y) mask32.

Definition not32 (x : Z) : Z := Z.lxor x mask32.

Definition rotl32 (x : Z) (c : Z) : Z :=
  Z.land (Z.lor (Z.shiftl x c) (Z.shiftr x (32 - c))) mask32.

Definition K : list Z :=
  [ 3614090360; 3905402710; 606105819; 3250441966;
    4118548399; 1200080426; 2821735955; 4249261313;
    1770035416; 2336552879; 4294925233; 2304563134;
    1804603682; 4254626195; 2792965006; 1236535329;
    4129170786; 3225465664; 643717713; 3921069994;
    3593408605; 38016083; 3634488961; 3889429448;
    568446438; 3275163606; 4107603335; 1163531501;
    2850285829; 4243563512; 1735328473; 2368359562;
    4294588738; 2272392833; 1839030562; 4259657740;
    2763975236; 1272893353; 4139469664; 3200236656;
    681279174; 3936430074; 3572445317; 76029189;
    3654602809; 3873151461; 530742520; 3299628645;
    4096336452; 1126891415; 2878612391; 4237533241;
    1700485571; 2399980690; 4293915773; 2240044497;
    1873313359; 4264355552; 2734768916; 1309151649;
    4149444226; 3174756917; 718787259; 3951481745 ].

Definition shifts : list Z :=
  [ 7; 12; 17; 22; 7; 12; 17; 22; 7; 12; 17; 22; 7; 12; 17; 22;
    5; 9; 14; 20; 5; 9; 14; 20; 5; 9; 14; 20; 5; 9; 14; 20;
    4; 11; 16; 23; 4; 11; 16; 23; 4; 11; 16; 23; 4; 11; 16; 23;
    6; 10; 15; 21; 6; 10; 15; 21; 6; 10; 15; 21; 6; 10; 15; 21 ].

Definition bytes_of_string (s : string) : list Z :=
  map (fun c => Z.of_N (N_of_ascii c)) (list_ascii_of_string s).

(** The [n] low bytes of [x], least significant first. *)
Fixpoint le_bytes (n : nat) (x : Z) : list Z :=
  match n with
  | O => []
  | S n' => Z.land x 255 :: le_bytes n' (Z.shiftr x 8)
  end.

Fixpoint le_word (bs : list Z) : Z :=
  match bs with
  | [] => 0
  | b :: bs' => b + 256 * le_word bs'
  end.

Definition pad (msg : list Z) : list Z :=
  let len := Z.of_nat (length msg) in
  let zeros := Z.to_nat ((55 - len) mod 64) in
  msg ++ [128] ++ replicate zeros 0 ++ le_bytes 8 (8 * len).

Definition words_of_block (blk : list Z) : list Z :=
  map (fun i => le_word (take 4 (drop (4 * i) blk))) (seq 0 16).

Record state := State { sa : Z; sb : Z; sc : Z; sd : Z }.

Definition init : state :=
  State 1732584193 4023233417 2562383102 271733878.

Definition step (M : list Z) (st : state) (i : nat) : state :=
  let '(State a b c d) := st in
  let zi := Z.of_nat i in
  let '(f, g) :=
    if zi <? 16 then (Z.lor (Z.land b c) (Z.land (not32 b) d), zi)
    else if zi <? 32 then
      (Z.lor (Z.land d b) (Z.land (not32 d) c), (5 * zi + 1) mod 16)
    else if zi <? 48 then (Z.lxor b (Z.lxor c d), (3 * zi + 5) mod 16)
    else (Z.lxor c (Z.lor b (not32 d)), (7 * zi) mod 16) in
  let f' := add32 (add32 (add32 f a) (nth i K 0)) (nth (Z.to_nat g) M 0) in
  State d (add32 b (rotl32 f' (nth i shifts 0))) b c.

Definition compress (st : state) (blk : list Z) : state :=
  let M := words_of_block blk in
  let '(State a b c d) := fold_left (step M) (seq 0 64) st in
  State (add32 (sa st) a) (add32 (sb st) b)
        (add32 (sc st) c) (add32 (sd st) d).

Definition blocks (bs : list Z) : list (list Z) :=
  map (fun i => take 64 (drop (64 * i) bs)) (seq 0 (length bs / 64)).

Definition digest (s : string) : list Z :=
  let '(State a b c d) :=
    fold_left compress (blocks (pad (bytes_of_string s))) init in
  le_bytes 4 a ++ le_bytes 4 b ++ le_bytes 4 c ++ le_bytes 4 d.

Definition hex_digit (n : Z) : ascii :=
  nth (Z.to_nat n)
    (list_ascii_of_string "0123456789abcdef") "0"%char.

Fixpoint hex_of_bytes (bs : list Z) : string :=
  match bs with
  | [] => EmptyString
  | b :: bs' =>
      String (hex_digit (Z.shiftr b 4))
        (String (hex_digit (Z.land b 15)) (hex_of_bytes bs'))
  end.

(** [createHash('md5').update(s).digest('hex')]. *)
Definition hex (s : string) : string := hex_of_bytes (digest s).

End Md5.

(** ** [Map]: an insertion-ordered association list with unique keys *)

Module JsMap.
Section defs.
Context {K V : Type} `{EqDecision K}.

Definition t : Type := list (K * V).

(** [new Map()] *)
Definition empty : t := [].

(** [m.get(k)]; [None] is [undefined]. *)
Fixpoint get (m : t) (k : K) : option V :=
  match m with
  | [] => None
  | (k', v) :: m' => if decide (k' = k) then Some v else get m' k
  end.

(** [m.set(k, v)]: an existing key keeps its position, a new key goes
    last. *)
Fixpoint set (m : t) (k : K) (v : V) : t :=
  match m with
  | [] => [(k, v)]
  | (k', v') :: m' =>
      if decide (k' = k) then (k', v) :: m' else (k', v') :: set m' k v
  end.

Definition keys (m : t) : list K := map fst m.

(** [m.values()], in insertion order. *)
Definition values (m : t) : list V := map snd m.

(** [m.size] *)
Definition size (m : t) : Z := Z.of_nat (length m).
End defs.
Global Arguments t : clear implicits.
End JsMap.

(** [Array.prototype.sort(cmp)]: stable, an element [x] goes before [y]
    when [cmp x y < 0] and elements that compare equal keep their order.
    For a comparator that is a total preorder the result is determined;
    it is computed here by stable insertion from the right. *)
Section js_sort.
Context {A : Type} (cmp : A -> A -> Z).

Fixpoint sort_insert (x : A) (l : list A) : list A :=
  match l with
  | [] => [x]
  | y :: l' => if cmp x y <=? 0 then x :: y :: l' else y :: sort_insert x l'
  end.

Definition js_sort (l : list A) : list A := foldr sort_insert [] l.
End js_sort.

(** ** Data of the handler *)

(** A row of [viewRows]: the columns selected from [activity_logs al].
    [created_at] is the [Date] of the row, as its [getTime()] in ms. *)
Record row : Type := Row {
  al_id : Z;
  al_resource_id : jsval;
  al_user_id : jsval;
  al_ip_address : jsval;
  al_user_agent : option string;
  al_created_at : Z
}.

(** A row of [pages]: [id], [title], [updated_at] (as [getTime()]). *)
Record page : Type := Page {
  p_id : jsval;
  p_title : string;
  p_updated_at : Z
}.

(** The per-visitor running state [{ lastTime, sessionIndex }]. *)
Record vstate : Type := VState {
  lastTime : option Z;
  sessionIndex : Z
}.

(** An element of [events]. *)
Record event : Type := Event {
  resource_id : jsval;
  visitor_id : string;
  session_id : string;
  created_ms : Z
}.

(** An element of [eventMetrics]: [{ ...current, duration_seconds }]. *)
Record metric : Type := Metric {
  current : event;
  duration_seconds : Z
}.

(** An entry of [pageAgg]. *)
Record agg : Type := Agg {
  agg_views : Z;
  agg_durationSum : Z;
  agg_uniqueVisitors : gset string;
  agg_bounceHits : Z
}.

(** An element of [pageDetails]. *)
Record page_detail : Type := PageDetail {
  title : string;
  views : Z;
  unique_visitors : Z;
  avg_time : Q;
  bounce_rate : Z;
  updated_at : Z
}.

Record engagement_summary : Type := EngagementSummary {
  total_sessions : Z;
  total_page_views : Z;
  unique_visitors_total : Z;
  avg_duration_seconds : Q;
  bounce_ratio : Q
}.

(** ** The visitor key *)

Definition buildVisitorId (r : row) : string :=
  if truthy (al_user_id r) then js_String (al_user_id r)
  else if truthy (al_ip_address r) then js_String (al_ip_address r)
  else if truthy_str (al_user_agent r) then
    "ua:" +:+ substring 0 12 (Md5.hex (default "" (al_user_agent r)))
  else "unknown".

(** ** Pass 1: sessions *)

(** The three locals the first loop mutates. *)
Record pass1_state : Type := Pass1 {
  visitorState : JsMap.t string vstate;
  sessionPageCounts : JsMap.t string Z;
  events : list event
}.

Definition pass1_init : pass1_state := Pass1 JsMap.empty JsMap.empty [].

(** [`${visitorId}-${sessionIndex}`] *)
Definition sessionId_of (visitorId : string) (idx : Z) : string :=
  visitorId +:+ "-" +:+ pretty idx.

(** [state.sessionIndex] after the [if] of the loop body. *)
Definition next_index (state : vstate) (createdMs : Z) : Z :=
  match lastTime state with
  | None => sessionIndex state + 1
  | Some last =>
      if 30 * 60 * 1000 <? createdMs - last
      then sessionIndex state + 1
      else sessionIndex state
  end.

(** [(m.get(k) || 0)] on a map of counters. *)
Definition get_or_zero {K} `{EqDecision K} (m : JsMap.t K Z) (k : K) : Z :=
  or_zero (default 0 (JsMap.get m k)).

Definition pass1_step (st : pass1_state) (r : row) : pass1_state :=
  let visitorId := buildVisitorId r in
  let createdMs := al_created_at r in
  let state :=
    default (VState None 0) (JsMap.get (visitorState st) visitorId) in
  let state' := VState (Some createdMs) (next_index state createdMs) in
  let sessionId := sessionId_of visitorId (sessionIndex state') in
  Pass1
    (JsMap.set (visitorState st) visitorId state')
    (JsMap.set (sessionPageCounts st) sessionId
       (get_or_zero (sessionPageCounts st) sessionId + 1))
    (events st ++ [Event (al_resource_id r) visitorId sessionId createdMs]).

Definition pass1_from (st : pass1_state) (viewRows : list row) : pass1_state :=
  fold_left pass1_step viewRows st.

Definition pass1 (viewRows : list row) : pass1_state :=
  pass1_from pass1_init viewRows.

(** ** Pass 2: durations *)

Definition group_step (sessionsMap : JsMap.t string (list event))
    (evt : event) : JsMap.t string (list event) :=
  let arr := default [] (JsMap.get sessionsMap (session_id evt)) in
  JsMap.set sessionsMap (session_id evt) (arr ++ [evt]).

Definition group_sessions (evts : list event) : JsMap.t string (list event) :=
  fold_left group_step evts JsMap.empty.

(** [(a, b) => a.created_ms - b.created_ms] *)
Definition by_created_ms (a b : event) : Z := created_ms a - created_ms b.

(** The body of the inner loop at index [i]. *)
Definition duration_at (sessionEvents : list event) (i : nat)
    (cur : event) : Z :=
  match sessionEvents !! (i + 1)%nat with
  | Some next =>
      let diffSec :=
        Z.max 1
          (Math_round (inject_Z (created_ms next - created_ms cur) / 1000)) in
      Z.min 1800 diffSec
  | None => 30
  end.

Definition session_metrics (sessionEvents : list event) : list metric :=
  imap (fun i cur => Metric cur (duration_at sessionEvents i cur))
       sessionEvents.

Definition pass2_step (eventMetrics : list metric)
    (sessionEvents : list event) : list metric :=
  eventMetrics ++ session_metrics (js_sort by_created_ms sessionEvents).

Definition pass2 (sessionsMap : JsMap.t string (list event)) : list metric :=
  fold_left pass2_step (JsMap.values sessionsMap) [].

(** ** Overall aggregates *)

Definition totalSessions (spc : JsMap.t string Z) : Z := JsMap.size spc.

Definition totalPageViews (eventMetrics : list metric) : Z :=
  Z.of_nat (length eventMetrics).

Definition uniqueVisitors (eventMetrics : list metric) : Z :=
  Z.of_nat (size (list_to_set (map (fun e => visitor_id (current e))
                                   eventMetrics) : gset string)).

Definition durationTotal (eventMetrics : list metric) : Z :=
  fold_left (fun sum e => sum + duration_seconds e) eventMetrics 0.

Definition avgDurationSeconds (eventMetrics : list metric) : Q :=
  if 0 <? totalPageViews eventMetrics
  then js_div (durationTotal eventMetrics) (totalPageViews eventMetrics)
  else 0%Q.

Definition singlePageSessions (spc : JsMap.t string Z) : Z :=
  Z.of_nat (length (filter (fun count => count = 1) (JsMap.values spc))).

Definition bounceRatio (spc : JsMap.t string Z) : Q :=
  if 0 <? totalSessions spc
  then js_div (singlePageSessions spc) (totalSessions spc)
  else 0%Q.

(** ** Per-page aggregates *)

Definition agg_zero : agg := Agg 0 0 ∅ 0.

Definition pageAgg_step (spc : JsMap.t string Z)
    (pageAgg : JsMap.t jsval agg) (evt : metric) : JsMap.t jsval agg :=
  let a := default agg_zero (JsMap.get pageAgg (resource_id (current evt))) in
  let a' :=
    Agg (agg_views a + 1)
        (agg_durationSum a + duration_seconds evt)
        ({[ visitor_id (current evt) ]} ∪ agg_uniqueVisitors a)
        (if get_or_zero spc (session_id (current evt)) =? 1
         then agg_bounceHits a + 1 else agg_bounceHits a) in
  JsMap.set pageAgg (resource_id (current evt)) a'.

Definition build_pageAgg (spc : JsMap.t string Z)
    (eventMetrics : list metric) : JsMap.t jsval agg :=
  fold_left (pageAgg_step spc) eventMetrics JsMap.empty.

(** The callback of [pages.map]. *)
Definition page_entry (pageAgg : JsMap.t jsval agg) (p : page) : page_detail :=
  let a := default agg_zero (JsMap.get pageAgg (p_id p)) in
  let count := or_zero (agg_views a) in
  let avgDuration :=
    if 0 <? count then js_div (agg_durationSum a) count else 0%Q in
  let bounceRatioPage :=
    if 0 <? count then js_div (agg_bounceHits a) count else 0%Q in
  PageDetail (p_title p) count
             (Z.of_nat (size (agg_uniqueVisitors a)))
             avgDuration
             (Math_round (bounceRatioPage * 100))
             (p_updated_at p).

(** The comparator of [.sort]. *)
Definition by_views_then_updated (a b : page_detail) : Z :=
  if negb (views b =? views a) then views b - views a
  else updated_at b - updated_at a.

Definition ranked_pages (pageAgg : JsMap.t jsval agg) (pages : list page)
  : list page_detail :=
  js_sort by_views_then_updated (map (page_entry pageAgg) pages).

Definition pageDetails (pageAgg : JsMap.t jsval agg) (pages : list page)
  : list page_detail :=
  take 20 (ranked_pages pageAgg pages).

(** ** The reconstruction as a whole *)

Record reconstruction : Type := Reconstruction {
  out_eventMetrics : list metric;
  out_sessionPageCounts : JsMap.t string Z;
  out_summary : engagement_summary;
  out_pageDetails : list page_detail
}.

Definition eventMetrics_of (viewRows : list row) : list metric :=
  pass2 (group_sessions (events (pass1 viewRows))).

Definition engagementSummary (spc : JsMap.t string Z)
    (eventMetrics : list metric) : engagement_summary :=
  EngagementSummary
    (or_zero (totalSessions spc))
    (or_zero (totalPageViews eventMetrics))
    (or_zero (uniqueVisitors eventMetrics))
    (or_zeroQ (avgDurationSeconds eventMetrics))
    (or_zeroQ (bounceRatio spc)).

(** All the tables one invocation builds. *)
Record tables : Type := Tables {
  t_pass1 : pass1_state;
  t_sessionsMap : JsMap.t string (list event);
  t_eventMetrics : list metric;
  t_pageAgg : JsMap.t jsval agg
}.

(** The loops of the handler, the first one started from [st0]. *)
Definition build_tables (st0 : pass1_state) (viewRows : list row) : tables :=
  let st := pass1_from st0 viewRows in
  let sessionsMap := group_sessions (events st) in
  let eventMetrics := pass2 sessionsMap in
  let pageAgg := build_pageAgg (sessionPageCounts st) eventMetrics in
  Tables st sessionsMap eventMetrics pageAgg.

(** What the handler computes from its tables and the catalog. *)
Definition respond (t : tables) (pages : list page) : reconstruction :=
  let spc := sessionPageCounts (t_pass1 t) in
  Reconstruction (t_eventMetrics t) spc
    (engagementSummary spc (t_eventMetrics t))
    (pageDetails (t_pageAgg t) pages).

Definition reconstruct_from (st0 : pass1_state) (viewRows : list row)
    (pages : list page) : reconstruction :=
  respond (build_tables st0 viewRows) pages.

(** The handler declares its tables itself: [const visitorState = new
    Map()], [const sessionPageCounts = new Map()], [const events = []]. *)
Definition reconstruct (viewRows : list row) (pages : list page)
  : reconstruction :=
  reconstruct_from pass1_init viewRows pages.

Definition scenario_rows : list row :=
  [ Row 1 (JStr "p1") (JStr "u1") JNull None 0;
    Row 2 (JStr "p2") (JStr "u2") JNull None 50000;
    Row 3 (JStr "p1") (JStr "u1") JNull None 100000;
    Row 4 (JStr "p1") (JStr "u1") JNull None 2000000;
    Row 5 (JStr "p1") (JStr "u1") JNull None 2100000 ].

Definition scenario_pages : list page :=
  [ Page (JStr "p1") "Home" 10; Page (JStr "p2") "About" 20;
    Page (JStr "p3") "Empty" 30 ].


(** ** One request after another: the heap

    What a process keeps from one invocation of the handler to the next is
    its heap.  Below the handler is written statement by statement over a
    heap of objects: [new Map()], [new Set()], [[]] and an object literal
    allocate a new object, and [get], [set], [push], [add], [sort] and an
    assignment to a field read or write the object a reference points to.
    A reference is the position of its object in the heap, and allocation
    appends.  Rows, events and event metrics are never written after their
    creation and are kept by value; [None] is a thrown [TypeError]. *)

Definition loc : Type := nat.

(** An entry of [pageAgg] as an object: [uniqueVisitors] is a reference to
    a [Set]. *)
Record agg_obj : Type := AggObj {
  o_views : Z;
  o_durationSum : Z;
  o_uniqueVisitors : loc;
  o_bounceHits : Z
}.

Inductive obj : Type :=
  | OState (s : vstate)                 (* { lastTime, sessionIndex } *)
  | OMapRef (m : JsMap.t string loc)    (* visitorState, sessionsMap *)
  | OMapNum (m : JsMap.t string Z)      (* sessionPageCounts *)
  | OEvents (a : list event)            (* events, the arrays of sessionsMap *)
  | OMetrics (a : list metric)          (* eventMetrics *)
  | OSet (s : gset string)
  | OAgg (a : agg_obj)
  | OMapAgg (m : JsMap.t jsval loc).    (* pageAgg *)

Abbreviation heap := (list obj).

(** A computation on the heap. *)
Definition M (A : Type) : Type := heap -> option (A * heap).

Definition ret {A : Type} (a : A) : M A := fun h => Some (a, h).

Definition bind {A B : Type} (m : M A) (f : A -> M B) : M B :=
  fun h =>
    match m h with
    | Some (a, h') => f a h'
    | None => None
    end.

Definition throw {A : Type} : M A := fun _ => None.

Notation "'let*' x ':=' m 'in' k" := (bind m (fun x => k))
  (at level 10, x name, m at level 100, k at level 200,
   format "'[' 'let*'  x  ':='  m  'in' ']' '/' k").

Definition alloc (o : obj) : M loc := fun h => Some (length h, h ++ [o]).

Definition load (l : loc) : M obj :=
  fun h =>
    match h !! l with
    | Some o => Some (o, h)
    | None => None
    end.

Definition store (l : loc) (o : obj) : M unit :=
  fun h =>
    match h !! l with
    | Some _ => Some (tt, <[l := o]> h)
    | None => None
    end.

Definition load_state (l : loc) : M vstate :=
  let* o := load l in
  match o with OState s => ret s | _ => throw end.

Definition load_map_ref (l : loc) : M (JsMap.t string loc) :=
  let* o := load l in
  match o with OMapRef m => ret m | _ => throw end.

Definition load_map_num (l : loc) : M (JsMap.t string Z) :=
  let* o := load l in
  match o with OMapNum m => ret m | _ => throw end.

Definition load_events (l : loc) : M (list event) :=
  let* o := load l in
  match o with OEvents a => ret a | _ => throw end.

Definition load_metrics (l : loc) : M (list metric) :=
  let* o := load l in
  match o with OMetrics a => ret a | _ => throw end.

Definition load_set (l : loc) : M (gset string) :=
  let* o := load l in
  match o with OSet s => ret s | _ => throw end.

Definition load_agg (l : loc) : M agg_obj :=
  let* o := load l in
  match o with OAgg a => ret a | _ => throw end.

Definition load_map_agg (l : loc) : M (JsMap.t jsval loc) :=
  let* o := load l in
  match o with OMapAgg m => ret m | _ => throw end.

(** [for (const x of l) body] *)
Fixpoint for_of {A : Type} (l : list A) (body : A -> M unit) : M unit :=
  match l with
  | [] => ret tt
  | x :: l' => let* _ := body x in for_of l' body
  end.

(** [l.map(f)] for a callback that uses the heap. *)
Fixpoint map_M {A B : Type} (f : A -> M B) (l : list A) : M (list B) :=
  match l with
  | [] => ret []
  | x :: l' =>
      let* y := f x in
      let* ys := map_M f l' in
      ret (y :: ys)
  end.

(** The body of the first loop. *)
Definition pass1_body (l_visitorState l_sessionPageCounts l_events : loc)
    (r : row) : M unit :=
  let visitorId := buildVisitorId r in
  let createdMs := al_created_at r in
  let* vs := load_map_ref l_visitorState in
  let* state :=
    match JsMap.get vs visitorId with
    | Some l => ret l
    | None => alloc (OState (VState None 0))
    end in
  let* s := load_state state in
  let* _ := store state (OState (VState (lastTime s)
                                        (next_index s createdMs))) in
  let* s := load_state state in
  let* _ := store state (OState (VState (Some createdMs) (sessionIndex s))) in
  let* vs := load_map_ref l_visitorState in
  let* _ := store l_visitorState (OMapRef (JsMap.set vs visitorId state)) in
  let* s := load_state state in
  let sessionId := sessionId_of visitorId (sessionIndex s) in
  let* spc := load_map_num l_sessionPageCounts in
  let* _ :=
    store l_sessionPageCounts
      (OMapNum (JsMap.set spc sessionId (get_or_zero spc sessionId + 1))) in
  let* evts := load_events l_events in
  store l_events
    (OEvents (evts ++ [Event (al_resource_id r) visitorId sessionId
                             createdMs])).

(** The body of the loop that fills [sessionsMap]. *)
Definition group_body (l_sessionsMap : loc) (evt : event) : M unit :=
  let* sessions := load_map_ref l_sessionsMap in
  let* arr :=
    match JsMap.get sessions (session_id evt) with
    | Some l => ret l
    | None => alloc (OEvents [])
    end in
  let* a := load_events arr in
  let* _ := store arr (OEvents (a ++ [evt])) in
  let* sessions := load_map_ref l_sessionsMap in
  store l_sessionsMap (OMapRef (JsMap.set sessions (session_id evt) arr)).

(** The body of the inner loop of pass 2 at index [i]; [i] is below
    [sessionEvents.length], so that [sessionEvents[i]] is an event. *)
Definition metric_body (sessionEvents l_eventMetrics : loc) (i : nat)
  : M unit :=
  let* a := load_events sessionEvents in
  match a !! i with
  | Some cur =>
      let* ms := load_metrics l_eventMetrics in
      store l_eventMetrics
        (OMetrics (ms ++ [Metric cur (duration_at a i cur)]))
  | None => throw
  end.

(** The body of the outer loop of pass 2: [sort] sorts the array of the
    session in place. *)
Definition pass2_body (l_eventMetrics : loc) (sessionEvents : loc)
  : M unit :=
  let* a := load_events sessionEvents in
  let* _ := store sessionEvents (OEvents (js_sort by_created_ms a)) in
  let* a := load_events sessionEvents in
  for_of (seq 0 (length a)) (metric_body sessionEvents l_eventMetrics).

(** [pageAgg.get(k) || { views: 0, durationSum: 0, uniqueVisitors: new
    Set(), bounceHits: 0 }] *)
Definition agg_or_new (l_pageAgg : loc) (k : jsval) : M loc :=
  let* pa := load_map_agg l_pageAgg in
  match JsMap.get pa k with
  | Some l => ret l
  | None =>
      let* s := alloc (OSet ∅) in
      alloc (OAgg (AggObj 0 0 s 0))
  end.

(** The body of the loop that fills [pageAgg]. *)
Definition pageAgg_body (l_sessionPageCounts l_pageAgg : loc)
    (evt : metric) : M unit :=
  let* agg := agg_or_new l_pageAgg (resource_id (current evt)) in
  let* a := load_agg agg in
  let* _ :=
    store agg (OAgg (AggObj (o_views a + 1) (o_durationSum a)
                            (o_uniqueVisitors a) (o_bounceHits a))) in
  let* a := load_agg agg in
  let* _ :=
    store agg (OAgg (AggObj (o_views a)
                            (o_durationSum a + duration_seconds evt)
                            (o_uniqueVisitors a) (o_bounceHits a))) in
  let* a := load_agg agg in
  let* s := load_set (o_uniqueVisitors a) in
  let* _ :=
    store (o_uniqueVisitors a)
      (OSet ({[ visitor_id (current evt) ]} ∪ s)) in
  let* spc := load_map_num l_sessionPageCounts in
  let* _ :=
    if get_or_zero spc (session_id (current evt)) =? 1 then
      let* a := load_agg agg in
      store agg (OAgg (AggObj (o_views a) (o_durationSum a)
                              (o_uniqueVisitors a) (o_bounceHits a + 1)))
    else ret tt in
  let* pa := load_map_agg l_pageAgg in
  store l_pageAgg (OMapAgg (JsMap.set pa (resource_id (current evt)) agg)).

(** The callback of [pages.map]. *)
Definition page_callback (l_pageAgg : loc) (p : page) : M page_detail :=
  let* agg := agg_or_new l_pageAgg (p_id p) in
  let* a := load_agg agg in
  let count := or_zero (o_views a) in
  let avgDuration :=
    if 0 <? count then js_div (o_durationSum a) count else 0%Q in
  let bounceRatioPage :=
    if 0 <? count then js_div (o_bounceHits a) count else 0%Q in
  let* s := load_set (o_uniqueVisitors a) in
  ret (PageDetail (p_title p) count (Z.of_nat (size s)) avgDuration
                  (Math_round (bounceRatioPage * 100)) (p_updated_at p)).

(** The handler, from the declaration of [visitorState] to [pageDetails],
    for the rows and the catalog that its two queries return. *)
Definition handle_request (viewRows : list row) (pages : list page)
  : M reconstruction :=
  let* l_visitorState := alloc (OMapRef JsMap.empty) in
  let* l_sessionPageCounts := alloc (OMapNum JsMap.empty) in
  let* l_events := alloc (OEvents []) in
  let* _ :=
    for_of viewRows
      (pass1_body l_visitorState l_sessionPageCounts l_events) in
  let* l_sessionsMap := alloc (OMapRef JsMap.empty) in
  let* evts := load_events l_events in
  let* _ := for_of evts (group_body l_sessionsMap) in
  let* l_eventMetrics := alloc (OMetrics []) in
  let* sessions := load_map_ref l_sessionsMap in
  let* _ := for_of (JsMap.values sessions) (pass2_body l_eventMetrics) in
  let* spc := load_map_num l_sessionPageCounts in
  let* ems := load_metrics l_eventMetrics in
  let* l_visitors :=
    alloc (OSet (list_to_set (map (fun e => visitor_id (current e)) ems))) in
  let* visitors := load_set l_visitors in
  let summary :=
    EngagementSummary
      (or_zero (totalSessions spc))
      (or_zero (totalPageViews ems))
      (or_zero (Z.of_nat (size visitors)))
      (or_zeroQ (avgDurationSeconds ems))
      (or_zeroQ (bounceRatio spc)) in
  let* l_pageAgg := alloc (OMapAgg JsMap.empty) in
  let* _ := for_of ems (pageAgg_body l_sessionPageCounts l_pageAgg) in
  let* details := map_M (page_callback l_pageAgg) pages in
  ret (Reconstruction ems spc summary
         (take 20 (js_sort by_views_then_updated details))).

(** The heap a process has after serving the requests [reqs] one after
    another, starting from the heap [h]. *)
Fixpoint serve (reqs : list (list row * list page)) (h : heap)
  : option (list reconstruction * heap) :=
  match reqs with
  | [] => Some ([], h)
  | (viewRows, pages) :: reqs' =>
      match handle_request viewRows pages h with
      | Some (out, h') =>
          match serve reqs' h' with
          | Some (outs, h'') => Some (out :: outs, h'')
          | None => None
          end
      | None => None
      end
  end.

(** ** Notions used in the proofs about the heap *)

(** The objects at the positions below [n] are the same in [h'] as in
    [h], and [h'] is no shorter. *)
Definition unchanged (n : nat) (h h' : heap) : Prop :=
  (length h <= length h')%nat /\
  forall l, (l < n)%nat -> h' !! l = h !! l.

(** A map of references [m] stands for the map of values [pure]: the same
    keys in the same order, each reference pointing to an object that
    represents the value in the sense of [R]. *)
Definition refs_rel {K V : Type} (R : heap -> loc -> V -> Prop) (h : heap)
    (m : JsMap.t K loc) (pure : JsMap.t K V) : Prop :=
  Forall2 (fun kl kv => kl.1 = kv.1 /\ R h kl.2 kv.2) m pure.

Definition state_at (h : heap) (l : loc) (s : vstate) : Prop :=
  h !! l = Some (OState s).

Definition events_at (h : heap) (l : loc) (a : list event) : Prop :=
  h !! l = Some (OEvents a).

(** An [agg] object and the [Set] allocated just before it. *)
Definition agg_at (h : heap) (l : loc) (a : agg) : Prop :=
  exists s : loc,
    l = S s /\
    h !! l = Some (OAgg (AggObj (agg_views a) (agg_durationSum a) s
                                (agg_bounceHits a))) /\
    h !! s = Some (OSet (agg_uniqueVisitors a)).

(** What the first loop keeps true: the three tables at [b], [b + 1] and
    [b + 2] hold the state [st] of the loop, the state objects lying
    behind them. *)
Definition inv1 (b : nat) (h : heap) (st : pass1_state) : Prop :=
  exists m,
    h !! b = Some (OMapRef m) /\
    h !! S b = Some (OMapNum (sessionPageCounts st)) /\
    h !! S (S b) = Some (OEvents (events st)) /\
    refs_rel state_at h m (visitorState st) /\
    NoDup (JsMap.values m) /\
    Forall (fun l => (S (S b) < l)%nat) (JsMap.values m).

(** What the loop over [events] keeps true: [sessionsMap], at [c], holds
    references to arrays that lie behind it and hold the groups [sm]. *)
Definition inv2 (c : nat) (h : heap) (sm : JsMap.t string (list event))
  : Prop :=
  exists m,
    h !! c = Some (OMapRef m) /\
    refs_rel events_at h m sm /\
    NoDup (JsMap.values m) /\
    Forall (fun l => (c < l)%nat) (JsMap.values m).

(** What the loop over [eventMetrics] keeps true: [sessionPageCounts], at
    [spl], holds [spc], and [pageAgg], at [p], holds references to [agg]
    objects that lie behind it and hold the aggregates [pa]. *)
Definition inv5 (spl p : nat) (spc : JsMap.t string Z) (h : heap)
    (pa : JsMap.t jsval agg) : Prop :=
  h !! spl = Some (OMapNum spc) /\ (spl < p)%nat /\
  exists m,
    h !! p = Some (OMapAgg m) /\
    refs_rel agg_at h m pa /\
    NoDup (JsMap.values m) /\
    Forall (fun l => (S p < l)%nat) (JsMap.values m).

(** ** The specification's wording, for comparison with the code *)

(** Session indices of one visitor's events, from their times in input
    order: no prior state, or a gap above 1800000 ms, increments the index;
    otherwise the index is kept. *)
Fixpoint spec_indices_from (last : option Z) (idx : Z) (times : list Z)
  : list Z :=
  match times with
  | [] => []
  | t :: times' =>
      let idx' :=
        match last with
        | None => idx + 1
        | Some l => if 1800000 <? t - l then idx + 1 else idx
        end in
      idx' :: spec_indices_from (Some t) idx' times'
  end.

Definition spec_session_indices (times : list Z) : list Z :=
  spec_indices_from None 0 times.

(** The positioned event of row [r] of visitor [v] in session [k]. *)
Definition positioned (v : string) (r : row) (k : Z) : event :=
  Event (al_resource_id r) v (sessionId_of v k) (al_created_at r).

(** [clamp(x, min, max)] *)
Definition clamp (lo hi x : Z) : Z := Z.min hi (Z.max lo x).

(** A nullable field is present when it is not [null]. *)
Definition present (v : jsval) : Prop := v <> JNull.

(** The number of events of session [s]. *)
Definition session_size (evts : list event) (s : string) : Z :=
  Z.of_nat (length (filter (fun e => session_id e = s) evts)).

(** The sum of a list of durations. *)
Definition sum_durations (ms : list metric) : Z :=
  foldr Z.add 0 (map duration_seconds ms).

(** The entry of a page without traffic. *)
Definition zero_entry (p : page) : page_detail :=
  PageDetail (p_title p) 0 0 0%Q 0 (p_updated_at p).

(** [a] is ranked no later than [b]: more views, or as many and updated
    no earlier. *)
Definition ranks_before (a b : page_detail) : Prop :=
  views b < views a \/ (views a = views b /\ updated_at b <= updated_at a).

(** A catalog of [n] pages without traffic, page [i] last updated at
    time [i]. *)
Definition catalog (n : nat) : list page :=
  map (fun i => Page (JNum (Z.of_nat i)) (pretty (Z.of_nat i)) (Z.of_nat i))
      (seq 1 n).

(** A row whose [user_id] is the number 0, with an IP address. *)
Definition zero_user_row : row :=
  Row 1 (JNum 7) (JNum 0) (JStr "1.2.3.4") None 0.

(** A row with user id "42" and IP address "1.2.3.4". *)
Definition user_and_ip_row : row :=
  Row 1 (JNum 7) (JStr "42") (JStr "1.2.3.4") (Some "curl/8.0") 0.

(** The page of [catalog n] that was updated first. *)
Definition oldest_page : page := Page (JNum 1) "1" 1.

(** [r] with its IP address replaced. *)
Definition with_ip (r : row) (ip : jsval) : row :=
  Row (al_id r) (al_resource_id r) (al_user_id r) ip
      (al_user_agent r) (al_created_at r).

(** [r] with its user id replaced. *)
Definition with_user (r : row) (u : jsval) : row :=
  Row (al_id r) (al_resource_id r) u (al_ip_address r)
      (al_user_agent r) (al_created_at r).

(** ** Notions used in the proofs *)

Definition metrics_of_group (arr : list event) : list metric :=
  session_metrics (js_sort by_created_ms arr).

(** The groups hold, per session id, the events of that session in input
    order. *)
Definition groups_of (evts : list event)
    (m : JsMap.t string (list event)) : Prop :=
  NoDup (JsMap.keys m) /\
  forall s, default [] (JsMap.get m s) = filter (fun e => session_id e = s) evts.

Definition vstate_of (st : pass1_state) (v : string) : vstate :=
  default (VState None 0) (JsMap.get (visitorState st) v).

(** The page counters agree with the events recorded so far. *)
Definition counts_of (evts : list event) (spc : JsMap.t string Z) : Prop :=
  NoDup (JsMap.keys spc) /\
  forall s, JsMap.get spc s =
              if decide (session_size evts s = 0) then None
              else Some (session_size evts s).

(** What an event copies from its row. *)
Definition event_data (e : event) : jsval * string * Z :=
  (resource_id e, visitor_id e, created_ms e).

Definition row_data (r : row) : jsval * string * Z :=
  (al_resource_id r, buildVisitorId r, al_created_at r).

(** ** The [metrics] of the response *)

(** [Math.trunc]: rounding towards zero. *)
Definition Qtrunc (q : Q) : Z :=
  if Qle_bool 0 q then Qfloor q else Qceiling q.

(** [a % b] for a non-zero [b]: what is left of [a] after the truncated
    quotient, with the sign of [a]. *)
Definition js_rem (a b : Q) : Q := (a - b * inject_Z (Qtrunc (a / b)))%Q.

(** [s.padStart(targetLength, c)] with a filler of one character. *)
Definition padStart (targetLength : nat) (c : ascii) (s : string) : string :=
  string_of_list_ascii (replicate (targetLength - String.length s) c) +:+ s.

Definition formatAverageTime (seconds : Q) : string :=
  if Qeq_bool seconds 0 || Qle_bool seconds 0 then "0:00"
  else
    let minutes := Qfloor (seconds / 60) in
    let remainingSeconds := Qfloor (js_rem seconds 60) in
    pretty minutes +:+ ":" +:+ padStart 2 "0" (pretty remainingSeconds).

(** The [metrics] object of the response. *)
Record response_metrics : Type := ResponseMetrics {
  totalVisits : Z;
  metrics_uniqueVisitors : Z;
  pageViews : Z;
  avgTimeOnPage : string;
  bounceRate : Z
}.

Definition metrics_of (engagementSummary : engagement_summary)
  : response_metrics :=
  ResponseMetrics
    (or_zero (total_sessions engagementSummary))
    (or_zero (unique_visitors_total engagementSummary))
    (or_zero (total_page_views engagementSummary))
    (formatAverageTime (avg_duration_seconds engagementSummary))
    (if Qeq_bool (bounce_ratio engagementSummary) 0 then 0
     else Math_round (bounce_ratio engagementSummary * 100)).

(** The two decimal digits of a number below 100. *)
Definition two_digits (n : Z) : string :=
  String (pretty_N_char (Z.to_N (n / 10)))
    (String (pretty_N_char (Z.to_N (n mod 10))) "").

(** ** Query strings and SQL texts *)

(** A value of [req.query]: a string, or a list or an object of values
    when the query string repeats or nests a key. *)
#[local] Unset Elimination Schemes.
Inductive qsval : Type :=
  | QStr : string -> qsval
  | QList : list qsval -> qsval
  | QObj : list (string * qsval) -> qsval.
#[local] Set Elimination Schemes.

(** [ToBoolean]: only the empty string is falsy. *)
Definition qs_truthy (v : qsval) : bool :=
  match v with
  | QStr s => negb (String.eqb s "")
  | _ => true
  end.

(** [v === s] for a string literal [s]. *)
Definition qs_is (v : qsval) (s : string) : bool :=
  match v with
  | QStr s' => String.eqb s' s
  | _ => false
  end.

(** The line feed of a template literal. *)
Definition nl : string := String (ascii_of_nat 10) "".

(** The lines of a template literal. *)
Definition lines (l : list string) : string := String.concat nl l.

(** The [switch] on [range] of [/analytics]; [None] is a missing key,
    for which the destructuring default ['7days'] stands. *)
Definition dateCondition (range : option qsval) : string :=
  let range := default (QStr "7days") range in
  if qs_is range "24h" then
    "AND al.created_at >= DATE_SUB(NOW(), INTERVAL 1 DAY)"
  else if qs_is range "7days" then
    "AND al.created_at >= DATE_SUB(NOW(), INTERVAL 7 DAY)"
  else if qs_is range "30days" then
    "AND al.created_at >= DATE_SUB(NOW(), INTERVAL 30 DAY)"
  else if qs_is range "90days" then
    "AND al.created_at >= DATE_SUB(NOW(), INTERVAL 90 DAY)"
  else
    "AND al.created_at >= DATE_SUB(NOW(), INTERVAL 7 DAY)".

(** The text of the query that fetches [viewRows]. *)
Definition viewRows_sql (range : option qsval) : string :=
  lines [ "";
          "      SELECT";
          "        al.id,";
          "        al.resource_id,";
          "        al.user_id,";
          "        al.ip_address,";
          "        al.user_agent,";
          "        al.created_at";
          "      FROM activity_logs al";
          "      WHERE al.action = 'view' AND al.resource_type = 'page'";
          "      " +:+ dateCondition range;
          "      ORDER BY al.created_at ASC";
          "    " ].

(** The number of [?] placeholders of a statement. *)
Fixpoint placeholders (s : string) : nat :=
  match s with
  | EmptyString => 0
  | String c s' =>
      ((if Ascii.eqb c "?" then 1 else 0) + placeholders s')%nat
  end.

(** ** The [/logs] route *)

(** The query of [/logs] as [req.query] holds it; [None] is a missing
    key. *)
Record logs_query : Type := LogsQuery {
  q_page : option qsval;
  q_limit : option qsval;
  q_action : option qsval;
  q_resource_type : option qsval;
  q_user_id : option qsval;
  q_start_date : option qsval;
  q_end_date : option qsval
}.

(** One [if (x) { whereClause += clause; params.push(x) }]. *)
Definition add_filter (clause : string) (x : option qsval)
    (acc : string * list qsval) : string * list qsval :=
  match x with
  | Some v =>
      if qs_truthy v then (acc.1 +:+ clause, acc.2 ++ [v]) else acc
  | None => acc
  end.

(** [whereClause] and [params] after the five filters. *)
Definition logs_filters (q : logs_query) : string * list qsval :=
  let acc := ("WHERE 1=1", []) in
  let acc := add_filter " AND al.action = ?" (q_action q) acc in
  let acc := add_filter " AND al.resource_type = ?" (q_resource_type q) acc in
  let acc := add_filter " AND al.user_id = ?" (q_user_id q) acc in
  let acc := add_filter " AND al.created_at >= ?" (q_start_date q) acc in
  let acc := add_filter " AND al.created_at <= ?" (q_end_date q) acc in
  acc.

Definition whereClause (q : logs_query) : string := (logs_filters q).1.

Definition params (q : logs_query) : list qsval := (logs_filters q).2.

(** An argument of a prepared statement: a value of the query as it
    came, or one of the two numbers of the list statement, [parseInt(limit)]
    and [(page - 1) * limit], each given by the values of the query it is
    computed from. *)
Inductive sqlarg : Type :=
  | ArgQs : qsval -> sqlarg
  | ArgParseInt : option qsval -> sqlarg
  | ArgOffset : option qsval -> option qsval -> sqlarg.

Definition count_sql (q : logs_query) : string :=
  lines [ "";
          "      SELECT COUNT(*) as total ";
          "      FROM activity_logs al";
          "      " +:+ whereClause q;
          "    " ].

Definition count_args (q : logs_query) : list sqlarg :=
  map ArgQs (params q).

Definition list_sql (q : logs_query) : string :=
  lines [ "";
          "      SELECT ";
          "        al.id,";
          "        al.action,";
          "        al.resource_type,";
          "        al.resource_id,";
          "        al.description,";
          "        al.ip_address,";
          "        al.created_at,";
          "        u.username";
          "      FROM activity_logs al";
          "      LEFT JOIN users u ON al.user_id = u.id";
          "      " +:+ whereClause q;
          "      ORDER BY al.created_at DESC";
          "      LIMIT ? OFFSET ?";
          "    " ].

(** [[...params, parseInt(limit), offset]] *)
Definition list_args (q : logs_query) : list sqlarg :=
  map ArgQs (params q)
  ++ [ArgParseInt (q_limit q); ArgOffset (q_page q) (q_limit q)].

(** The number that a string of decimal digits denotes, after [acc]. *)
Fixpoint digits_value (acc : Z) (s : string) : option Z :=
  match s with
  | EmptyString => Some acc
  | String c s' =>
      let n := Z.of_nat (nat_of_ascii c) in
      if (48 <=? n) && (n <=? 57)
      then digits_value (10 * acc + (n - 48)) s'
      else None
  end.

(** The handler reads [page] and [limit] as numbers in two ways: by
    [ToNumber] (in [page - 1], [* limit], [total / limit], [page < ...],
    [page > 1]) and by [parseInt].  [plain_number dflt v] is the whole
    number that both give for a value [v] on which they agree: the default
    of the destructuring when the key is missing, and the number written
    by a string of 1 to 7 decimal digits, so small that every number the
    handler computes from it stays below 2^53.  On any other value (a
    sign, a fraction, an exponent, blanks, a longer numeral, a list, an
    object) the two readings can differ or leave the whole numbers; such a
    value is not covered here, which [None] says. *)
Definition plain_number (dflt : Z) (v : option qsval) : option Z :=
  match v with
  | None => Some dflt
  | Some (QStr s) =>
      if (1 <=? String.length s)%nat && (String.length s <=? 7)%nat
      then digits_value 0 s
      else None
  | Some _ => None
  end.

Definition page_number (q : logs_query) : option Z :=
  plain_number 1 (q_page q).

Definition limit_number (q : logs_query) : option Z :=
  plain_number 20 (q_limit q).

(** [(page - 1) * limit], for a plain page and limit. *)
Definition offset (q : logs_query) : option Z :=
  match page_number q, limit_number q with
  | Some page, Some limit => Some ((page - 1) * limit)
  | _, _ => None
  end.

(** A number that may be infinite or not a number. *)
Inductive jsnum : Type :=
  | Num : Z -> jsnum
  | PosInf : jsnum
  | NegInf : jsnum
  | NaN : jsnum.

(** [Math.ceil(total / limit)] on whole numbers, [total] below 2^53:
    the quotient of the doubles then has the ceiling of the exact
    quotient. *)
Definition ceil_div (total limit : Z) : jsnum :=
  if limit =? 0 then
    if 0 <? total then PosInf else if total <? 0 then NegInf else NaN
  else Num (Qceiling (inject_Z total / inject_Z limit)).

(** [page < n] *)
Definition lt_num (page : Z) (n : jsnum) : bool :=
  match n with
  | Num z => page <? z
  | PosInf => true
  | NegInf => false
  | NaN => false
  end.

(** The [meta] object of the response. *)
Record logs_meta : Type := LogsMeta {
  current_page : Z;
  per_page : Z;
  total : Z;
  total_pages : jsnum;
  has_next : bool;
  has_prev : bool
}.

(** [meta] for a plain page and limit and the count [total] of the first
    statement. *)
Definition meta_of (q : logs_query) (total : Z) : option logs_meta :=
  match page_number q, limit_number q with
  | Some page, Some limit =>
      Some (LogsMeta page limit total
              (ceil_div total limit)
              (lt_num page (ceil_div total limit))
              (1 <? page))
  | _, _ => None
  end.

(** The filters that are set. *)
Definition filters_set (q : logs_query) : list bool :=
  map (fun x => from_option qs_truthy false x)
      [q_action q; q_resource_type q; q_user_id q;
       q_start_date q; q_end_date q].

(** ** Further notions used in the proofs *)

(** A string without the character [-]. *)
Fixpoint dash_free (s : string) : bool :=
  match s with
  | EmptyString => true
  | String c s' => negb (Ascii.eqb c "-") && dash_free s'
  end.

(** The sum of a list of counters. *)
Definition sum_list (l : list Z) : Z := foldr Z.add 0 l.

(** The rows are in ascending time order, as [ORDER BY al.created_at ASC]
    returns them. *)
Definition time_ordered (rows : list row) : Prop :=
  StronglySorted (fun a b => al_created_at a <= al_created_at b) rows.

(** Every two neighbours of a list are related by [R]. *)
Fixpoint chain {A : Type} (R : A -> A -> Prop) (l : list A) : Prop :=
  match l with
  | [] => True
  | x :: l' =>
      match l' with
      | [] => True
      | y :: _ => R x y /\ chain R l'
      end
  end.

(** The events of visitor [v] that fall in its session [k0], for the
    first loop in a state where [v] was last seen at [last] in session
    [idx]. *)
Definition run_of (v : string) (k0 : Z) (last : option Z) (idx : Z)
    (rs : list row) : list event :=
  filter (fun e => session_id e = sessionId_of v k0)
    (zip_with (positioned v) rs
       (spec_indices_from last idx (map al_created_at rs))).

(** The update of one aggregate by one event metric, as the loop over
    [eventMetrics] does it. *)
Definition agg_step (spc : JsMap.t string Z) (a : agg) (evt : metric) : agg :=
  Agg (agg_views a + 1)
      (agg_durationSum a + duration_seconds evt)
      ({[ visitor_id (current evt) ]} ∪ agg_uniqueVisitors a)
      (if get_or_zero spc (session_id (current evt)) =? 1
       then agg_bounceHits a + 1 else agg_bounceHits a).

(** The input rows that view the resource [k]. *)
Definition rows_of_page (rows : list row) (k : jsval) : list row :=
  filter (fun r => al_resource_id r = k) rows.

(** The event metrics on the resource [k]. *)
Definition metrics_of_page (ms : list metric) (k : jsval) : list metric :=
  filter (fun x => resource_id (current x) = k) ms.

(** The number of neighbours in a list of times that lie more than
    1800000 ms apart. *)
Fixpoint long_gaps (ts : list Z) : nat :=
  match ts with
  | [] => 0
  | t1 :: ts' =>
      match ts' with
      | [] => 0
      | t2 :: _ =>
          ((if (1800000 <? t2 - t1)%Z then 1 else 0) + long_gaps ts')%nat
      end
  end.

(** The sum of a list of natural numbers. *)
Definition sum_nats (l : list nat) : nat := foldr Nat.add 0%nat l.

(** * Properties *)

(** ** Arithmetic of the embedding *)

Lemma Math_round_div_1000 (d : Z) :
  Math_round (inject_Z d / 1000) = (d + 500) / 1000.
Proof.
  unfold Math_round, Qfloor, Qplus, Qdiv, Qmult, Qinv, inject_Z.
  cbn [Qnum Qden].
  replace (d * 1 * 2 + 1 * Z.pos (1 * 1000)) with (2 * (d + 500)) by lia.
  replace (Z.pos (1 * 1000 * 2)) with (2 * 1000) by lia.
  apply Z.div_mul_cancel_l; lia.
Qed.

Lemma Math_round_nearest (d : Z) :
  let r := Math_round (inject_Z d / 1000) in
  1000 * r - 500 <= d < 1000 * r + 500.
Proof.
  cbv zeta. rewrite Math_round_div_1000.
  pose proof (Z.div_mod (d + 500) 1000 ltac:(lia)).
  pose proof (Z.mod_pos_bound (d + 500) 1000 ltac:(lia)).
  lia.
Qed.

Lemma or_zero_id (x : Z) : or_zero x = x.
Proof. unfold or_zero. destruct (Z.eqb_spec x 0); congruence. Qed.

Lemma Qred_zero (q : Q) : (q == 0)%Q -> Qred q = 0%Q.
Proof. intros H. apply (Qred_complete q 0 H). Qed.

Lemma or_zeroQ_js_div (a b : Z) : or_zeroQ (js_div a b) = js_div a b.
Proof.
  unfold or_zeroQ. destruct (Qeq_bool (js_div a b) 0) eqn:E; [|done].
  apply Qeq_bool_iff in E. unfold js_div in *.
  rewrite <- (Qred_zero (Qred (inject_Z a / inject_Z b)) E).
  apply Qred_complete, Qred_correct.
Qed.

(** ** Maps *)

Section jsmap_facts.
Context {K V : Type} `{EqDecision K}.
Implicit Types (m : JsMap.t K V) (k : K) (v : V).

Lemma get_set m k v k' :
  JsMap.get (JsMap.set m k v) k' =
    if decide (k = k') then Some v else JsMap.get m k'.
Proof.
  induction m as [|[k0 v0] m IH]; simpl.
  - repeat case_decide; congruence.
  - repeat (case_decide; simpl); try congruence.
Qed.

Lemma get_set_eq m k v : JsMap.get (JsMap.set m k v) k = Some v.
Proof. rewrite get_set. by case_decide. Qed.

Lemma get_set_ne m k v k' :
  k <> k' -> JsMap.get (JsMap.set m k v) k' = JsMap.get m k'.
Proof. intros. rewrite get_set. by case_decide. Qed.

Lemma get_None_keys m k : JsMap.get m k = None <-> k ∉ JsMap.keys m.
Proof.
  induction m as [|[k0 v0] m IH]; simpl.
  - split; [intros _; apply not_elem_of_nil | done].
  - rewrite not_elem_of_cons. case_decide as Hk; subst.
    + split; [done | intros [Hne _]; done].
    + rewrite IH. split; [intros; split; congruence | intros [_ ?]; done].
Qed.

Lemma get_Some_elem m k v : JsMap.get m k = Some v -> (k, v) ∈ m.
Proof.
  induction m as [|[k0 v0] m IH]; simpl; [done|].
  case_decide; subst.
  - intros [= ->]. apply list_elem_of_here.
  - intros. apply list_elem_of_further. auto.
Qed.

Lemma elem_get_Some m k v :
  NoDup (JsMap.keys m) -> (k, v) ∈ m -> JsMap.get m k = Some v.
Proof.
  induction m as [|[k0 v0] m IH]; simpl.
  - intros _ Hin. by apply elem_of_nil in Hin.
  - rewrite NoDup_cons. intros [Hk0 Hnd] Hin.
    apply elem_of_cons in Hin as [[= -> ->]|Hin].
    + by case_decide.
    + case_decide; subst; [|auto].
      exfalso. apply Hk0. unfold JsMap.keys.
      apply (list_elem_of_fmap_2 fst) in Hin. done.
Qed.

Lemma keys_set m k v :
  JsMap.keys (JsMap.set m k v) =
    match JsMap.get m k with
    | Some _ => JsMap.keys m
    | None => JsMap.keys m ++ [k]
    end.
Proof.
  induction m as [|[k0 v0] m IH]; simpl; [done|].
  case_decide; subst; simpl; [done|].
  rewrite IH. by destruct (JsMap.get m k).
Qed.

Lemma NoDup_keys_set m k v :
  NoDup (JsMap.keys m) -> NoDup (JsMap.keys (JsMap.set m k v)).
Proof.
  intros Hnd. rewrite keys_set.
  destruct (JsMap.get m k) eqn:E; [done|].
  apply NoDup_app. split_and!; [done| |apply NoDup_singleton].
  intros x Hx ->%list_elem_of_singleton.
  by apply get_None_keys in E.
Qed.
End jsmap_facts.

(** ** Sorting *)

Section js_sort_facts.
Context {A : Type} (cmp : A -> A -> Z).

Lemma sort_insert_Permutation x l : sort_insert cmp x l ≡ₚ x :: l.
Proof.
  induction l as [|y l IH]; simpl; [done|].
  destruct (cmp x y <=? 0); [done|].
  rewrite IH. apply Permutation_swap.
Qed.

Lemma js_sort_Permutation l : js_sort cmp l ≡ₚ l.
Proof.
  induction l as [|x l IH]; simpl; [done|].
  by rewrite sort_insert_Permutation, IH.
Qed.

Lemma length_js_sort l : length (js_sort cmp l) = length l.
Proof. by rewrite js_sort_Permutation. Qed.

Section sorted.
Context (R : relation A) `{!Transitive R}.
Hypothesis cmp_le : forall x y, cmp x y <= 0 -> R x y.
Hypothesis cmp_gt : forall x y, 0 < cmp x y -> R y x.

Lemma sort_insert_sorted x l :
  StronglySorted R l -> StronglySorted R (sort_insert cmp x l).
Proof.
  induction 1 as [|y l Hs IH Hy]; simpl.
  - repeat constructor.
  - destruct (Z.leb_spec (cmp x y) 0) as [Hxy|Hxy].
    + constructor; [by constructor|].
      constructor; [by apply cmp_le|].
      eapply Forall_impl; [exact Hy|].
      intros z Hz. etrans; [by apply cmp_le|done].
    + constructor; [done|].
      rewrite sort_insert_Permutation. constructor; [|done].
      by apply cmp_gt.
Qed.

Lemma js_sort_sorted l : StronglySorted R (js_sort cmp l).
Proof.
  induction l as [|x l IH]; simpl; [constructor|].
  by apply sort_insert_sorted.
Qed.
End sorted.
End js_sort_facts.

(** A list that is already in order is left as it is. *)
Lemma js_sort_in_order {A : Type} (cmp : A -> A -> Z) (l : list A) :
  StronglySorted (fun x y => cmp x y <= 0) l -> js_sort cmp l = l.
Proof.
  induction 1 as [|x l _ IH Hx]; [done|]. simpl. rewrite IH.
  destruct Hx as [|y l Hxy _]; [done|]. simpl.
  destruct (Z.leb_spec (cmp x y) 0); [done|lia].
Qed.

Lemma by_created_ms_sorted (l : list event) :
  StronglySorted (fun a b => created_ms a <= created_ms b)
                 (js_sort by_created_ms l).
Proof.
  apply js_sort_sorted.
  - intros x y z ??. lia.
  - unfold by_created_ms. intros. lia.
  - unfold by_created_ms. intros. lia.
Qed.

Global Instance ranks_before_trans : Transitive ranks_before.
Proof. unfold ranks_before. intros a b c ??. lia. Qed.

Lemma by_views_sorted (l : list page_detail) :
  StronglySorted ranks_before (js_sort by_views_then_updated l).
Proof.
  apply js_sort_sorted; [apply _| |];
    unfold by_views_then_updated, ranks_before; intros x y;
    destruct (Z.eqb_spec (views y) (views x)); simpl; lia.
Qed.

(** ** Filters *)

Section filter_facts.
Context {A : Type} (P : A -> Prop) `{forall x, Decision (P x)}.

Lemma filter_all (l : list A) : Forall P l -> filter P l = l.
Proof.
  induction 1 as [|x l Hx _ IH]; [done|].
  by rewrite filter_cons_True, IH.
Qed.

Lemma filter_none (l : list A) :
  Forall (fun x => ~ P x) l -> filter P l = [].
Proof.
  induction 1 as [|x l Hx _ IH]; [done|].
  by rewrite filter_cons_False, IH.
Qed.

Lemma Forall_filter_self (l : list A) : Forall P (filter P l).
Proof.
  apply Forall_forall. intros x Hx.
  by apply list_elem_of_filter in Hx as [? _].
Qed.
End filter_facts.

(** ** Durations of one session *)

Lemma current_session_metrics (l : list event) :
  map current (session_metrics l) = l.
Proof.
  unfold session_metrics. generalize (duration_at l).
  induction l as [|x l IH]; intros f; [done|].
  rewrite imap_cons. simpl. f_equal. apply IH.
Qed.

Lemma length_session_metrics (l : list event) :
  length (session_metrics l) = length l.
Proof. unfold session_metrics. apply length_imap. Qed.

Lemma lookup_session_metrics (l : list event) (i : nat) :
  session_metrics l !! i =
    (fun cur => Metric cur (duration_at l i cur)) <$> l !! i.
Proof. unfold session_metrics. apply list_lookup_imap. Qed.

Lemma duration_at_range (l : list event) (i : nat) (cur : event) :
  1 <= duration_at l i cur <= 1800.
Proof. unfold duration_at. destruct (l !! (i + 1)%nat); lia. Qed.

Lemma session_metrics_range (l : list event) :
  Forall (fun m => 1 <= duration_seconds m <= 1800) (session_metrics l).
Proof.
  apply Forall_forall. intros m Hm.
  apply list_elem_of_lookup in Hm as [i Hi].
  rewrite lookup_session_metrics in Hi.
  destruct (l !! i) as [cur|]; simplify_eq/=.
  apply duration_at_range.
Qed.

(** ** Grouping by session *)

Lemma pass2_bind (m : JsMap.t string (list event)) :
  pass2 m = JsMap.values m ≫= metrics_of_group.
Proof.
  unfold pass2. rewrite <- (app_nil_l (_ ≫= _)).
  generalize (@nil metric) as acc. generalize (JsMap.values m) as l.
  induction l as [|arr l IH]; intros acc; simpl.
  - by rewrite app_nil_r.
  - rewrite IH. unfold pass2_step. by rewrite <- app_assoc.
Qed.

Lemma current_metrics_of_group (arr : list event) :
  map current (metrics_of_group arr) ≡ₚ arr.
Proof.
  unfold metrics_of_group.
  rewrite current_session_metrics. apply js_sort_Permutation.
Qed.

Lemma groups_of_step evts m e :
  groups_of evts m -> groups_of (evts ++ [e]) (group_step m e).
Proof.
  intros [Hnd Hget]. split; [by apply NoDup_keys_set|].
  intros s. unfold group_step. rewrite get_set, filter_app.
  case_decide as Hs; simpl.
  - subst s. rewrite Hget. f_equal. by rewrite filter_cons_True.
  - rewrite Hget. rewrite filter_cons_False by done.
    by rewrite filter_nil, app_nil_r.
Qed.

Lemma groups_of_fold evts0 evts m :
  groups_of evts0 m ->
  groups_of (evts0 ++ evts) (fold_left group_step evts m).
Proof.
  revert evts0 m. induction evts as [|e evts IH]; intros evts0 m Hm; simpl.
  - by rewrite app_nil_r.
  - replace (evts0 ++ e :: evts) with ((evts0 ++ [e]) ++ evts)
      by (by rewrite <- app_assoc).
    apply IH. by apply groups_of_step.
Qed.

Lemma groups_of_group_sessions evts : groups_of evts (group_sessions evts).
Proof.
  apply (groups_of_fold [] evts JsMap.empty).
  split; [constructor | done].
Qed.

Lemma group_step_Permutation (m : JsMap.t string (list event)) e :
  mjoin (JsMap.values (group_step m e)) ≡ₚ mjoin (JsMap.values m) ++ [e].
Proof.
  unfold group_step.
  induction m as [|[k arr] m IH]; simpl; [done|].
  case_decide as Hk; simpl.
  - rewrite <- !app_assoc. f_equiv. apply Permutation_app_comm.
  - simpl in IH. rewrite IH. by rewrite app_assoc.
Qed.

Lemma group_fold_Permutation evts (m : JsMap.t string (list event)) :
  mjoin (JsMap.values (fold_left group_step evts m))
  ≡ₚ mjoin (JsMap.values m) ++ evts.
Proof.
  revert m. induction evts as [|e evts IH]; intros m; simpl.
  - by rewrite app_nil_r.
  - rewrite IH, group_step_Permutation. by rewrite <- app_assoc.
Qed.

Lemma pass2_Permutation (evts : list event) :
  map current (pass2 (group_sessions evts)) ≡ₚ evts.
Proof.
  rewrite pass2_bind.
  transitivity (mjoin (JsMap.values (group_sessions evts))).
  - generalize (JsMap.values (group_sessions evts)) as l.
    induction l as [|arr l IH]; [done|].
    rewrite bind_cons, map_app, IH, current_metrics_of_group. done.
  - unfold group_sessions. by rewrite group_fold_Permutation.
Qed.

Lemma metrics_of_group_session (arr : list event) (k : string) :
  Forall (fun e => session_id e = k) arr ->
  Forall (fun x => session_id (current x) = k) (metrics_of_group arr).
Proof.
  intros Harr.
  apply (Forall_fmap current (fun e => session_id e = k)).
  change (fmap current) with (map current).
  by rewrite current_metrics_of_group.
Qed.

Lemma filter_session_bind (m : JsMap.t string (list event)) (s : string) :
  NoDup (JsMap.keys m) ->
  (forall k arr, (k, arr) ∈ m -> Forall (fun e => session_id e = k) arr) ->
  filter (fun x => session_id (current x) = s)
         (JsMap.values m ≫= metrics_of_group)
  = metrics_of_group (default [] (JsMap.get m s)).
Proof.
  induction m as [|[k arr] m IH]; intros Hnd Hall; [done|].
  simpl in Hnd. apply NoDup_cons in Hnd as [Hk Hnd].
  assert (Forall (fun x => session_id (current x) = k) (metrics_of_group arr))
    as Hgrp.
  { apply metrics_of_group_session, Hall, list_elem_of_here. }
  assert (forall k' arr', (k', arr') ∈ m ->
            Forall (fun e => session_id e = k') arr') as Hall'.
  { intros k' arr' Hin. by apply Hall, list_elem_of_further. }
  change (JsMap.values ((k, arr) :: m)) with (arr :: JsMap.values m).
  rewrite bind_cons, filter_app, (IH Hnd Hall').
  cbn [JsMap.get]. case_decide as Hs.
  - subst k. rewrite (filter_all _ _ Hgrp).
    apply get_None_keys in Hk. rewrite Hk. simpl.
    by rewrite app_nil_r.
  - rewrite filter_none; [done|].
    eapply Forall_impl; [exact Hgrp|]. simpl. congruence.
Qed.

Lemma pass2_session (evts : list event) (s : string) :
  filter (fun x => session_id (current x) = s) (pass2 (group_sessions evts))
  = metrics_of_group (filter (fun e => session_id e = s) evts).
Proof.
  destruct (groups_of_group_sessions evts) as [Hnd Hget].
  rewrite pass2_bind, filter_session_bind; [by rewrite Hget|done|].
  intros k arr Hin. apply (elem_get_Some _ _ _ Hnd) in Hin.
  specialize (Hget k). rewrite Hin in Hget. simpl in Hget. subst arr.
  apply Forall_filter_self.
Qed.

Lemma pass2_range (m : JsMap.t string (list event)) :
  Forall (fun x => 1 <= duration_seconds x <= 1800) (pass2 m).
Proof.
  rewrite pass2_bind. apply Forall_bind, Forall_forall.
  intros arr _. apply session_metrics_range.
Qed.

(** ** The first pass *)

Lemma pass1_from_cons st r rows :
  pass1_from st (r :: rows) = pass1_from (pass1_step st r) rows.
Proof. done. Qed.

Lemma pass1_from_visitor (st : pass1_state) (rows : list row) (v : string) :
  let rows_v := filter (fun r => buildVisitorId r = v) rows in
  filter (fun e => visitor_id e = v) (events (pass1_from st rows))
  = filter (fun e => visitor_id e = v) (events st)
    ++ zip_with (positioned v) rows_v
         (spec_indices_from (lastTime (vstate_of st v))
            (sessionIndex (vstate_of st v)) (map al_created_at rows_v)).
Proof.
  cbv zeta. revert st. induction rows as [|r rows IH]; intros st.
  - simpl. by rewrite app_nil_r.
  - rewrite pass1_from_cons, IH. clear IH.
    unfold vstate_of at 1 2. simpl. rewrite filter_app, get_set.
    destruct (decide (buildVisitorId r = v)) as [Hv|Hv].
    + rewrite filter_cons_True by done. rewrite filter_cons_True by done.
      rewrite <- app_assoc. f_equal. simpl. subst v. done.
    + rewrite filter_cons_False by done. rewrite filter_cons_False by done.
      by rewrite filter_nil, app_nil_r.
Qed.

Lemma length_events_pass1_from (st : pass1_state) (rows : list row) :
  length (events (pass1_from st rows))
  = (length (events st) + length rows)%nat.
Proof.
  revert st. induction rows as [|r rows IH]; intros st; simpl.
  - lia.
  - rewrite IH. simpl. rewrite length_app. simpl. lia.
Qed.

Lemma data_pass1_from (st : pass1_state) (rows : list row) :
  map event_data (events (pass1_from st rows))
  = map event_data (events st) ++ map row_data rows.
Proof.
  revert st. induction rows as [|r rows IH]; intros st; simpl.
  - by rewrite app_nil_r.
  - rewrite IH. simpl. rewrite map_app. simpl. by rewrite <- app_assoc.
Qed.

Lemma resources_pass1_from (st : pass1_state) (rows : list row) :
  map resource_id (events (pass1_from st rows))
  = map resource_id (events st) ++ map al_resource_id rows.
Proof.
  revert st. induction rows as [|r rows IH]; intros st; simpl.
  - by rewrite app_nil_r.
  - rewrite IH. simpl. rewrite map_app. simpl. by rewrite <- app_assoc.
Qed.

Lemma session_size_snoc evts e s :
  session_size (evts ++ [e]) s =
    if decide (session_id e = s) then session_size evts s + 1
    else session_size evts s.
Proof.
  unfold session_size. rewrite filter_app, length_app.
  case_decide.
  - rewrite filter_cons_True by done. simpl. lia.
  - rewrite filter_cons_False by done. simpl. lia.
Qed.

Lemma session_size_nonneg evts s : 0 <= session_size evts s.
Proof. unfold session_size. lia. Qed.

Lemma counts_of_step (st : pass1_state) (r : row) :
  counts_of (events st) (sessionPageCounts st) ->
  counts_of (events (pass1_step st r)) (sessionPageCounts (pass1_step st r)).
Proof.
  intros [Hnd Hget]. split; [by apply NoDup_keys_set|].
  intros s. simpl. rewrite get_set, session_size_snoc. simpl.
  pose proof (session_size_nonneg (events st) s).
  case_decide as Hs.
  - subst s. unfold get_or_zero. rewrite Hget, or_zero_id.
    repeat case_decide; simpl in *; try lia; f_equal; lia.
  - apply Hget.
Qed.

Lemma counts_of_pass1_from (st : pass1_state) (rows : list row) :
  counts_of (events st) (sessionPageCounts st) ->
  counts_of (events (pass1_from st rows))
            (sessionPageCounts (pass1_from st rows)).
Proof.
  revert st. induction rows as [|r rows IH]; intros st Hst; [done|].
  rewrite pass1_from_cons. by apply IH, counts_of_step.
Qed.

Lemma counts_of_pass1 (rows : list row) :
  counts_of (events (pass1 rows)) (sessionPageCounts (pass1 rows)).
Proof. apply counts_of_pass1_from. split; [constructor|done]. Qed.

Lemma session_size_zero evts s :
  session_size evts s = 0 <-> s ∉ map session_id evts.
Proof.
  unfold session_size. induction evts as [|e evts IH]; simpl.
  - split; [intros _; apply not_elem_of_nil | done].
  - rewrite not_elem_of_cons, filter_cons. case_decide as He; simpl.
    + split; [lia | intros [Hne _]; congruence].
    + rewrite IH. split; [intros; split; congruence | intros [_ ?]; done].
Qed.

Lemma counts_keys evts spc :
  counts_of evts spc -> JsMap.keys spc ≡ₚ remove_dups (map session_id evts).
Proof.
  intros [Hnd Hget]. apply NoDup_Permutation; [done|apply NoDup_remove_dups|].
  intros s. rewrite elem_of_remove_dups.
  destruct (decide (s ∈ map session_id evts)) as [Hin|Hin].
  - split; [done|intros _].
    destruct (decide (s ∈ JsMap.keys spc)) as [|Hk]; [done|].
    apply get_None_keys in Hk. rewrite Hget in Hk.
    case_decide as Hz; [|done]. by apply session_size_zero in Hz.
  - split; [|done]. intros Hk. exfalso.
    apply session_size_zero in Hin. specialize (Hget s).
    rewrite decide_True in Hget by done.
    by apply get_None_keys in Hget.
Qed.

Lemma counts_values evts spc :
  counts_of evts spc ->
  JsMap.values spc = map (session_size evts) (JsMap.keys spc).
Proof.
  intros [Hnd Hget].
  assert (Forall (fun kc => kc.2 = session_size evts kc.1) spc) as Hall.
  { apply Forall_forall. intros [k c] Hin. simpl.
    apply (elem_get_Some _ _ _ Hnd) in Hin. rewrite Hget in Hin.
    case_decide; congruence. }
  clear Hnd Hget. induction Hall as [|[k c] spc Hkc _ IH]; [done|].
  simpl in *. by rewrite Hkc, IH.
Qed.

Lemma length_filter_map {A B} (f : A -> B) (P : B -> Prop)
    `{forall y, Decision (P y)} (l : list A) :
  length (filter P (map f l)) = length (filter (fun x => P (f x)) l).
Proof.
  induction l as [|x l IH]; [done|]. simpl.
  rewrite !filter_cons. case_decide; simpl; by rewrite IH.
Qed.

Lemma totalSessions_distinct evts spc :
  counts_of evts spc ->
  totalSessions spc = Z.of_nat (length (remove_dups (map session_id evts))).
Proof.
  intros Hc. unfold totalSessions, JsMap.size.
  rewrite <- (counts_keys evts spc Hc). unfold JsMap.keys.
  by rewrite length_map.
Qed.

Lemma singlePageSessions_distinct evts spc :
  counts_of evts spc ->
  singlePageSessions spc
  = Z.of_nat (length (filter (fun s => session_size evts s = 1)
                             (remove_dups (map session_id evts)))).
Proof.
  intros Hc. unfold singlePageSessions.
  rewrite (counts_values evts spc Hc), length_filter_map.
  by rewrite (counts_keys evts spc Hc).
Qed.

Lemma durationTotal_sum (ms : list metric) :
  durationTotal ms = sum_durations ms.
Proof.
  unfold durationTotal, sum_durations.
  assert (forall acc, fold_left (fun sum e => sum + duration_seconds e) ms acc
                      = acc + foldr Z.add 0 (map duration_seconds ms)) as Hacc.
  { induction ms as [|x ms IH]; intros acc; simpl; [lia|].
    rewrite IH. lia. }
  rewrite Hacc. lia.
Qed.

(** ** Page aggregates *)

Lemma pageAgg_fold_None spc ms (m0 : JsMap.t jsval agg) (k : jsval) :
  JsMap.get (fold_left (pageAgg_step spc) ms m0) k = None
  <-> JsMap.get m0 k = None /\ k ∉ map (fun x => resource_id (current x)) ms.
Proof.
  revert m0. induction ms as [|x ms IH]; intros m0; simpl.
  - split; [intros ?; split; [done|apply not_elem_of_nil] | by intros [? _]].
  - rewrite IH, not_elem_of_cons. unfold pageAgg_step. rewrite get_set.
    case_decide as Hk.
    + split; [by intros [? _] | intros [_ [Hne _]]; congruence].
    + split; [intros [? ?]; repeat split; congruence | intros [? [_ ?]]; done].
Qed.

Lemma build_pageAgg_None spc ms (k : jsval) :
  JsMap.get (build_pageAgg spc ms) k = None
  <-> k ∉ map (fun x => resource_id (current x)) ms.
Proof.
  unfold build_pageAgg. rewrite pageAgg_fold_None. simpl.
  split; [by intros [_ ?] | done].
Qed.

Lemma page_entry_no_traffic pageAgg (p : page) :
  JsMap.get pageAgg (p_id p) = None -> page_entry pageAgg p = zero_entry p.
Proof. intros Hget. unfold page_entry. by rewrite Hget. Qed.

Lemma resources_eventMetrics (rows : list row) :
  map (fun x => resource_id (current x)) (eventMetrics_of rows)
  ≡ₚ map al_resource_id rows.
Proof.
  unfold eventMetrics_of.
  transitivity (map resource_id (events (pass1 rows))).
  - rewrite <- (pass2_Permutation (events (pass1 rows))) at 2.
    by rewrite map_map.
  - unfold pass1. by rewrite resources_pass1_from.
Qed.

Lemma length_eventMetrics (rows : list row) :
  length (eventMetrics_of rows) = length rows.
Proof.
  unfold eventMetrics_of.
  rewrite <- (length_map current), pass2_Permutation.
  unfold pass1. by rewrite length_events_pass1_from.
Qed.

(** ** The visitor key *)

Lemma truthy_false (v : jsval) :
  truthy v = false <-> v = JNull \/ v = JNum 0 \/ v = JStr "".
Proof.
  destruct v as [|n|s]; simpl.
  - split; [by left | done].
  - destruct (Z.eqb_spec n 0) as [->|Hn]; simpl.
    + split; [by right; left | done].
    + split; [done | intros [?|[?|?]]; congruence].
  - destruct (String.eqb_spec s "") as [->|Hs]; simpl.
    + split; [by right; right | done].
    + split; [done | intros [?|[?|?]]; congruence].
Qed.

Lemma truthy_str_true (o : option string) :
  truthy_str o = true <-> exists ua, o = Some ua /\ ua <> "".
Proof.
  destruct o as [s|]; simpl.
  - destruct (String.eqb_spec s "") as [->|Hs]; simpl.
    + split; [done | intros (ua & [= <-] & Hne); done].
    + split; [intros _; by exists s | done].
  - split; [done | intros (ua & ? & _); done].
Qed.

Lemma length_hex_of_bytes (bs : list Z) :
  String.length (Md5.hex_of_bytes bs) = (2 * length bs)%nat.
Proof. induction bs as [|b bs IH]; simpl; [done|]. rewrite IH. lia. Qed.

Lemma length_md5_hex (s : string) : String.length (Md5.hex s) = 32%nat.
Proof.
  unfold Md5.hex. rewrite length_hex_of_bytes. unfold Md5.digest.
  by destruct (fold_left Md5.compress _ _).
Qed.

Lemma length_substring_0 (n : nat) (s : string) :
  (n <= String.length s)%nat -> String.length (substring 0 n s) = n.
Proof.
  revert s. induction n as [|n IH]; intros s Hn.
  - by destruct s.
  - destruct s as [|c s]; simpl in *; [lia|]. rewrite IH; [done|lia].
Qed.

(** C3, as the code has it.  The fields are tested by truthiness: the
    visitor key is the stringified [user_id] when it is truthy; otherwise
    the stringified [ip_address] when that is truthy; otherwise ["ua:"]
    followed by the first 12 hexadecimal characters of the MD5 digest of
    [user_agent] when that is a non-empty string; otherwise ["unknown"].
    A row with user id "42" and IP address "1.2.3.4" has key "42". *)
Theorem visitor_key_precedence (r : row) :
  (truthy (al_user_id r) = true ->
     buildVisitorId r = js_String (al_user_id r)) /\
  (truthy (al_user_id r) = false -> truthy (al_ip_address r) = true ->
     buildVisitorId r = js_String (al_ip_address r)) /\
  (truthy (al_user_id r) = false -> truthy (al_ip_address r) = false ->
     forall ua, al_user_agent r = Some ua -> ua <> "" ->
       buildVisitorId r = "ua:" +:+ substring 0 12 (Md5.hex ua) /\
       String.length (substring 0 12 (Md5.hex ua)) = 12%nat) /\
  (truthy (al_user_id r) = false -> truthy (al_ip_address r) = false ->
     truthy_str (al_user_agent r) = false -> buildVisitorId r = "unknown") /\
  (al_user_id r = JStr "42" -> al_ip_address r = JStr "1.2.3.4" ->
     buildVisitorId r = "42").
Proof.
  unfold buildVisitorId. split_and!.
  - by intros ->.
  - by intros -> ->.
  - intros -> -> ua Hua Hne.
    assert (truthy_str (al_user_agent r) = true) as ->.
    { apply truthy_str_true. eauto. }
    rewrite Hua. split; [done|].
    apply length_substring_0. rewrite length_md5_hex. lia.
  - by intros -> -> ->.
  - by intros -> _.
Qed.

Lemma visitor_key_precedence_witness :
  buildVisitorId user_and_ip_row = "42".
Proof.
  apply (proj2 (proj2 (proj2 (proj2
           (visitor_key_precedence user_and_ip_row))))); reflexivity.
Defined.

(** Counterexample to C3 as stated, "present" being "not null": the row
    [zero_user_row] has a user id that is present, the number 0, and its
    key is the IP address, not the stringified user id. *)
Lemma visitor_key_presence_counterexample :
  present (al_user_id zero_user_row) /\
  js_String (al_user_id zero_user_row) = "0" /\
  buildVisitorId zero_user_row = "1.2.3.4" /\
  buildVisitorId zero_user_row <> js_String (al_user_id zero_user_row).
Proof. split_and!; [done|done|done|]. vm_compute. discriminate. Qed.

(** C9.  The presence test is JavaScript truthiness: a row whose
    [user_id] is the number 0 or the empty string and whose [ip_address]
    is a non-empty string has the IP string as key; a row whose
    [ip_address] is the empty string is keyed as if it had no IP address,
    so that, its user id being falsy too, the key is the user-agent hash
    or ["unknown"]. *)
Theorem visitor_key_falsy_coercion (r : row) :
  (forall ip, al_user_id r = JNum 0 \/ al_user_id r = JStr "" ->
     al_ip_address r = JStr ip -> ip <> "" -> buildVisitorId r = ip) /\
  (al_ip_address r = JStr "" ->
     buildVisitorId r = buildVisitorId (with_ip r JNull)) /\
  (truthy (al_user_id r) = false -> al_ip_address r = JStr "" ->
     buildVisitorId r =
       match al_user_agent r with
       | Some ua =>
           if decide (ua = "") then "unknown"
           else "ua:" +:+ substring 0 12 (Md5.hex ua)
       | None => "unknown"
       end) /\
  (al_user_id r = JNum 0 \/ al_user_id r = JStr "" ->
     buildVisitorId r = buildVisitorId (with_user r JNull)).
Proof.
  unfold buildVisitorId. split_and!.
  - intros ip Hu Hip Hne. rewrite Hip.
    assert (truthy (al_user_id r) = false) as ->.
    { apply truthy_false. tauto. }
    simpl. by destruct (String.eqb_spec ip "").
  - by intros ->.
  - intros -> ->. simpl. destruct (al_user_agent r) as [ua|]; simpl; [|done].
    case_decide as Hua.
    + by subst ua.
    + by destruct (String.eqb_spec ua "").
  - by intros [-> | ->].
Qed.

Lemma visitor_key_falsy_coercion_witness :
  buildVisitorId zero_user_row = "1.2.3.4".
Proof.
  apply (proj1 (visitor_key_falsy_coercion zero_user_row) "1.2.3.4");
    [left; reflexivity | reflexivity | discriminate].
Defined.

(** ** Sessions *)

Lemma length_spec_indices_from last idx ts :
  length (spec_indices_from last idx ts) = length ts.
Proof.
  revert last idx. induction ts as [|t ts IH]; intros last idx; simpl;
    [done|by rewrite IH].
Qed.

Lemma spec_indices_first t ts : spec_session_indices (t :: ts) !! 0%nat = Some 1.
Proof. done. Qed.

Lemma spec_indices_next last idx ts (i : nat) (t1 t2 k1 k2 : Z) :
  ts !! i = Some t1 -> ts !! S i = Some t2 ->
  spec_indices_from last idx ts !! i = Some k1 ->
  spec_indices_from last idx ts !! S i = Some k2 ->
  k2 = if 1800000 <? t2 - t1 then k1 + 1 else k1.
Proof.
  revert last idx i. induction ts as [|t ts IH]; intros last idx i; [done|].
  destruct i as [|i]; simpl.
  - destruct ts as [|t' ts]; [done|]. simpl.
    by intros [= <-] [= <-] [= <-] [= <-].
  - apply IH.
Qed.

Lemma sessionId_of_inj (v : string) (k1 k2 : Z) :
  sessionId_of v k1 = sessionId_of v k2 -> k1 = k2.
Proof.
  unfold sessionId_of. intros Heq.
  apply (inj (String.app v)), (inj (String.app "-")) in Heq.
  by apply (inj pretty) in Heq.
Qed.

Lemma pass1_visitor (rows : list row) (v : string) :
  let rows_v := filter (fun r => buildVisitorId r = v) rows in
  filter (fun e => visitor_id e = v) (events (pass1 rows))
  = zip_with (positioned v) rows_v
      (spec_session_indices (map al_created_at rows_v)).
Proof. apply (pass1_from_visitor pass1_init rows v). Qed.

Lemma lookup_positioned (v : string) (rs : list row) (ks : list Z)
    (i : nat) (e : event) :
  zip_with (positioned v) rs ks !! i = Some e ->
  exists r k, rs !! i = Some r /\ ks !! i = Some k /\ e = positioned v r k.
Proof.
  intros He. apply lookup_zip_with_Some in He as (r & k & -> & Hr & Hk).
  eauto.
Qed.

(** C1.  Pass 1 gives the events of a visitor [v], in input order, the
    session indices of the specification: the first event of [v] gets
    index 1, and every later event of [v] gets the index of the previous
    one plus one exactly when its time exceeds the previous time by more
    than 1800000 ms, and the same index otherwise.  Different indices give
    different session ids.  Two events of one visitor 1801 s apart are in
    sessions 1 and 2; two events 1800 s apart are both in session 1. *)
Theorem session_split_boundary :
  (forall (viewRows : list row) (v : string),
     let evts_v :=
       filter (fun e => visitor_id e = v) (events (pass1 viewRows)) in
     let rows_v := filter (fun r => buildVisitorId r = v) viewRows in
     evts_v = zip_with (positioned v) rows_v
                (spec_session_indices (map al_created_at rows_v)) /\
     length evts_v = length rows_v /\
     (forall e, evts_v !! 0%nat = Some e -> session_id e = sessionId_of v 1) /\
     (forall i e1 e2, evts_v !! i = Some e1 -> evts_v !! S i = Some e2 ->
        exists k, session_id e1 = sessionId_of v k /\
          ((1800000 < created_ms e2 - created_ms e1 /\
            session_id e2 = sessionId_of v (k + 1)) \/
           (created_ms e2 - created_ms e1 <= 1800000 /\
            session_id e2 = sessionId_of v k)))) /\
  (forall (v : string) (k1 k2 : Z),
     sessionId_of v k1 = sessionId_of v k2 -> k1 = k2) /\
  (forall r1 r2 : row,
     buildVisitorId r1 = buildVisitorId r2 ->
     let v := buildVisitorId r1 in
     (al_created_at r2 = al_created_at r1 + 1801 * 1000 ->
        map session_id (events (pass1 [r1; r2]))
        = [sessionId_of v 1; sessionId_of v 2]) /\
     (al_created_at r2 = al_created_at r1 + 1800 * 1000 ->
        map session_id (events (pass1 [r1; r2]))
        = [sessionId_of v 1; sessionId_of v 1])).
Proof.
  split_and!.
  - intros viewRows v evts_v rows_v.
    pose proof (pass1_visitor viewRows v) as Heq. cbv zeta in Heq.
    fold evts_v rows_v in Heq.
    assert (length (spec_session_indices (map al_created_at rows_v))
            = length rows_v) as Hlen.
    { unfold spec_session_indices.
      by rewrite length_spec_indices_from, length_map. }
    clearbody evts_v rows_v. split_and!.
    + done.
    + rewrite Heq, length_zip_with. lia.
    + intros e He. rewrite Heq in He.
      apply lookup_positioned in He as (r & k & Hr & Hk & ->).
      destruct rows_v as [|r0 rs]; [done|].
      cbn [map] in Hk. rewrite spec_indices_first in Hk. by simplify_eq.
    + intros i e1 e2 He1 He2. rewrite Heq in He1, He2.
      apply lookup_positioned in He1 as (r1 & k1 & Hr1 & Hk1 & ->).
      apply lookup_positioned in He2 as (r2 & k2 & Hr2 & Hk2 & ->).
      exists k1. split; [done|]. simpl.
      assert (k2 = if 1800000 <? al_created_at r2 - al_created_at r1
                   then k1 + 1 else k1) as ->.
      { eapply (spec_indices_next None 0 (map al_created_at rows_v) i);
          [| |exact Hk1|exact Hk2].
        - change (map al_created_at rows_v) with (al_created_at <$> rows_v).
          by rewrite list_lookup_fmap, Hr1.
        - change (map al_created_at rows_v) with (al_created_at <$> rows_v).
          by rewrite list_lookup_fmap, Hr2. }
      destruct (Z.ltb_spec 1800000 (al_created_at r2 - al_created_at r1));
        [left|right]; done.
  - apply sessionId_of_inj.
  - intros r1 r2 Hv v. unfold pass1, pass1_from. simpl.
    rewrite decide_True by done. rewrite <- Hv. fold v.
    unfold next_index. simpl. split; intros ->.
    + replace (al_created_at r1 + 1801 * 1000 - al_created_at r1)
        with 1801000 by lia.
      done.
    + replace (al_created_at r1 + 1800 * 1000 - al_created_at r1)
        with 1800000 by lia.
      done.
Qed.

Lemma session_split_boundary_witness :
  map session_id
      (events (pass1 [Row 1 (JNum 7) (JNum 42) JNull None 1000;
                      Row 2 (JNum 8) (JNum 42) JNull None 1802000]))
  = ["42-1"; "42-2"].
Proof.
  apply (proj1 (proj2 (proj2 session_split_boundary)
                 (Row 1 (JNum 7) (JNum 42) JNull None 1000)
                 (Row 2 (JNum 8) (JNum 42) JNull None 1802000)
                 eq_refl) eq_refl).
Defined.

(** ** Durations *)

Lemma group_two_events (a b : event) :
  session_id a = session_id b ->
  created_ms a <= created_ms b ->
  pass2 (group_sessions [a; b]) =
    [Metric a (clamp 1 1800
                 (Math_round (inject_Z (created_ms b - created_ms a) / 1000)));
     Metric b 30].
Proof.
  intros Hs Hle. unfold group_sessions, pass2, group_step. simpl.
  destruct (decide (session_id a = session_id b)); [simpl|done].
  unfold pass2_step, by_created_ms. simpl.
  destruct (Z.leb_spec (created_ms a - created_ms b) 0); [done|lia].
Qed.

(** C2.  Within the events of one session [s], sorted by time, every
    event with a successor has as duration the gap to the successor in
    seconds, rounded to the nearest integer and clamped to [1, 1800]; the
    last event of the session has duration 30.  A gap of 5000 s gives
    1800 and a gap of 0 s gives 1. *)
Theorem duration_computation :
  (forall (evts : list event) (s : string),
     let session := filter (fun e => session_id e = s) evts in
     let sorted := js_sort by_created_ms session in
     let ms := filter (fun x => session_id (current x) = s)
                      (pass2 (group_sessions evts)) in
     sorted ≡ₚ session /\
     StronglySorted (fun a b => created_ms a <= created_ms b) sorted /\
     map current ms = sorted /\
     (forall i cur, sorted !! i = Some cur ->
        exists x, ms !! i = Some x /\ current x = cur /\
          match sorted !! S i with
          | Some next =>
              let gap := created_ms next - created_ms cur in
              let seconds := Math_round (inject_Z gap / 1000) in
              duration_seconds x = clamp 1 1800 seconds /\
              1000 * seconds - 500 <= gap < 1000 * seconds + 500
          | None => duration_seconds x = 30
          end)) /\
  (forall a b : event,
     session_id a = session_id b ->
     (created_ms b = created_ms a + 5000 * 1000 ->
        map duration_seconds (pass2 (group_sessions [a; b])) = [1800; 30]) /\
     (created_ms b = created_ms a ->
        map duration_seconds (pass2 (group_sessions [a; b])) = [1; 30])).
Proof.
  split.
  - intros evts s session sorted ms.
    assert (ms = session_metrics sorted) as Hms by apply pass2_session.
    clearbody ms. subst ms. split_and!.
    + apply js_sort_Permutation.
    + apply by_created_ms_sorted.
    + apply current_session_metrics.
    + intros i cur Hcur.
      exists (Metric cur (duration_at sorted i cur)). split_and!.
      * by rewrite lookup_session_metrics, Hcur.
      * done.
      * simpl. unfold duration_at. replace (i + 1)%nat with (S i) by lia.
        destruct (sorted !! S i) as [next|]; [|done].
        split; [done|apply Math_round_nearest].
  - intros a b Hs. split; intros Hb.
    + rewrite group_two_events by (done || lia). simpl.
      rewrite Hb, Math_round_div_1000.
      replace (created_ms a + 5000 * 1000 - created_ms a + 500)
        with 5000500 by lia.
      done.
    + rewrite group_two_events by (done || lia). simpl.
      rewrite Hb, Math_round_div_1000.
      replace (created_ms a - created_ms a + 500) with 500 by lia.
      done.
Qed.

Lemma duration_computation_witness :
  map duration_seconds
      (pass2 (group_sessions [Event (JNum 7) "42" "42-1" 0;
                              Event (JNum 8) "42" "42-1" 5000000]))
  = [1800; 30].
Proof.
  apply (proj1 (proj2 duration_computation
                 (Event (JNum 7) "42" "42-1" 0)
                 (Event (JNum 8) "42" "42-1" 5000000) eq_refl) eq_refl).
Defined.

(** C10.  Every event metric has a duration between 1 and 1800 seconds,
    the fallback 30 included, and there is exactly one event metric per
    input row: the events of the metrics are those that pass 1 recorded,
    one per row and with the data of that row. *)
Theorem duration_range_and_count (viewRows : list row) :
  Forall (fun x => 1 <= duration_seconds x <= 1800)
         (eventMetrics_of viewRows) /\
  1 <= 30 <= 1800 /\
  map current (eventMetrics_of viewRows) ≡ₚ events (pass1 viewRows) /\
  map event_data (events (pass1 viewRows)) = map row_data viewRows /\
  length (events (pass1 viewRows)) = length viewRows /\
  length (eventMetrics_of viewRows) = length viewRows /\
  (forall pages,
     out_eventMetrics (reconstruct viewRows pages) = eventMetrics_of viewRows).
Proof.
  split; [apply pass2_range|]. split; [lia|].
  split; [apply pass2_Permutation|].
  split; [unfold pass1; by rewrite data_pass1_from|].
  split; [unfold pass1; by rewrite length_events_pass1_from|].
  split; [apply length_eventMetrics|done].
Qed.

(** ** Aggregates *)

Lemma or_zeroQ_avg (ms : list metric) :
  or_zeroQ (avgDurationSeconds ms) = avgDurationSeconds ms.
Proof.
  unfold avgDurationSeconds.
  destruct (0 <? totalPageViews ms); [apply or_zeroQ_js_div|done].
Qed.

Lemma or_zeroQ_bounce (spc : JsMap.t string Z) :
  or_zeroQ (bounceRatio spc) = bounceRatio spc.
Proof.
  unfold bounceRatio.
  destruct (0 <? totalSessions spc); [apply or_zeroQ_js_div|done].
Qed.

Lemma js_div_correct (a b : Z) : (js_div a b == inject_Z a / inject_Z b)%Q.
Proof. apply Qred_correct. Qed.

(** C4.  On the five rows of the scenario, in time order (visitor "u1"
    on page "p1" at 0 s, 100 s, 2000 s and 2100 s, visitor "u2" on page
    "p2" at 50 s), there are 3 sessions, 5 page views, 2 unique visitors,
    1 single-page session, and the bounce ratio is 1/3. *)
Theorem end_to_end_scenario (pages : list page) :
  let R := reconstruct scenario_rows pages in
  map al_created_at scenario_rows = [0; 50000; 100000; 2000000; 2100000] /\
  map session_id (events (pass1 scenario_rows))
  = ["u1-1"; "u2-1"; "u1-1"; "u1-2"; "u1-2"] /\
  total_sessions (out_summary R) = 3 /\
  total_page_views (out_summary R) = 5 /\
  unique_visitors_total (out_summary R) = 2 /\
  singlePageSessions (out_sessionPageCounts R) = 1 /\
  bounce_ratio (out_summary R) = (1 # 3)%Q.
Proof. vm_compute. by split_and!. Qed.

(** C5.  The bounce ratio is the number of sessions with exactly one
    event divided by the number of distinct sessions, and the average
    duration is the sum of the durations divided by the number of event
    metrics, each 0 when its divisor is 0.  On an empty input nothing
    fails: the event metrics and the page counters are empty, every
    aggregate is 0 and the page details hold zero entries only (none if
    the catalog is empty). *)
Theorem zero_guarded_aggregates (viewRows : list row) (pages : list page) :
  let R := reconstruct viewRows pages in
  let evts := events (pass1 viewRows) in
  let sessions := remove_dups (map session_id evts) in
  let single := filter (fun s => session_size evts s = 1) sessions in
  total_sessions (out_summary R) = Z.of_nat (length sessions) /\
  total_page_views (out_summary R) = Z.of_nat (length (out_eventMetrics R)) /\
  bounce_ratio (out_summary R)
  = (if decide (length sessions = 0%nat) then 0%Q
     else js_div (Z.of_nat (length single)) (Z.of_nat (length sessions))) /\
  avg_duration_seconds (out_summary R)
  = (if decide (length (out_eventMetrics R) = 0%nat) then 0%Q
     else js_div (sum_durations (out_eventMetrics R))
                 (Z.of_nat (length (out_eventMetrics R)))) /\
  (forall a b, (js_div a b == inject_Z a / inject_Z b)%Q) /\
  (viewRows = [] ->
     R = Reconstruction [] JsMap.empty (EngagementSummary 0 0 0 0%Q 0%Q)
           (take 20 (js_sort by_views_then_updated (map zero_entry pages))) /\
     (pages = [] -> out_pageDetails R = [])).
Proof.
  intros R evts sessions single.
  pose proof (counts_of_pass1 viewRows) as Hc. fold evts in Hc.
  pose proof (totalSessions_distinct _ _ Hc) as Htot.
  pose proof (singlePageSessions_distinct _ _ Hc) as Hsingle.
  fold sessions in Htot, Hsingle. fold single in Hsingle.
  split_and!.
  - simpl. by rewrite or_zero_id.
  - simpl. by rewrite or_zero_id.
  - simpl. rewrite or_zeroQ_bounce. unfold bounceRatio.
    fold (pass1 viewRows). rewrite Hsingle, Htot.
    destruct (Z.ltb_spec 0 (Z.of_nat (length sessions)));
      case_decide; (done || lia).
  - set (ms := out_eventMetrics R).
    change (avg_duration_seconds (out_summary R))
      with (or_zeroQ (avgDurationSeconds ms)).
    clearbody ms. rewrite or_zeroQ_avg. unfold avgDurationSeconds.
    rewrite durationTotal_sum. unfold totalPageViews.
    destruct (Z.ltb_spec 0 (Z.of_nat (length ms)));
      case_decide; (done || lia).
  - apply js_div_correct.
  - intros ->. split; [|by intros ->].
    subst R. unfold reconstruct, reconstruct_from, respond. simpl. f_equal.
Qed.

Lemma zero_guarded_aggregates_witness :
  reconstruct [] scenario_pages
  = Reconstruction [] JsMap.empty (EngagementSummary 0 0 0 0%Q 0%Q)
      (take 20 (js_sort by_views_then_updated
                        (map zero_entry scenario_pages))).
Proof.
  apply (proj1 (proj2 (proj2 (proj2 (proj2 (proj2
           (zero_guarded_aggregates [] scenario_pages))))) eq_refl)).
Defined.

(** ** Page details *)

Lemma ranked_pages_Permutation pageAgg (pages : list page) :
  ranked_pages pageAgg pages ≡ₚ map (page_entry pageAgg) pages.
Proof. apply js_sort_Permutation. Qed.

Lemma length_ranked_pages pageAgg (pages : list page) :
  length (ranked_pages pageAgg pages) = length pages.
Proof. by rewrite ranked_pages_Permutation, length_map. Qed.

Lemma StronglySorted_take {A} (R : relation A) (n : nat) (l : list A) :
  StronglySorted R l -> StronglySorted R (take n l).
Proof.
  intros Hl. rewrite <- (take_drop n l) in Hl.
  by apply StronglySorted_app_1_l in Hl.
Qed.

Lemma StronglySorted_lookup {A} (R : relation A) (l : list A)
    (i j : nat) (a b : A) :
  StronglySorted R l -> (i < j)%nat ->
  l !! i = Some a -> l !! j = Some b -> R a b.
Proof.
  intros Hl. revert i j. induction Hl as [|x l _ IH Hx]; intros i j Hij; [done|].
  destruct j as [|j]; [lia|]. destruct i as [|i]; simpl.
  - intros [= ->] Hb. rewrite Forall_forall in Hx.
    by eapply Hx, list_elem_of_lookup_2.
  - apply IH. lia.
Qed.

Lemma no_event_no_agg (viewRows : list row) (p : page) :
  (forall r, r ∈ viewRows -> al_resource_id r <> p_id p) ->
  JsMap.get (build_pageAgg (sessionPageCounts (pass1 viewRows))
                           (eventMetrics_of viewRows)) (p_id p) = None.
Proof.
  intros Hno. apply build_pageAgg_None.
  rewrite resources_eventMetrics. intros Hin.
  apply (list_elem_of_fmap_1 al_resource_id) in Hin as (r & Hr & Hin).
  by apply (Hno r Hin).
Qed.

(** C6, as the code has it.  A catalog page that matches no event has its
    entry, with [views = 0], [unique_visitors = 0], [avg_time = 0] and
    [bounce_rate = 0], in the ranked list of all catalog pages;
    [pageDetails] is the first 20 entries of that list, so the entry is in
    [pageDetails] when it ranks among the first 20, and always when the
    catalog has at most 20 pages. *)
Theorem zero_traffic_pages_retained (viewRows : list row)
    (pages : list page) (p : page) :
  p ∈ pages ->
  (forall r, r ∈ viewRows -> al_resource_id r <> p_id p) ->
  let pageAgg := build_pageAgg (sessionPageCounts (pass1 viewRows))
                               (eventMetrics_of viewRows) in
  let ranked := ranked_pages pageAgg pages in
  page_entry pageAgg p = zero_entry p /\
  out_pageDetails (reconstruct viewRows pages) = take 20 ranked /\
  length ranked = length pages /\
  (exists i, ranked !! i = Some (zero_entry p) /\
     ((i < 20)%nat ->
        zero_entry p ∈ out_pageDetails (reconstruct viewRows pages))) /\
  ((length pages <= 20)%nat ->
     zero_entry p ∈ out_pageDetails (reconstruct viewRows pages)).
Proof.
  intros Hp Hno pageAgg ranked.
  assert (page_entry pageAgg p = zero_entry p) as Hentry.
  { by apply page_entry_no_traffic, no_event_no_agg. }
  assert (zero_entry p ∈ ranked) as Hin.
  { subst ranked. rewrite ranked_pages_Permutation, <- Hentry.
    by apply (list_elem_of_fmap_2 (page_entry pageAgg)). }
  assert (out_pageDetails (reconstruct viewRows pages) = take 20 ranked)
    as Hout by done.
  split_and!; [done|done|apply length_ranked_pages| |].
  - apply list_elem_of_lookup in Hin as [i Hi]. exists i. split; [done|].
    intros Hlt. rewrite Hout. apply elem_of_take. eauto.
  - intros Hlen. rewrite Hout, take_ge; [done|].
    subst ranked. rewrite length_ranked_pages. lia.
Qed.

Lemma zero_traffic_pages_retained_witness :
  zero_entry (Page (JStr "p3") "Empty" 30)
  ∈ out_pageDetails (reconstruct scenario_rows scenario_pages).
Proof.
  apply (zero_traffic_pages_retained scenario_rows scenario_pages
           (Page (JStr "p3") "Empty" 30)).
  - vm_compute. do 2 apply list_elem_of_further. apply list_elem_of_here.
  - intros r Hr. vm_compute in Hr.
    repeat (apply elem_of_cons in Hr as [->|Hr]; [discriminate|]).
    by apply elem_of_nil in Hr.
  - vm_compute. lia.
Defined.

(** Counterexample to C6 as stated: in a catalog of 21 pages and without
    any event, the page that was updated first is in the catalog and
    matches no event, yet none of the 20 entries of [pageDetails] is its
    entry. *)
Lemma zero_traffic_page_dropped :
  oldest_page ∈ catalog 21 /\
  (forall r, r ∈ @nil row -> al_resource_id r <> p_id oldest_page) /\
  length (out_pageDetails (reconstruct [] (catalog 21))) = 20%nat /\
  Forall (fun d => title d <> p_title oldest_page)
         (out_pageDetails (reconstruct [] (catalog 21))).
Proof.
  split_and!.
  - apply list_elem_of_here.
  - intros r Hr. by apply elem_of_nil in Hr.
  - by vm_compute.
  - vm_compute. repeat (constructor; [discriminate|]). constructor.
Qed.

(** C7.  [pageDetails] is the first 20 entries of the catalog entries
    sorted by views, most first, entries with equal views by the page's
    own [updated_at], latest first. *)
Theorem pageDetails_order_and_truncation (viewRows : list row)
    (pages : list page) :
  let pageAgg := build_pageAgg (sessionPageCounts (pass1 viewRows))
                               (eventMetrics_of viewRows) in
  let ranked := ranked_pages pageAgg pages in
  let details := out_pageDetails (reconstruct viewRows pages) in
  details = take 20 ranked /\
  ranked ≡ₚ map (page_entry pageAgg) pages /\
  (forall p, title (page_entry pageAgg p) = p_title p /\
             updated_at (page_entry pageAgg p) = p_updated_at p) /\
  StronglySorted ranks_before ranked /\
  StronglySorted ranks_before details /\
  (forall i j a b, (i < j)%nat -> details !! i = Some a ->
     details !! j = Some b ->
     views b < views a \/
     (views a = views b /\ updated_at b <= updated_at a)) /\
  length details = Nat.min 20 (length pages).
Proof.
  intros pageAgg ranked details.
  assert (details = take 20 ranked) as Hd by done. clearbody details.
  assert (StronglySorted ranks_before details) as Hsorted.
  { rewrite Hd. apply StronglySorted_take, by_views_sorted. }
  split_and!.
  - done.
  - apply ranked_pages_Permutation.
  - done.
  - apply by_views_sorted.
  - done.
  - intros i j a b Hij Ha Hb.
    apply (StronglySorted_lookup ranks_before details i j a b); done.
  - rewrite Hd, length_take. subst ranked. by rewrite length_ranked_pages.
Qed.

Lemma pageDetails_order_and_truncation_witness :
  exists a b : page_detail,
    out_pageDetails (reconstruct scenario_rows scenario_pages) !! 0%nat
    = Some a /\
    out_pageDetails (reconstruct scenario_rows scenario_pages) !! 1%nat
    = Some b /\
    (views b < views a \/
     (views a = views b /\ updated_at b <= updated_at a)).
Proof.
  eexists _, _. split; [reflexivity|]. split; [reflexivity|].
  apply (proj1 (proj2 (proj2 (proj2 (proj2 (proj2
           (pageDetails_order_and_truncation scenario_rows scenario_pages))))))
           0%nat 1%nat); [lia|reflexivity|reflexivity].
Defined.

(** ** The handler on the heap *)

Lemma bind_Some {A B} (m : M A) (f : A -> M B) h a h' :
  m h = Some (a, h') -> bind m f h = f a h'.
Proof. unfold bind. by intros ->. Qed.

Lemma alloc_ok o h : alloc o h = Some (length h, h ++ [o]).
Proof. done. Qed.

Lemma load_ok l o h : h !! l = Some o -> load l h = Some (o, h).
Proof. unfold load. by intros ->. Qed.

Lemma store_ok l o x h :
  h !! l = Some x -> store l o h = Some (tt, <[l := o]> h).
Proof. unfold store. by intros ->. Qed.

Lemma load_state_ok l s h :
  h !! l = Some (OState s) -> load_state l h = Some (s, h).
Proof.
  intros H. unfold load_state.
  by rewrite (bind_Some _ _ _ _ _ (load_ok _ _ _ H)).
Qed.

Lemma load_map_ref_ok l m h :
  h !! l = Some (OMapRef m) -> load_map_ref l h = Some (m, h).
Proof.
  intros H. unfold load_map_ref.
  by rewrite (bind_Some _ _ _ _ _ (load_ok _ _ _ H)).
Qed.

Lemma load_map_num_ok l m h :
  h !! l = Some (OMapNum m) -> load_map_num l h = Some (m, h).
Proof.
  intros H. unfold load_map_num.
  by rewrite (bind_Some _ _ _ _ _ (load_ok _ _ _ H)).
Qed.

Lemma load_events_ok l a h :
  h !! l = Some (OEvents a) -> load_events l h = Some (a, h).
Proof.
  intros H. unfold load_events.
  by rewrite (bind_Some _ _ _ _ _ (load_ok _ _ _ H)).
Qed.

Lemma load_metrics_ok l a h :
  h !! l = Some (OMetrics a) -> load_metrics l h = Some (a, h).
Proof.
  intros H. unfold load_metrics.
  by rewrite (bind_Some _ _ _ _ _ (load_ok _ _ _ H)).
Qed.

Lemma load_set_ok l s h :
  h !! l = Some (OSet s) -> load_set l h = Some (s, h).
Proof.
  intros H. unfold load_set.
  by rewrite (bind_Some _ _ _ _ _ (load_ok _ _ _ H)).
Qed.

Lemma load_agg_ok l a h :
  h !! l = Some (OAgg a) -> load_agg l h = Some (a, h).
Proof.
  intros H. unfold load_agg.
  by rewrite (bind_Some _ _ _ _ _ (load_ok _ _ _ H)).
Qed.

Lemma load_map_agg_ok l m h :
  h !! l = Some (OMapAgg m) -> load_map_agg l h = Some (m, h).
Proof.
  intros H. unfold load_map_agg.
  by rewrite (bind_Some _ _ _ _ _ (load_ok _ _ _ H)).
Qed.

Lemma lookup_alloc (h : heap) (o : obj) : (h ++ [o]) !! length h = Some o.
Proof. by rewrite list_lookup_middle. Qed.

Lemma lookup_alloc_old (h k : heap) (l : loc) x :
  h !! l = Some x -> (h ++ k) !! l = Some x.
Proof. apply lookup_app_l_Some. Qed.

Lemma lookup_alloc2_0 (h : heap) (o1 o2 : obj) :
  (h ++ [o1; o2]) !! length h = Some o1.
Proof. by rewrite list_lookup_middle. Qed.

Lemma lookup_alloc2_1 (h : heap) (o1 o2 : obj) :
  (h ++ [o1; o2]) !! S (length h) = Some o2.
Proof.
  rewrite lookup_app_r by lia.
  by replace (S (length h) - length h)%nat with 1%nat by lia.
Qed.

Lemma lookup_store_eq (h : heap) (l : loc) (o x : obj) :
  h !! l = Some x -> <[l := o]> h !! l = Some o.
Proof. intros H. apply list_lookup_insert_eq. by eapply lookup_lt_Some. Qed.

Lemma lookup_store_ne (h : heap) (l l' : loc) (o x : obj) :
  l <> l' -> h !! l' = Some x -> <[l := o]> h !! l' = Some x.
Proof. intros. by rewrite list_lookup_insert_ne. Qed.

(** Finding the object at a reference after stores and allocations. *)
Ltac lkp :=
  first
    [ eassumption
    | apply lookup_alloc
    | apply lookup_alloc2_0
    | apply lookup_alloc2_1
    | eapply lookup_store_eq; lkp
    | eapply lookup_store_ne;
        [first [lia | congruence | eassumption | (by apply not_eq_sym)] | lkp]
    | apply lookup_alloc_old; lkp ].

Ltac op_ok :=
  first
    [ apply alloc_ok
    | eapply store_ok; lkp
    | eapply load_state_ok; lkp
    | eapply load_map_ref_ok; lkp
    | eapply load_map_num_ok; lkp
    | eapply load_events_ok; lkp
    | eapply load_metrics_ok; lkp
    | eapply load_set_ok; lkp
    | eapply load_agg_ok; lkp
    | eapply load_map_agg_ok; lkp
    | reflexivity ].

(** One statement of a body. *)
Ltac exec :=
  erewrite bind_Some; [|op_ok];
  cbv beta;
  cbn [o_views o_durationSum o_uniqueVisitors o_bounceHits
       lastTime sessionIndex].

Lemma unchanged_refl n h : unchanged n h h.
Proof. by split. Qed.

Lemma unchanged_trans n h1 h2 h3 :
  unchanged n h1 h2 -> unchanged n h2 h3 -> unchanged n h1 h3.
Proof.
  intros [Hl1 H1] [Hl2 H2]. split; [lia|].
  intros l Hl. by rewrite H2, H1.
Qed.

Lemma unchanged_le n n' h h' :
  (n' <= n)%nat -> unchanged n h h' -> unchanged n' h h'.
Proof. intros Hn [Hl H]. split; [done|]. intros l Hl'. apply H. lia. Qed.

Lemma unchanged_alloc n (h : heap) o :
  (n <= length h)%nat -> unchanged n h (h ++ [o]).
Proof.
  intros Hn. split; [rewrite length_app; lia|].
  intros l Hl. apply lookup_app_l. lia.
Qed.

Lemma unchanged_store n (h : heap) l o :
  (n <= l)%nat -> unchanged n h (<[l := o]> h).
Proof.
  intros Hn. split; [by rewrite length_insert|].
  intros l' Hl. apply list_lookup_insert_ne. lia.
Qed.

Lemma unchanged_take n (h h' : heap) :
  n = length h -> unchanged n h h' -> take n h' = h.
Proof.
  intros -> [Hlen H]. apply list_eq. intros i.
  destruct (decide (i < length h)%nat) as [Hi|Hi].
  - rewrite lookup_take_lt by done. by apply H.
  - rewrite lookup_take_ge by lia. symmetry. apply lookup_ge_None. lia.
Qed.

(** *** Maps of references *)

Section refs.
Context {K V : Type} `{EqDecision K}.
Variable R : heap -> loc -> V -> Prop.

Lemma refs_get_Some h (m : JsMap.t K loc) (pure : JsMap.t K V) k l :
  refs_rel R h m pure -> JsMap.get m k = Some l ->
  exists v, JsMap.get pure k = Some v /\ R h l v.
Proof.
  induction 1 as [|[k1 l1] [k2 v2] m' p' [Hk HR] _ IH]; [done|].
  simpl in *. subst k2. destruct (decide (k1 = k)).
  - intros [= ->]. eauto.
  - done.
Qed.

Lemma refs_get_None h (m : JsMap.t K loc) (pure : JsMap.t K V) k :
  refs_rel R h m pure -> JsMap.get m k = None -> JsMap.get pure k = None.
Proof.
  induction 1 as [|[k1 l1] [k2 v2] m' p' [Hk HR] _ IH]; [done|].
  simpl in *. subst k2. by destruct (decide (k1 = k)).
Qed.

Lemma get_elem_of_values (m : JsMap.t K loc) k l :
  JsMap.get m k = Some l -> l ∈ JsMap.values m.
Proof.
  induction m as [|[k1 l1] m IH]; [done|]. simpl.
  destruct (decide (k1 = k)).
  - intros [= ->]. apply list_elem_of_here.
  - intros. apply list_elem_of_further. by apply IH.
Qed.

Lemma set_get_same (m : JsMap.t K loc) k l :
  JsMap.get m k = Some l -> JsMap.set m k l = m.
Proof.
  induction m as [|[k1 l1] m IH]; [done|]. simpl.
  destruct (decide (k1 = k)).
  - by intros [= ->].
  - intros. by rewrite IH.
Qed.

Lemma set_get_None {W} (m : JsMap.t K W) k w :
  JsMap.get m k = None -> JsMap.set m k w = m ++ [(k, w)].
Proof.
  induction m as [|[k1 l1] m IH]; [done|]. simpl.
  destruct (decide (k1 = k)); [done|].
  intros. by rewrite IH.
Qed.

Lemma refs_rel_mono h h' (m : JsMap.t K loc) (pure : JsMap.t K V) :
  (forall l v, l ∈ JsMap.values m -> R h l v -> R h' l v) ->
  refs_rel R h m pure -> refs_rel R h' m pure.
Proof.
  intros Hmono Hrel. revert Hmono.
  induction Hrel as [|[k1 l1] [k2 v2] m' p' [Hk HR] _ IH]; intros Hmono.
  { constructor. }
  constructor.
  - split; [done|]. apply Hmono; [apply list_elem_of_here|done].
  - apply IH. intros l v Hl. apply Hmono. by apply list_elem_of_further.
Qed.

(** [set] on an entry that exists: the object of the reference changes,
    the other references, which are different, keep theirs. *)
Lemma refs_set_old h h' (m : JsMap.t K loc) (pure : JsMap.t K V) k l v' :
  refs_rel R h m pure -> NoDup (JsMap.values m) ->
  JsMap.get m k = Some l ->
  (forall l' v, l' ∈ JsMap.values m -> l' <> l -> R h l' v -> R h' l' v) ->
  R h' l v' ->
  refs_rel R h' (JsMap.set m k l) (JsMap.set pure k v').
Proof.
  intros Hrel. revert l.
  induction Hrel as [|[k1 l1] [k2 v2] m' p' [Hk HR] Hrel IH];
    intros l Hnd Hget Hframe Hnew; [done|].
  simpl in *. subst k2. apply NoDup_cons in Hnd as [Hl1 Hnd].
  destruct (decide (k1 = k)) as [->|Hne].
  - injection Hget as ->. constructor; [done|].
    apply refs_rel_mono with h; [|done].
    intros l' v Hl' Hv. apply Hframe; [by apply list_elem_of_further| |done].
    intros ->. done.
  - constructor.
    + split; [done|]. simpl. apply Hframe; [apply list_elem_of_here| |done].
      intros ->. apply Hl1. by eapply get_elem_of_values.
    + apply IH; [done|done| |done].
      intros l' v Hl'. apply Hframe. by apply list_elem_of_further.
Qed.

(** [set] on a new key. *)
Lemma refs_set_new h h' (m : JsMap.t K loc) (pure : JsMap.t K V) k l v' :
  refs_rel R h m pure ->
  JsMap.get m k = None ->
  (forall l' v, l' ∈ JsMap.values m -> R h l' v -> R h' l' v) ->
  R h' l v' ->
  refs_rel R h' (JsMap.set m k l) (JsMap.set pure k v').
Proof.
  intros Hrel Hget Hframe Hnew.
  rewrite (set_get_None m) by done.
  rewrite (set_get_None pure) by (by eapply refs_get_None).
  apply Forall2_app.
  - by apply refs_rel_mono with h.
  - by repeat constructor.
Qed.

Lemma refs_values h (m : JsMap.t K loc) (pure : JsMap.t K V) :
  refs_rel R h m pure ->
  Forall2 (R h) (JsMap.values m) (JsMap.values pure).
Proof.
  induction 1 as [|[k1 l1] [k2 v2] m' p' [Hk HR] _ IH]; constructor; done.
Qed.

Lemma refs_bound h (m : JsMap.t K loc) (pure : JsMap.t K V) l :
  refs_rel R h m pure ->
  (forall l v, R h l v -> (l < length h)%nat) ->
  l ∈ JsMap.values m -> (l < length h)%nat.
Proof.
  intros Hrel Hlt Hl. apply refs_values in Hrel.
  apply list_elem_of_lookup in Hl as [i Hi].
  destruct (Forall2_lookup_l _ _ _ _ _ Hrel Hi) as (v & _ & Hv).
  by eapply Hlt.
Qed.

Lemma values_set_new {W} (m : JsMap.t K W) k w :
  JsMap.get m k = None ->
  JsMap.values (JsMap.set m k w) = JsMap.values m ++ [w].
Proof.
  intros Hget. rewrite set_get_None by done.
  unfold JsMap.values. by rewrite map_app.
Qed.
End refs.

(** *** Loops *)

Lemma for_of_inv {A S : Type} (Inv : heap -> S -> Prop) (step : S -> A -> S)
    (body : A -> M unit) (n : nat) :
  (forall h s x, Inv h s ->
     exists h', body x h = Some (tt, h') /\ Inv h' (step s x) /\
                unchanged n h h') ->
  forall l h s, Inv h s ->
    exists h', for_of l body h = Some (tt, h') /\
               Inv h' (fold_left step l s) /\ unchanged n h h'.
Proof.
  intros Hbody l. induction l as [|x l IH]; intros h s HI.
  - exists h. split_and!; [done|done|apply unchanged_refl].
  - destruct (Hbody h s x HI) as (h1 & Hrun & HI1 & Hu1).
    destruct (IH h1 (step s x) HI1) as (h2 & Hrun2 & HI2 & Hu2).
    exists h2. split_and!; [|done|by eapply unchanged_trans].
    simpl. by rewrite (bind_Some _ _ _ _ _ Hrun).
Qed.

Lemma map_M_inv {A B : Type} (Inv : heap -> Prop) (f : A -> M B)
    (g : A -> B) (n : nat) :
  (forall h x, Inv h ->
     exists h', f x h = Some (g x, h') /\ Inv h' /\ unchanged n h h') ->
  forall l h, Inv h ->
    exists h', map_M f l h = Some (map g l, h') /\ Inv h' /\ unchanged n h h'.
Proof.
  intros Hf l. induction l as [|x l IH]; intros h HI.
  - exists h. split_and!; [done|done|apply unchanged_refl].
  - destruct (Hf h x HI) as (h1 & Hrun & HI1 & Hu1).
    destruct (IH h1 HI1) as (h2 & Hrun2 & HI2 & Hu2).
    exists h2. split_and!; [|done|by eapply unchanged_trans].
    simpl. rewrite (bind_Some _ _ _ _ _ Hrun).
    by rewrite (bind_Some _ _ _ _ _ Hrun2).
Qed.

(** *** The first loop *)

Lemma pass1_body_ok (b : nat) (r : row) (h : heap) (st : pass1_state) :
  inv1 b h st ->
  exists h', pass1_body b (S b) (S (S b)) r h = Some (tt, h') /\
             inv1 b h' (pass1_step st r) /\ unchanged b h h'.
Proof.
  intros (m & Hb & Hb1 & Hb2 & Hrel & Hnd & Hlo).
  unfold pass1_body. exec.
  rewrite Forall_forall in Hlo.
  destruct (JsMap.get m (buildVisitorId r)) as [l|] eqn:Hget.
  - destruct (refs_get_Some _ _ _ _ _ _ Hrel Hget) as (s & Hs & Hat).
    unfold state_at in Hat.
    pose proof (Hlo l (get_elem_of_values _ _ _ Hget)) as Hl.
    do 11 exec.
    eexists. split; [op_ok|]. split.
    + exists (JsMap.set m (buildVisitorId r) l).
      unfold pass1_step. rewrite Hs. simpl.
      split_and!; try lkp.
      * apply refs_set_old with h; try done.
        -- intros l' v Hl' Hne Hv. unfold state_at in *.
           pose proof (Hlo l' Hl'). lkp.
        -- unfold state_at. lkp.
      * by rewrite set_get_same.
      * rewrite set_get_same by done. by apply Forall_forall.
    + repeat (eapply unchanged_trans; [|apply unchanged_store; lia]).
      apply unchanged_refl.
  - pose proof (refs_get_None _ _ _ _ _ Hrel Hget) as Hs.
    pose proof (lookup_lt_Some _ _ _ Hb2) as Hlen.
    assert (forall l', l' ∈ JsMap.values m -> (l' < length h)%nat) as Hold.
    { intros l' Hl'. eapply refs_bound; [exact Hrel| |done].
      intros ? ?. apply lookup_lt_Some. }
    do 11 exec.
    eexists. split; [op_ok|]. split.
    + exists (JsMap.set m (buildVisitorId r) (length h)).
      unfold pass1_step. rewrite Hs. simpl.
      split_and!; try lkp.
      * apply refs_set_new with h; try done.
        -- intros l' v Hl' Hv. unfold state_at in *.
           pose proof (Hlo l' Hl'). pose proof (Hold l' Hl'). lkp.
        -- unfold state_at. lkp.
      * rewrite values_set_new by done. apply NoDup_app. split_and!.
        -- done.
        -- intros l' Hl' ->%list_elem_of_singleton.
           pose proof (Hold _ Hl'). lia.
        -- apply NoDup_singleton.
      * rewrite values_set_new by done. apply Forall_app. split.
        -- by apply Forall_forall.
        -- constructor; [lia|constructor].
    + eapply unchanged_trans; [apply unchanged_alloc; lia|].
      repeat (eapply unchanged_trans; [|apply unchanged_store; lia]).
      apply unchanged_refl.
Qed.

Lemma pass1_loop_ok (b : nat) (rows : list row) (h : heap)
    (st : pass1_state) :
  inv1 b h st ->
  exists h', for_of rows (pass1_body b (S b) (S (S b))) h = Some (tt, h') /\
             inv1 b h' (pass1_from st rows) /\ unchanged b h h'.
Proof.
  apply (for_of_inv (inv1 b) pass1_step). intros. by apply pass1_body_ok.
Qed.

(** *** The loop over [events] *)

Lemma group_body_ok (c : nat) (evt : event) (h : heap)
    (sm : JsMap.t string (list event)) :
  inv2 c h sm ->
  exists h', group_body c evt h = Some (tt, h') /\
             inv2 c h' (group_step sm evt) /\ unchanged c h h'.
Proof.
  intros (m & Hc & Hrel & Hnd & Hlo).
  unfold group_body. exec.
  rewrite Forall_forall in Hlo.
  destruct (JsMap.get m (session_id evt)) as [l|] eqn:Hget.
  - destruct (refs_get_Some _ _ _ _ _ _ Hrel Hget) as (a & Ha & Hat).
    unfold events_at in Hat.
    pose proof (Hlo l (get_elem_of_values _ _ _ Hget)) as Hl.
    do 4 exec.
    eexists. split; [op_ok|]. split.
    + exists (JsMap.set m (session_id evt) l).
      unfold group_step. rewrite Ha. simpl.
      split_and!; try lkp.
      * apply refs_set_old with h; try done.
        -- intros l' v Hl' Hne Hv. unfold events_at in *.
           pose proof (Hlo l' Hl'). lkp.
        -- unfold events_at. lkp.
      * by rewrite set_get_same.
      * rewrite set_get_same by done. by apply Forall_forall.
    + repeat (eapply unchanged_trans; [|apply unchanged_store; lia]).
      apply unchanged_refl.
  - pose proof (refs_get_None _ _ _ _ _ Hrel Hget) as Hs.
    pose proof (lookup_lt_Some _ _ _ Hc) as Hlen.
    assert (forall l', l' ∈ JsMap.values m -> (l' < length h)%nat) as Hold.
    { intros l' Hl'. eapply refs_bound; [exact Hrel| |done].
      intros ? ?. apply lookup_lt_Some. }
    do 4 exec.
    eexists. split; [op_ok|]. split.
    + exists (JsMap.set m (session_id evt) (length h)).
      unfold group_step. rewrite Hs. simpl.
      split_and!; try lkp.
      * apply refs_set_new with h; try done.
        -- intros l' v Hl' Hv. unfold events_at in *.
           pose proof (Hlo l' Hl'). pose proof (Hold l' Hl'). lkp.
        -- unfold events_at. lkp.
      * rewrite values_set_new by done. apply NoDup_app. split_and!.
        -- done.
        -- intros l' Hl' ->%list_elem_of_singleton.
           pose proof (Hold _ Hl'). lia.
        -- apply NoDup_singleton.
      * rewrite values_set_new by done. apply Forall_app. split.
        -- by apply Forall_forall.
        -- constructor; [lia|constructor].
    + eapply unchanged_trans; [apply unchanged_alloc; lia|].
      repeat (eapply unchanged_trans; [|apply unchanged_store; lia]).
      apply unchanged_refl.
Qed.

Lemma group_loop_ok (c : nat) (evts : list event) (h : heap)
    (sm : JsMap.t string (list event)) :
  inv2 c h sm ->
  exists h', for_of evts (group_body c) h = Some (tt, h') /\
             inv2 c h' (fold_left group_step evts sm) /\ unchanged c h h'.
Proof.
  apply (for_of_inv (inv2 c) group_step). intros. by apply group_body_ok.
Qed.

(** *** Pass 2 *)

Lemma Forall2_impl_elem {A B} (P Q : A -> B -> Prop) (l : list A)
    (k : list B) :
  Forall2 P l k -> (forall x y, x ∈ l -> P x y -> Q x y) -> Forall2 Q l k.
Proof.
  induction 1 as [|x y l k HP _ IH]; intros HPQ; constructor.
  - apply HPQ; [apply list_elem_of_here|done].
  - apply IH. intros x' y' Hx'. apply HPQ. by apply list_elem_of_further.
Qed.

Lemma lookup_session_metrics_at (a : list event) (i : nat) (cur : event) :
  a !! i = Some cur ->
  session_metrics a !! i = Some (Metric cur (duration_at a i cur)).
Proof.
  intros Hi. unfold session_metrics. rewrite list_lookup_imap, Hi. done.
Qed.

Lemma metric_loop_ok (l e : loc) (a : list event) :
  forall (n i : nat) (h : heap) (acc : list metric),
    (i + n = length a)%nat ->
    h !! l = Some (OEvents a) -> h !! e = Some (OMetrics acc) ->
    exists h',
      for_of (seq i n) (metric_body l e) h = Some (tt, h') /\
      h' !! e = Some (OMetrics (acc ++ drop i (session_metrics a))) /\
      (forall l', l' <> e -> h' !! l' = h !! l') /\
      length h' = length h.
Proof.
  induction n as [|n IH]; intros i h acc Hin Hl He.
  - exists h. split_and!; try done.
    rewrite drop_ge, app_nil_r; [done|].
    unfold session_metrics. rewrite length_imap. lia.
  - assert (is_Some (a !! i)) as [cur Hcur].
    { apply lookup_lt_is_Some. lia. }
    assert (l <> e) as Hle by (intros ->; congruence).
    set (acc' := acc ++ [Metric cur (duration_at a i cur)]).
    destruct (IH (S i) (<[e := OMetrics acc']> h) acc')
      as (h' & Hrun & He' & Hframe & Hlen); [lia|lkp|lkp|].
    subst acc'.
    exists h'. split_and!.
    + simpl. erewrite bind_Some; [exact Hrun|].
      unfold metric_body. exec. rewrite Hcur. exec. op_ok.
    + rewrite He'. rewrite <- app_assoc. simpl.
      by rewrite (drop_S _ _ _ (lookup_session_metrics_at _ _ _ Hcur)).
    + intros l' Hl'. rewrite Hframe by done.
      by apply list_lookup_insert_ne.
    + by rewrite Hlen, length_insert.
Qed.

Lemma pass2_body_ok (e l : loc) (a : list event) (h : heap)
    (acc : list metric) :
  h !! l = Some (OEvents a) -> h !! e = Some (OMetrics acc) ->
  exists h',
    pass2_body e l h = Some (tt, h') /\
    h' !! e = Some (OMetrics (pass2_step acc a)) /\
    (forall l', l' <> e -> l' <> l -> h' !! l' = h !! l') /\
    length h' = length h.
Proof.
  intros Hl He.
  assert (l <> e) as Hle by (intros ->; congruence).
  destruct (metric_loop_ok l e (js_sort by_created_ms a)
              (length (js_sort by_created_ms a)) 0
              (<[l := OEvents (js_sort by_created_ms a)]> h) acc)
    as (h' & Hrun & He' & Hframe & Hlen); [lia|lkp|lkp|].
  exists h'. split_and!.
  - unfold pass2_body. do 3 exec. exact Hrun.
  - by rewrite He'.
  - intros l' Hl1 Hl2. rewrite Hframe by done.
    by apply list_lookup_insert_ne.
  - by rewrite Hlen, length_insert.
Qed.

Lemma pass2_loop_ok (e : loc) :
  forall (locs : list loc) (arrs : list (list event)) (h : heap)
         (acc : list metric),
    Forall2 (events_at h) locs arrs -> NoDup locs ->
    h !! e = Some (OMetrics acc) ->
    exists h',
      for_of locs (pass2_body e) h = Some (tt, h') /\
      h' !! e = Some (OMetrics (fold_left pass2_step arrs acc)) /\
      (forall l', l' <> e -> l' ∉ locs -> h' !! l' = h !! l') /\
      length h' = length h.
Proof.
  induction locs as [|l locs IH]; intros arrs h acc Hrel Hnd He.
  - apply Forall2_nil_inv_l in Hrel as ->.
    exists h. by split_and!.
  - apply Forall2_cons_inv_l in Hrel as (a & arrs' & Hl & Hrel & ->).
    apply NoDup_cons in Hnd as [Hnotin Hnd].
    unfold events_at in Hl.
    destruct (pass2_body_ok e l a h acc Hl He)
      as (h1 & Hrun1 & He1 & Hframe1 & Hlen1).
    destruct (IH arrs' h1 (pass2_step acc a))
      as (h2 & Hrun2 & He2 & Hframe2 & Hlen2); [|done|done|].
    { eapply Forall2_impl_elem; [exact Hrel|].
      intros l' a' Hin Hl'. unfold events_at in *.
      rewrite Hframe1; [done| |].
      - intros ->. congruence.
      - intros ->. done. }
    exists h2. split_and!.
    + simpl. by rewrite (bind_Some _ _ _ _ _ Hrun1).
    + done.
    + intros l' Hl1 Hl2. rewrite Hframe2, Hframe1; try done.
      * intros ->. apply Hl2. apply list_elem_of_here.
      * intros Hin. apply Hl2. by apply list_elem_of_further.
    + congruence.
Qed.

(** *** The loop over [eventMetrics] *)

Lemma bind_bind {A B C} (m : M A) (f : A -> M B) (g : B -> M C) h :
  bind (bind m f) g h = bind m (fun x => bind (f x) g) h.
Proof. unfold bind. by destruct (m h) as [[a h']|]. Qed.

Lemma agg_or_new_old (p : loc) (k : jsval) (h : heap)
    (m : JsMap.t jsval loc) (l : loc) :
  h !! p = Some (OMapAgg m) -> JsMap.get m k = Some l ->
  agg_or_new p k h = Some (l, h).
Proof. intros Hp Hget. unfold agg_or_new. exec. by rewrite Hget. Qed.

Lemma agg_or_new_new (p : loc) (k : jsval) (h : heap)
    (m : JsMap.t jsval loc) :
  h !! p = Some (OMapAgg m) -> JsMap.get m k = None ->
  agg_or_new p k h
  = Some (S (length h), h ++ [OSet ∅; OAgg (AggObj 0 0 (length h) 0)]).
Proof.
  intros Hp Hget. unfold agg_or_new. exec. rewrite Hget. exec.
  unfold alloc. rewrite length_app, <- app_assoc. simpl.
  by replace (length h + 1)%nat with (S (length h)) by lia.
Qed.

Lemma unchanged_alloc2 n (h : heap) k :
  (n <= length h)%nat -> unchanged n h (h ++ k).
Proof.
  intros Hn. split; [rewrite length_app; lia|].
  intros l Hl. apply lookup_app_l. lia.
Qed.

Lemma agg_at_bound h l a : agg_at h l a -> (l < length h)%nat.
Proof. intros (s & _ & Hl & _). by eapply lookup_lt_Some. Qed.

Lemma pageAgg_body_run (spl p : nat) (spc : JsMap.t string Z)
    (evt : metric) (h h1 : heap) (m : JsMap.t jsval loc) (s : loc)
    (a : agg) :
  agg_or_new p (resource_id (current evt)) h = Some (S s, h1) ->
  h1 !! spl = Some (OMapNum spc) -> h1 !! p = Some (OMapAgg m) ->
  h1 !! S s = Some (OAgg (AggObj (agg_views a) (agg_durationSum a) s
                                 (agg_bounceHits a))) ->
  h1 !! s = Some (OSet (agg_uniqueVisitors a)) ->
  (spl < p)%nat -> (p < s)%nat ->
  exists h',
    pageAgg_body spl p evt h = Some (tt, h') /\
    h' !! spl = Some (OMapNum spc) /\
    h' !! p
    = Some (OMapAgg (JsMap.set m (resource_id (current evt)) (S s))) /\
    agg_at h' (S s) (agg_step spc a evt) /\
    (forall x, x <> s -> x <> S s -> x <> p -> h' !! x = h1 !! x) /\
    length h' = length h1.
Proof.
  intros Hnew Hspl Hp Hl Hs Hsp Hps.
  unfold pageAgg_body. rewrite (bind_Some _ _ _ _ _ Hnew).
  do 8 exec. unfold agg_at, agg_step. simpl.
  destruct (get_or_zero spc (session_id (current evt)) =? 1).
  - rewrite bind_bind. do 3 exec. eexists. split; [op_ok|].
    split_and!; try lkp.
    + exists s. split_and!; [done|lkp|lkp].
    + intros x ? ? ?. by rewrite !list_lookup_insert_ne.
    + by rewrite !length_insert.
  - do 2 exec. eexists. split; [op_ok|].
    split_and!; try lkp.
    + exists s. split_and!; [done|lkp|lkp].
    + intros x ? ? ?. by rewrite !list_lookup_insert_ne.
    + by rewrite !length_insert.
Qed.

Lemma pageAgg_step_agg_step (spc : JsMap.t string Z)
    (pa : JsMap.t jsval agg) (evt : metric) :
  pageAgg_step spc pa evt
  = JsMap.set pa (resource_id (current evt))
      (agg_step spc (default agg_zero
                       (JsMap.get pa (resource_id (current evt)))) evt).
Proof. done. Qed.

Lemma pageAgg_body_ok (spl p : nat) (spc : JsMap.t string Z) (evt : metric)
    (h : heap) (pa : JsMap.t jsval agg) :
  inv5 spl p spc h pa ->
  exists h', pageAgg_body spl p evt h = Some (tt, h') /\
             inv5 spl p spc h' (pageAgg_step spc pa evt) /\
             unchanged p h h'.
Proof.
  intros (Hspl & Hsp & m & Hp & Hrel & Hnd & Hlo).
  rewrite Forall_forall in Hlo. rewrite pageAgg_step_agg_step.
  destruct (JsMap.get m (resource_id (current evt))) as [l|] eqn:Hget.
  - destruct (refs_get_Some _ _ _ _ _ _ Hrel Hget)
      as (a & Ha & s & -> & Hl & Hs).
    pose proof (Hlo _ (get_elem_of_values _ _ _ Hget)) as Hbound.
    destruct (pageAgg_body_run spl p spc evt h h m s a)
      as (h' & Hrun & Hspl' & Hp' & Hat' & Hframe & Hlen);
      [by eapply agg_or_new_old|done|done|done|done|done|lia|].
    exists h'. split; [exact Hrun|]. split.
    + split; [done|]. split; [done|].
      exists (JsMap.set m (resource_id (current evt)) (S s)).
      split_and!; try done.
      * rewrite Ha. simpl.
        apply refs_set_old with h; try done.
        intros l' v Hin Hne (s' & -> & Hl1 & Hs1).
        pose proof (Hlo _ Hin).
        exists s'. split; [done|].
        rewrite !Hframe; [done| | | | | |]; try lia; congruence.
      * by rewrite set_get_same.
      * rewrite set_get_same by done. by apply Forall_forall.
    + split; [lia|]. intros x Hx. apply Hframe; lia.
  - pose proof (refs_get_None _ _ _ _ _ Hrel Hget) as Ha.
    pose proof (lookup_lt_Some _ _ _ Hp) as Hlenp.
    assert (forall l', l' ∈ JsMap.values m -> (l' < length h)%nat) as Hold.
    { intros l' Hl'.
      eapply refs_bound; [exact Hrel|apply agg_at_bound|done]. }
    destruct (pageAgg_body_run spl p spc evt h
                (h ++ [OSet ∅; OAgg (AggObj 0 0 (length h) 0)])
                m (length h) agg_zero)
      as (h' & Hrun & Hspl' & Hp' & Hat' & Hframe & Hlen);
      [by eapply agg_or_new_new|lkp|lkp|lkp|lkp|done|lia|].
    exists h'. split; [exact Hrun|]. split.
    + split; [done|]. split; [done|].
      exists (JsMap.set m (resource_id (current evt)) (S (length h))).
      split_and!; try done.
      * rewrite Ha. simpl.
        apply refs_set_new with h; try done.
        intros l' v Hin (s' & -> & Hl1 & Hs1).
        pose proof (Hlo _ Hin). pose proof (Hold _ Hin).
        pose proof (lookup_lt_Some _ _ _ Hs1).
        exists s'. split; [done|].
        rewrite !Hframe by lia. split; by apply lookup_alloc_old.
      * rewrite values_set_new by done. apply NoDup_app. split_and!.
        -- done.
        -- intros l' Hl' ->%list_elem_of_singleton.
           pose proof (Hold _ Hl'). lia.
        -- apply NoDup_singleton.
      * rewrite values_set_new by done. apply Forall_app. split.
        -- by apply Forall_forall.
        -- constructor; [lia|constructor].
    + split; [rewrite Hlen, length_app; lia|].
      intros x Hx. rewrite Hframe by lia. apply lookup_app_l. lia.
Qed.

Lemma pageAgg_loop_ok (spl p : nat) (spc : JsMap.t string Z)
    (ems : list metric) (h : heap) (pa : JsMap.t jsval agg) :
  inv5 spl p spc h pa ->
  exists h', for_of ems (pageAgg_body spl p) h = Some (tt, h') /\
             inv5 spl p spc h' (fold_left (pageAgg_step spc) ems pa) /\
             unchanged p h h'.
Proof.
  apply (for_of_inv (inv5 spl p spc) (pageAgg_step spc)).
  intros. by apply pageAgg_body_ok.
Qed.

(** *** The callback of [pages.map] *)

Lemma page_callback_ok (spl p : nat) (spc : JsMap.t string Z) (pg : page)
    (h : heap) (pa : JsMap.t jsval agg) :
  inv5 spl p spc h pa ->
  exists h', page_callback p pg h = Some (page_entry pa pg, h') /\
             inv5 spl p spc h' pa /\ unchanged (length h) h h'.
Proof.
  intros (Hspl & Hsp & m & Hp & Hrel & Hnd & Hlo).
  unfold page_callback, page_entry.
  destruct (JsMap.get m (p_id pg)) as [l|] eqn:Hget.
  - destruct (refs_get_Some _ _ _ _ _ _ Hrel Hget)
      as (a & Ha & s & -> & Hl & Hs).
    erewrite bind_Some; [|by eapply agg_or_new_old].
    do 2 exec. rewrite Ha. simpl.
    exists h. split; [done|]. split; [|apply unchanged_refl].
    split; [done|]. split; [done|]. by exists m.
  - pose proof (refs_get_None _ _ _ _ _ Hrel Hget) as Ha.
    erewrite bind_Some; [|by eapply agg_or_new_new].
    do 2 exec. rewrite Ha. simpl.
    eexists. split; [done|]. split; [|by apply unchanged_alloc2].
    split; [lkp|]. split; [done|]. exists m.
    split_and!; try done; try lkp.
    eapply refs_rel_mono; [|exact Hrel].
    intros l' v _ (s' & -> & Hl1 & Hs1). exists s'.
    split; [done|]. split; by apply lookup_alloc_old.
Qed.

Lemma pages_map_ok (spl p : nat) (spc : JsMap.t string Z)
    (pages : list page) (h : heap) (pa : JsMap.t jsval agg) :
  inv5 spl p spc h pa ->
  exists h', map_M (page_callback p) pages h
             = Some (map (page_entry pa) pages, h') /\
             inv5 spl p spc h' pa /\ unchanged (S p) h h'.
Proof.
  revert h. induction pages as [|pg pages IH]; intros h Hinv.
  - exists h. split_and!; [done|done|apply unchanged_refl].
  - destruct (page_callback_ok spl p spc pg h pa Hinv)
      as (h1 & Hrun1 & Hinv1 & Hu1).
    destruct (IH h1 Hinv1) as (h2 & Hrun2 & Hinv2 & Hu2).
    exists h2. split_and!; [|done|].
    + simpl. rewrite (bind_Some _ _ _ _ _ Hrun1).
      by rewrite (bind_Some _ _ _ _ _ Hrun2).
    + eapply unchanged_trans; [|exact Hu2].
      eapply unchanged_le; [|exact Hu1].
      destruct Hinv as (_ & _ & m & Hp & _).
      apply lookup_lt_Some in Hp. lia.
Qed.

(** *** The handler *)

Lemma alloc3 {A} (o1 o2 o3 : obj) (f : loc -> loc -> loc -> M A) (h : heap) :
  bind (alloc o1) (fun l1 => bind (alloc o2) (fun l2 =>
    bind (alloc o3) (fun l3 => f l1 l2 l3))) h
  = f (length h) (S (length h)) (S (S (length h))) (h ++ [o1; o2; o3]).
Proof.
  unfold bind, alloc. rewrite !length_app. simpl.
  replace (length h + 1)%nat with (S (length h)) by lia.
  replace (S (length h) + 1)%nat with (S (S (length h))) by lia.
  by rewrite <- !app_assoc.
Qed.

Lemma handle_request_ok (viewRows : list row) (pages : list page)
    (h : heap) :
  exists h',
    handle_request viewRows pages h
    = Some (reconstruct viewRows pages, h') /\
    unchanged (length h) h h'.
Proof.
  unfold handle_request. rewrite alloc3.
  set (b := length h).
  set (h0 := h ++ [OMapRef JsMap.empty; OMapNum JsMap.empty; OEvents []]).
  assert (inv1 b h0 pass1_init) as Hinv1.
  { exists []. subst h0 b. split_and!.
    - by rewrite list_lookup_middle.
    - rewrite lookup_app_r by lia.
      by replace (S (length h) - length h)%nat with 1%nat by lia.
    - rewrite lookup_app_r by lia.
      by replace (S (S (length h)) - length h)%nat with 2%nat by lia.
    - constructor.
    - constructor.
    - constructor. }
  destruct (pass1_loop_ok b viewRows h0 pass1_init Hinv1)
    as (h1 & Hrun1 & (m1 & Hb & Hb1 & Hb2 & _) & Hu1).
  rewrite (bind_Some _ _ _ _ _ Hrun1).
  fold (pass1 viewRows) in Hb1, Hb2.
  do 2 exec.
  set (c := length h1).
  assert (S (S b) < c)%nat as Hbc by (by eapply lookup_lt_Some).
  assert (inv2 c (h1 ++ [OMapRef JsMap.empty]) JsMap.empty) as Hinv2.
  { exists []. split_and!; [lkp|constructor|constructor|constructor]. }
  destruct (group_loop_ok c (events (pass1 viewRows)) _ _ Hinv2)
    as (h2 & Hrun2 & (m2 & Hc & Hrel2 & Hnd2 & Hlo2) & Hu2).
  rewrite (bind_Some _ _ _ _ _ Hrun2).
  fold (group_sessions (events (pass1 viewRows))) in Hrel2.
  do 2 exec.
  set (e := length h2).
  assert (c < e)%nat as Hce by (by eapply lookup_lt_Some).
  rewrite Forall_forall in Hlo2.
  destruct (pass2_loop_ok e (JsMap.values m2)
              (JsMap.values (group_sessions (events (pass1 viewRows))))
              (h2 ++ [OMetrics []]) [])
    as (h3 & Hrun3 & He3 & Hframe3 & Hlen3).
  { eapply Forall2_impl; [by eapply refs_values|].
    intros l a. apply lookup_alloc_old. }
  { done. }
  { lkp. }
  rewrite (bind_Some _ _ _ _ _ Hrun3).
  fold (pass2 (group_sessions (events (pass1 viewRows)))) in He3.
  fold (eventMetrics_of viewRows) in He3.
  assert (h3 !! S b = Some (OMapNum (sessionPageCounts (pass1 viewRows))))
    as Hspc3.
  { rewrite Hframe3.
    - apply lookup_alloc_old. destruct Hu2 as [_ Hu2].
      rewrite Hu2 by lia. by apply lookup_alloc_old.
    - subst e. lia.
    - intros Hin. apply Hlo2 in Hin. lia. }
  do 4 exec.
  set (ems := eventMetrics_of viewRows).
  set (spc := sessionPageCounts (pass1 viewRows)).
  set (h4 := h3 ++ [OSet (list_to_set
                             (map (fun x => visitor_id (current x)) ems))]).
  exec.
  set (p := length h4).
  assert (length h3 = S e) as Hlen3'.
  { rewrite Hlen3, length_app. simpl. subst e. lia. }
  assert (p = S (S e)) as Hp.
  { subst p h4. rewrite length_app. simpl. lia. }
  assert (inv5 (S b) p spc (h4 ++ [OMapAgg JsMap.empty]) JsMap.empty)
    as Hinv5.
  { split; [subst h4; lkp|]. split; [lia|].
    exists []. split_and!; [lkp|constructor|constructor|constructor]. }
  destruct (pageAgg_loop_ok (S b) p spc ems _ _ Hinv5)
    as (h5 & Hrun5 & Hinv5' & Hu5).
  rewrite (bind_Some _ _ _ _ _ Hrun5).
  fold (build_pageAgg spc ems) in Hinv5'.
  destruct (pages_map_ok (S b) p spc pages h5 _ Hinv5')
    as (h6 & Hrun6 & _ & Hu6).
  rewrite (bind_Some _ _ _ _ _ Hrun6).
  exists h6. split; [done|].
  assert (b <= c)%nat by lia.
  eapply unchanged_trans; [apply (unchanged_alloc2 b h); subst b; lia|].
  fold h0.
  eapply unchanged_trans; [exact Hu1|].
  eapply unchanged_trans;
    [apply (unchanged_alloc b h1 (OMapRef JsMap.empty)); lia|].
  eapply unchanged_trans; [eapply unchanged_le; [|exact Hu2]; lia|].
  eapply unchanged_trans;
    [apply (unchanged_alloc b h2 (OMetrics [])); lia|].
  apply (unchanged_trans b _ h3).
  { split; [rewrite Hlen3; lia|].
    intros l Hl. apply Hframe3; [subst e; lia|].
    intros Hin. apply Hlo2 in Hin. lia. }
  apply (unchanged_trans b _ h4); [apply (unchanged_alloc b h3); lia|].
  eapply unchanged_trans;
    [apply (unchanged_alloc b h4 (OMapAgg JsMap.empty)); lia|].
  eapply unchanged_trans; [eapply unchanged_le; [|exact Hu5]; lia|].
  eapply unchanged_le; [|exact Hu6]. lia.
Qed.

Lemma serve_ok (reqs : list (list row * list page)) (h : heap) :
  exists h',
    serve reqs h = Some (map (fun rq => reconstruct rq.1 rq.2) reqs, h') /\
    unchanged (length h) h h'.
Proof.
  revert h. induction reqs as [|[viewRows pages] reqs IH]; intros h.
  - exists h. split; [done|apply unchanged_refl].
  - destruct (handle_request_ok viewRows pages h) as (h1 & Hrun1 & Hu1).
    destruct (IH h1) as (h2 & Hrun2 & Hu2).
    exists h2. simpl. rewrite Hrun1, Hrun2. split; [done|].
    eapply unchanged_trans; [exact Hu1|].
    eapply unchanged_le; [|exact Hu2]. by destruct Hu1.
Qed.

(** ** Determinism *)

(** The loops themselves do go on from whatever the tables hold: run
    again on the tables that an invocation has left in the heap, the first
    loop sees every visitor as already known and counts on.  It is the
    allocation of new tables at the start of the handler that keeps two
    invocations apart. *)
Lemma stale_tables_would_leak :
  exists h1 h2 : heap,
    handle_request scenario_rows scenario_pages []
    = Some (reconstruct scenario_rows scenario_pages, h1) /\
    for_of scenario_rows (pass1_body 0%nat 1%nat 2%nat) h1 = Some (tt, h2) /\
    h1 !! 1%nat
    = Some (OMapNum (out_sessionPageCounts
                       (reconstruct scenario_rows scenario_pages))) /\
    h2 !! 1%nat
    <> Some (OMapNum (out_sessionPageCounts
                        (reconstruct scenario_rows scenario_pages))).
Proof.
  eexists. eexists. split_and!.
  - vm_compute. reflexivity.
  - vm_compute. reflexivity.
  - vm_compute. reflexivity.
  - vm_compute. discriminate.
Qed.

(** C8.  The handler, run on any heap, returns the reconstruction of the
    rows and the catalog it is given, and leaves every object that was in
    the heap before as it was: it reads no table of an earlier invocation
    and writes none.  So whatever requests a process has served before,
    two invocations on the same input, one after the other, return the
    same output in every field. *)
Theorem reconstruction_deterministic (viewRows : list row)
    (pages : list page) :
  (forall h : heap, exists h' : heap,
     handle_request viewRows pages h
     = Some (reconstruct viewRows pages, h') /\
     take (length h) h' = h) /\
  (forall (earlier : list (list row * list page)) (h : heap),
     exists (outs : list reconstruction) (first second : reconstruction)
            (h' : heap),
       serve (earlier ++ [(viewRows, pages); (viewRows, pages)]) h
       = Some (outs ++ [first; second], h') /\
       length outs = length earlier /\
       second = first /\
       first = reconstruct viewRows pages /\
       out_eventMetrics second = out_eventMetrics first /\
       out_sessionPageCounts second = out_sessionPageCounts first /\
       out_summary second = out_summary first /\
       out_pageDetails second = out_pageDetails first).
Proof.
  split.
  - intros h.
    destruct (handle_request_ok viewRows pages h) as (h' & Hrun & Hu).
    exists h'. split; [done|]. by apply unchanged_take.
  - intros earlier h.
    destruct (serve_ok (earlier ++ [(viewRows, pages); (viewRows, pages)]) h)
      as (h' & Hrun & _).
    rewrite map_app in Hrun. simpl in Hrun.
    eexists _, _, _, h'. split; [exact Hrun|].
    split_and!; try done. by rewrite length_map.
Qed.

(** ** MD5 test vectors (RFC 1321, section A.5) *)
Example md5_empty : Md5.hex "" = "d41d8cd98f00b204e9800998ecf8427e".
Proof. vm_compute. reflexivity. Qed.

Example md5_abc : Md5.hex "abc" = "900150983cd24fb0d6963f7d28e17f72".
Proof. vm_compute. reflexivity. Qed.

Example md5_fox :
  Md5.hex "The quick brown fox jumps over the lazy dog"
  = "9e107d9d372bb6826bd81d3542a419d6".
Proof. vm_compute. reflexivity. Qed.

Example md5_two_blocks :
  Md5.hex "Mozilla/5.0 (X11; Linux x86_64) AppleWebKit/537.36 (KHTML, like Gecko) Chrome/120.0 Safari/537.36"
  = "eec478709aaa58deb962cf3e48c742fd".
Proof. vm_compute. reflexivity. Qed.

(** * Further properties of the handler *)

#[local] Set Warnings "-clear-no-such-hyp".

(** ** Session ids *)

Lemma string_app_nil (s : string) : "" +:+ s = s.
Proof. done. Qed.

Lemma string_app_cons (c : ascii) (s1 s2 : string) :
  String c s1 +:+ s2 = String c (s1 +:+ s2).
Proof. done. Qed.

Lemma dash_free_app (s1 s2 : string) :
  dash_free (s1 +:+ s2) = dash_free s1 && dash_free s2.
Proof.
  induction s1 as [|c s1 IH]; [done|].
  rewrite string_app_cons. simpl. rewrite IH. by rewrite andb_assoc.
Qed.

Lemma dash_free_pretty_N_go (x : N) (s : string) :
  dash_free s = true -> dash_free (pretty_N_go x s) = true.
Proof.
  revert s. induction (N.lt_wf_0 x) as [x _ IH]; intros s Hs.
  destruct (decide (x = 0%N)) as [->|Hx].
  - by rewrite pretty_N_go_0.
  - rewrite pretty_N_go_step by lia. apply IH.
    + apply N.div_lt; lia.
    + simpl. rewrite Hs, andb_true_r.
      unfold pretty_N_char. by repeat case_match.
Qed.

Lemma dash_free_pretty (k : Z) : 0 <= k -> dash_free (pretty k) = true.
Proof.
  intros Hk. destruct k as [|p|p]; [done| |lia].
  unfold pretty, pretty_Z, pretty, pretty_positive, pretty, pretty_N.
  rewrite decide_False by done. by apply dash_free_pretty_N_go.
Qed.

Lemma split_at_last_dash (s1 s2 d1 d2 : string) :
  dash_free d1 = true -> dash_free d2 = true ->
  s1 +:+ "-" +:+ d1 = s2 +:+ "-" +:+ d2 -> s1 = s2 /\ d1 = d2.
Proof.
  intros Hd1 Hd2. revert s2.
  induction s1 as [|c s1 IH]; intros [|c' s2];
    rewrite ?string_app_nil, ?string_app_cons, ?string_app_nil; intros Heq.
  - by simplify_eq.
  - injection Heq as <- ->. rewrite dash_free_app in Hd1.
    simpl in Hd1. by rewrite andb_false_r in Hd1.
  - injection Heq as -> <-. rewrite dash_free_app in Hd2.
    simpl in Hd2. by rewrite andb_false_r in Hd2.
  - injection Heq as -> Heq. destruct (IH _ Heq) as [-> ->]. done.
Qed.

Lemma sessionId_of_inj_visitor (v1 v2 : string) (k1 k2 : Z) :
  0 <= k1 -> 0 <= k2 ->
  sessionId_of v1 k1 = sessionId_of v2 k2 -> v1 = v2 /\ k1 = k2.
Proof.
  intros Hk1 Hk2 Heq. unfold sessionId_of in Heq.
  apply split_at_last_dash in Heq as [-> Hp];
    [|by apply dash_free_pretty..].
  split; [done|]. by apply (inj pretty).
Qed.

Lemma spec_indices_from_ge (last : option Z) (idx : Z) (ts : list Z) :
  Forall (fun k => idx <= k) (spec_indices_from last idx ts).
Proof.
  revert last idx. induction ts as [|t ts IH]; intros last idx; simpl;
    [constructor|].
  set (idx' := match last with
               | Some l => if 1800000 <? t - l then idx + 1 else idx
               | None => idx + 1
               end).
  assert (idx <= idx') as Hle.
  { subst idx'. destruct last as [l|]; [|lia].
    destruct (1800000 <? t - l); lia. }
  constructor; [done|].
  eapply Forall_impl; [apply IH|]. simpl. lia.
Qed.

Lemma spec_session_indices_pos (ts : list Z) :
  Forall (fun k => 1 <= k) (spec_session_indices ts).
Proof.
  unfold spec_session_indices. destruct ts as [|t ts]; simpl; [constructor|].
  constructor; [lia|].
  eapply Forall_impl; [apply spec_indices_from_ge|]. simpl. lia.
Qed.

Lemma event_of_pass1 (rows : list row) (e : event) :
  e ∈ events (pass1 rows) ->
  exists r k, r ∈ rows /\ buildVisitorId r = visitor_id e /\ 1 <= k /\
    e = positioned (visitor_id e) r k.
Proof.
  intros He.
  assert (e ∈ filter (fun e' => visitor_id e' = visitor_id e)
                     (events (pass1 rows))) as Hin.
  { by apply list_elem_of_filter. }
  rewrite pass1_visitor in Hin.
  apply list_elem_of_lookup in Hin as [i Hi].
  apply lookup_positioned in Hi as (r & k & Hr & Hk & Heq).
  apply list_elem_of_lookup_2, list_elem_of_filter in Hr as [Hv Hr].
  exists r, k. split_and!; [done|done| |done].
  pose proof (spec_session_indices_pos
    (map al_created_at
       (filter (fun r => buildVisitorId r = visitor_id e) rows))) as Hpos.
  rewrite Forall_forall in Hpos. by eapply Hpos, list_elem_of_lookup_2.
Qed.

Lemma same_session_same_visitor (rows : list row) (e1 e2 : event) :
  e1 ∈ events (pass1 rows) -> e2 ∈ events (pass1 rows) ->
  session_id e1 = session_id e2 -> visitor_id e1 = visitor_id e2.
Proof.
  intros (r1 & k1 & _ & _ & Hk1 & Heq1)%event_of_pass1
         (r2 & k2 & _ & _ & Hk2 & Heq2)%event_of_pass1 Hs.
  rewrite Heq1, Heq2 in Hs. simpl in Hs.
  apply sessionId_of_inj_visitor in Hs as [? _]; [done|lia|lia].
Qed.

(** X1.  A session id belongs to one visitor: two events that pass 1 puts
    in the same session have the same visitor key, although the id is a
    plain concatenation of the key, a dash and the index and the key may
    itself contain dashes and digits.  More generally the id determines
    both the key and the index. *)
Theorem session_id_one_visitor (viewRows : list row) (e1 e2 : event) :
  e1 ∈ events (pass1 viewRows) -> e2 ∈ events (pass1 viewRows) ->
  session_id e1 = session_id e2 ->
  visitor_id e1 = visitor_id e2 /\
  (forall v1 v2 k1 k2, 0 <= k1 -> 0 <= k2 ->
     sessionId_of v1 k1 = sessionId_of v2 k2 -> v1 = v2 /\ k1 = k2).
Proof.
  intros He1 He2 Hs. split.
  - by apply (same_session_same_visitor viewRows).
  - apply sessionId_of_inj_visitor.
Qed.

Lemma session_id_one_visitor_witness :
  visitor_id (Event (JStr "p1") "u1" "u1-1" 0)
  = visitor_id (Event (JStr "p1") "u1" "u1-1" 100000).
Proof.
  apply (session_id_one_visitor scenario_rows
           (Event (JStr "p1") "u1" "u1-1" 0)
           (Event (JStr "p1") "u1" "u1-1" 100000)).
  - apply list_elem_of_here.
  - do 2 apply list_elem_of_further. apply list_elem_of_here.
  - reflexivity.
Defined.

(** ** Counting visitors, sessions and views *)

Lemma length_remove_dups_le {A} `{EqDecision A} (l : list A) :
  (length (remove_dups l) <= length l)%nat.
Proof.
  induction l as [|x l IH]; simpl; [done|].
  destruct (decide_rel elem_of x l); simpl; lia.
Qed.

(** If [h] is determined by [g] on a list, the list has no more values
    of [h] than of [g]. *)
Lemma length_remove_dups_factor {A B C} `{EqDecision B, EqDecision C}
    (g : A -> B) (h : A -> C) (l : list A) :
  (forall x y, x ∈ l -> y ∈ l -> g x = g y -> h x = h y) ->
  (length (remove_dups (map h l)) <= length (remove_dups (map g l)))%nat.
Proof.
  induction l as [|x l IH]; intros Hfac; [done|].
  assert (length (remove_dups (map h l))
          <= length (remove_dups (map g l)))%nat as IH'.
  { apply IH. intros y z Hy Hz. apply Hfac; by apply list_elem_of_further. }
  simpl.
  destruct (decide_rel elem_of (g x) (map g l)) as [Hg|Hg].
  - apply (list_elem_of_fmap_1 g) in Hg as (y & Hgy & Hy).
    destruct (decide_rel elem_of (h x) (map h l)) as [|Hh]; [done|].
    exfalso. apply Hh.
    rewrite (Hfac x y); [by apply (list_elem_of_fmap_2 h) | | |done].
    + apply list_elem_of_here.
    + by apply list_elem_of_further.
  - destruct (decide_rel elem_of (h x) (map h l)); simpl; lia.
Qed.

Lemma size_list_to_set_remove_dups (l : list string) :
  size (list_to_set l : gset string) = length (remove_dups l).
Proof.
  rewrite <- (size_list_to_set (C:=gset string) (remove_dups l))
    by apply NoDup_remove_dups.
  f_equal. apply set_eq. intros x.
  by rewrite !elem_of_list_to_set, elem_of_remove_dups.
Qed.

Lemma uniqueVisitors_distinct (rows : list row) :
  uniqueVisitors (eventMetrics_of rows)
  = Z.of_nat (length (remove_dups (map visitor_id (events (pass1 rows))))).
Proof.
  unfold uniqueVisitors. rewrite <- size_list_to_set_remove_dups.
  do 2 f_equal. apply list_to_set_perm_L.
  rewrite <- (map_map current visitor_id).
  unfold eventMetrics_of. by rewrite pass2_Permutation.
Qed.

(** X2.  There are no more unique visitors than sessions and no more
    sessions than page views, and the page views are the input rows. *)
Theorem visitors_sessions_views (viewRows : list row) (pages : list page) :
  let s := out_summary (reconstruct viewRows pages) in
  0 <= unique_visitors_total s /\
  unique_visitors_total s <= total_sessions s /\
  total_sessions s <= total_page_views s /\
  total_page_views s = Z.of_nat (length viewRows).
Proof.
  cbv zeta.
  change (unique_visitors_total (out_summary (reconstruct viewRows pages)))
    with (or_zero (uniqueVisitors (eventMetrics_of viewRows))).
  change (total_sessions (out_summary (reconstruct viewRows pages)))
    with (or_zero (totalSessions (sessionPageCounts (pass1 viewRows)))).
  change (total_page_views (out_summary (reconstruct viewRows pages)))
    with (or_zero (totalPageViews (eventMetrics_of viewRows))).
  rewrite !or_zero_id, uniqueVisitors_distinct.
  rewrite (totalSessions_distinct _ _ (counts_of_pass1 viewRows)).
  unfold totalPageViews. rewrite length_eventMetrics.
  pose proof (length_remove_dups_factor session_id visitor_id
                (events (pass1 viewRows))
                (same_session_same_visitor viewRows)) as Hvs.
  pose proof (length_remove_dups_le
                (map session_id (events (pass1 viewRows)))) as Hsv.
  rewrite length_map in Hsv. unfold pass1 in Hsv at 2.
  rewrite length_events_pass1_from in Hsv. simpl in Hsv.
  split_and!; [lia|lia|lia|done].
Qed.

Lemma sum_values_set (m : JsMap.t string Z) (k : string) :
  sum_list (JsMap.values (JsMap.set m k (get_or_zero m k + 1)))
  = sum_list (JsMap.values m) + 1.
Proof.
  unfold get_or_zero. induction m as [|[k0 c0] m IH]; [done|]. simpl.
  case_decide as Hk; simpl.
  - rewrite or_zero_id. lia.
  - rewrite IH. lia.
Qed.

Lemma values_set_nonzero (m : JsMap.t string Z) (k : string) :
  Forall (fun c => 1 <= c) (JsMap.values m) ->
  Forall (fun c => 1 <= c)
         (JsMap.values (JsMap.set m k (get_or_zero m k + 1))).
Proof.
  unfold get_or_zero. induction m as [|[k0 c0] m IH]; intros Hpos.
  - simpl. constructor; [done|constructor].
  - change (JsMap.values ((k0, c0) :: m)) with (c0 :: JsMap.values m) in Hpos.
    apply Forall_cons in Hpos as [Hc0 Hpos]. simpl.
    case_decide as Hk; simpl.
    + rewrite or_zero_id. constructor; [lia|done].
    + constructor; [done|by apply IH].
Qed.

Lemma page_counts_pass1_from (st : pass1_state) (rows : list row) :
  Forall (fun c => 1 <= c) (JsMap.values (sessionPageCounts st)) ->
  Forall (fun c => 1 <= c)
         (JsMap.values (sessionPageCounts (pass1_from st rows))) /\
  sum_list (JsMap.values (sessionPageCounts (pass1_from st rows)))
  = sum_list (JsMap.values (sessionPageCounts st)) + Z.of_nat (length rows).
Proof.
  revert st. induction rows as [|r rows IH]; intros st Hpos.
  - split; [done|simpl; lia].
  - rewrite pass1_from_cons.
    destruct (IH (pass1_step st r)) as [Hpos' Hsum].
    { simpl. by apply values_set_nonzero. }
    split; [done|]. rewrite Hsum. simpl. rewrite sum_values_set. lia.
Qed.

(** X3.  The session page counts add up to the number of input rows, and
    no session is counted with fewer than one page. *)
Theorem page_counts_conservation (viewRows : list row) (pages : list page) :
  let spc := out_sessionPageCounts (reconstruct viewRows pages) in
  sum_list (JsMap.values spc) = Z.of_nat (length viewRows) /\
  Forall (fun c => 1 <= c) (JsMap.values spc) /\
  NoDup (JsMap.keys spc).
Proof.
  cbv zeta.
  change (out_sessionPageCounts (reconstruct viewRows pages))
    with (sessionPageCounts (pass1 viewRows)).
  destruct (page_counts_pass1_from pass1_init viewRows) as [Hpos Hsum];
    [constructor|].
  split_and!; [exact Hsum|done|].
  apply (counts_of_pass1 viewRows).
Qed.

(** ** Sessions are runs without a long gap *)

Lemma chain_cons {A} (R : A -> A -> Prop) (x : A) (l : list A) :
  chain R (x :: l) <-> (forall y, head l = Some y -> R x y) /\ chain R l.
Proof.
  destruct l as [|y l]; simpl.
  - split; [intros _; split; [done|done] | done].
  - split.
    + intros [Hxy Hl]. split; [by intros ? [= <-] | done].
    + intros [Hxy Hl]. split; [by apply Hxy | done].
Qed.

Lemma chain_lookup {A} (R : A -> A -> Prop) (l : list A) (i : nat) (a b : A) :
  chain R l -> l !! i = Some a -> l !! S i = Some b -> R a b.
Proof.
  revert i. induction l as [|x l IH]; intros i Hl; [done|].
  apply chain_cons in Hl as [Hx Hl]. destruct i as [|i]; simpl.
  - intros [= ->] Hb. apply Hx. by rewrite head_lookup.
  - by apply IH.
Qed.

Lemma chain_impl {A} (R1 R2 : A -> A -> Prop) (l : list A) :
  (forall a b, a ∈ l -> b ∈ l -> R1 a b -> R2 a b) ->
  chain R1 l -> chain R2 l.
Proof.
  induction l as [|x l IH]; intros Himp; [done|].
  rewrite !chain_cons. intros [Hx Hl]. split.
  - intros y Hy. apply Himp; [apply list_elem_of_here| |by apply Hx].
    apply list_elem_of_further. rewrite head_lookup in Hy.
    by eapply list_elem_of_lookup_2.
  - apply IH; [|done]. intros a b Ha Hb.
    apply Himp; by apply list_elem_of_further.
Qed.

Lemma filter_filter_on {A} (P Q : A -> Prop)
    `{forall x, Decision (P x), forall x, Decision (Q x)} (l : list A) :
  (forall x, x ∈ l -> P x -> Q x) -> filter P (filter Q l) = filter P l.
Proof.
  induction l as [|x l IH]; intros Himp; [done|].
  assert (filter P (filter Q l) = filter P l) as IH'.
  { apply IH. intros y Hy. by apply Himp, list_elem_of_further. }
  rewrite (filter_cons Q). destruct (decide (Q x)) as [Hq|Hq].
  - rewrite !filter_cons. by rewrite IH'.
  - rewrite IH', filter_cons_False; [done|].
    intros Hp. by apply Hq, Himp; [apply list_elem_of_here|].
Qed.

Lemma run_of_cons v k0 last idx r rs :
  0 <= idx -> 0 <= k0 ->
  let idx' := match last with
              | Some l => if 1800000 <? al_created_at r - l
                          then idx + 1 else idx
              | None => idx + 1
              end in
  run_of v k0 last idx (r :: rs)
  = (if decide (idx' = k0) then [positioned v r idx'] else [])
    ++ run_of v k0 (Some (al_created_at r)) idx' rs.
Proof.
  intros Hidx Hk0 idx'. unfold run_of. simpl. fold idx'.
  assert (0 <= idx') as Hidx'.
  { subst idx'. destruct last as [l|]; [|lia].
    destruct (1800000 <? al_created_at r - l); lia. }
  rewrite filter_cons. simpl.
  destruct (decide (idx' = k0)) as [->|Hne].
  - by rewrite decide_True.
  - rewrite decide_False; [done|].
    intros Heq. by apply sessionId_of_inj_visitor in Heq as [_ ?].
Qed.

Lemma run_of_facts v k0 last idx rs :
  0 <= idx -> 0 <= k0 ->
  chain (fun a b => created_ms b - created_ms a <= 1800000)
        (run_of v k0 last idx rs) /\
  (k0 < idx -> run_of v k0 last idx rs = []) /\
  (forall l e, last = Some l -> idx = k0 ->
     head (run_of v k0 last idx rs) = Some e ->
     created_ms e - l <= 1800000).
Proof.
  intros Hidx Hk0. revert last idx Hidx.
  induction rs as [|r rs IH]; intros last idx Hidx.
  { split_and!; done. }
  pose proof (run_of_cons v k0 last idx r rs Hidx Hk0) as Hcons.
  cbv zeta in Hcons. rewrite Hcons. clear Hcons.
  set (idx' := match last with
               | Some l => if 1800000 <? al_created_at r - l
                           then idx + 1 else idx
               | None => idx + 1
               end).
  assert (idx <= idx' <= idx + 1) as Hidx'.
  { subst idx'. destruct last as [l|]; [|lia].
    destruct (1800000 <? al_created_at r - l); lia. }
  destruct (IH (Some (al_created_at r)) idx' ltac:(lia))
    as (Hchain & Hempty & Hhead).
  split_and!.
  - destruct (decide (idx' = k0)) as [Heq|Hne]; [|done]. cbn [app].
    apply chain_cons. split; [|done].
    intros e He. by apply (Hhead (al_created_at r) e).
  - intros Hlt. rewrite decide_False by lia. cbn [app]. apply Hempty. lia.
  - intros l e -> -> He. subst idx'.
    destruct (Z.ltb_spec 1800000 (al_created_at r - l)) as [Hgap|Hgap].
    + rewrite decide_False in He by lia. cbn [app] in He.
      rewrite Hempty in He by lia. done.
    + rewrite decide_True in He by done. cbn [app head] in He.
      injection He as <-. done.
Qed.

Lemma session_is_run (rows : list row) (e0 : event) :
  e0 ∈ events (pass1 rows) ->
  exists k0, 1 <= k0 /\
    session_id e0 = sessionId_of (visitor_id e0) k0 /\
    filter (fun e => session_id e = session_id e0) (events (pass1 rows))
    = run_of (visitor_id e0) k0 None 0
        (filter (fun r => buildVisitorId r = visitor_id e0) rows).
Proof.
  intros He0.
  destruct (event_of_pass1 rows e0 He0) as (r0 & k0 & _ & _ & Hk0 & Heq0).
  exists k0. split; [done|].
  assert (session_id e0 = sessionId_of (visitor_id e0) k0) as Hs.
  { by rewrite Heq0 at 1. }
  split; [done|].
  rewrite <- (filter_filter_on _ (fun e => visitor_id e = visitor_id e0)).
  - rewrite pass1_visitor, Hs. done.
  - intros e He Hse. by apply (same_session_same_visitor rows).
Qed.

Lemma session_chain (rows : list row) (s : string) :
  chain (fun a b => created_ms b - created_ms a <= 1800000)
        (filter (fun e => session_id e = s) (events (pass1 rows))).
Proof.
  destruct (filter (fun e => session_id e = s) (events (pass1 rows)))
    as [|e0 l] eqn:Hf; [done|].
  assert (e0 ∈ filter (fun e => session_id e = s) (events (pass1 rows)))
    as [Hs He0]%list_elem_of_filter.
  { rewrite Hf. apply list_elem_of_here. }
  destruct (session_is_run rows e0 He0) as (k0 & Hk0 & _ & Hrun).
  rewrite <- Hf, <- Hs, Hrun. apply run_of_facts; lia.
Qed.

(** X4.  Whatever the order of the input, the events of one session,
    taken in input order, never lie more than 1800000 ms after their
    predecessor in the session (a row that is earlier than its predecessor
    stays in the session). *)
Theorem session_gaps_bounded (viewRows : list row) (s : string) :
  let session :=
    filter (fun e => session_id e = s) (events (pass1 viewRows)) in
  chain (fun a b => created_ms b - created_ms a <= 1800000) session /\
  (forall i a b, session !! i = Some a -> session !! S i = Some b ->
     created_ms b - created_ms a <= 1800000).
Proof.
  intros session. split; [apply session_chain|].
  intros i a b Ha Hb.
  apply (chain_lookup _ _ _ _ _ (session_chain viewRows s) Ha Hb).
Qed.

Lemma session_gaps_bounded_witness :
  2100000 - 2000000 <= 1800000.
Proof.
  apply (proj2 (session_gaps_bounded scenario_rows "u1-2") 0%nat
           (Event (JStr "p1") "u1" "u1-2" 2000000)
           (Event (JStr "p1") "u1" "u1-2" 2100000) eq_refl eq_refl).
Defined.

(** ** Input in time order *)

Lemma created_pass1_from (st : pass1_state) (rows : list row) :
  map created_ms (events (pass1_from st rows))
  = map created_ms (events st) ++ map al_created_at rows.
Proof.
  revert st. induction rows as [|r rows IH]; intros st; simpl.
  - by rewrite app_nil_r.
  - rewrite IH. simpl. rewrite map_app. simpl. by rewrite <- app_assoc.
Qed.

Lemma StronglySorted_map_inv {A} (f : A -> Z) (l : list A) :
  StronglySorted Z.le (map f l) ->
  StronglySorted (fun a b => f a <= f b) l.
Proof.
  induction l as [|x l IH]; simpl; intros Hs; [constructor|].
  apply StronglySorted_inv in Hs as [Hl Hx].
  constructor; [by apply IH|].
  by apply (Forall_fmap f (Z.le (f x))) in Hx.
Qed.

Lemma StronglySorted_map_le {A} (f : A -> Z) (l : list A) :
  StronglySorted (fun a b => f a <= f b) l ->
  StronglySorted Z.le (map f l).
Proof.
  induction 1 as [|x l _ IH Hx]; simpl; constructor; [done|].
  by apply (Forall_fmap f (Z.le (f x))).
Qed.

Lemma StronglySorted_filter {A} (R : relation A) (P : A -> Prop)
    `{forall x, Decision (P x)} (l : list A) :
  StronglySorted R l -> StronglySorted R (filter P l).
Proof.
  induction 1 as [|x l _ IH Hx]; [constructor|].
  rewrite filter_cons. destruct (decide (P x)); [|done].
  constructor; [done|].
  apply Forall_forall. intros y [_ Hy]%list_elem_of_filter.
  rewrite Forall_forall in Hx. by apply Hx.
Qed.

Lemma StronglySorted_impl {A} (R1 R2 : relation A) (l : list A) :
  (forall a b, R1 a b -> R2 a b) ->
  StronglySorted R1 l -> StronglySorted R2 l.
Proof.
  intros Himp. induction 1 as [|x l _ IH Hx]; constructor; [done|].
  eapply Forall_impl; [exact Hx|]. apply Himp.
Qed.

Lemma chain_and_sorted {A} (R1 R2 : A -> A -> Prop) (l : list A) :
  chain R1 l -> StronglySorted R2 l ->
  chain (fun a b => R2 a b /\ R1 a b) l.
Proof.
  induction l as [|x l IH]; [done|].
  rewrite !chain_cons. intros [Hx Hl] Hs.
  apply StronglySorted_inv in Hs as [Hs Hx2]. split; [|by apply IH].
  intros y Hy. split; [|by apply Hx].
  rewrite Forall_forall in Hx2. apply Hx2.
  rewrite head_lookup in Hy. by eapply list_elem_of_lookup_2.
Qed.

Lemma events_time_ordered (rows : list row) :
  time_ordered rows ->
  StronglySorted (fun a b => created_ms a <= created_ms b)
                 (events (pass1 rows)).
Proof.
  intros Hrows. apply StronglySorted_map_inv.
  unfold pass1. rewrite created_pass1_from. simpl.
  by apply StronglySorted_map_le.
Qed.

(** X5.  When the rows come in ascending time order, as the query
    returns them, the re-sort of pass 2 changes nothing: the metrics of a
    session are its events in input order, consecutive events of a session
    lie between 0 and 1800000 ms apart, and the duration of an event with
    a successor is [max(1, round(gap / 1000))], the cap of 1800 never
    cutting anything off. *)
Theorem time_ordered_sessions (viewRows : list row) (s : string) :
  time_ordered viewRows ->
  let session :=
    filter (fun e => session_id e = s) (events (pass1 viewRows)) in
  let ms := filter (fun x => session_id (current x) = s)
                   (eventMetrics_of viewRows) in
  js_sort by_created_ms session = session /\
  map current ms = session /\
  chain (fun a b => 0 <= created_ms b - created_ms a <= 1800000) session /\
  (forall i x next, ms !! i = Some x -> session !! S i = Some next ->
     duration_seconds x
     = Z.max 1 (Math_round
                  (inject_Z (created_ms next - created_ms (current x)) / 1000)))
  /\
  (forall i x, ms !! i = Some x -> session !! S i = None ->
     duration_seconds x = 30).
Proof.
  intros Hrows session ms.
  assert (StronglySorted (fun a b => created_ms a <= created_ms b) session)
    as Hsorted.
  { apply StronglySorted_filter. by apply events_time_ordered. }
  assert (js_sort by_created_ms session = session) as Hid.
  { apply js_sort_in_order.
    eapply StronglySorted_impl; [|exact Hsorted].
    unfold by_created_ms. intros a b. simpl. lia. }
  assert (ms = session_metrics session) as Hms.
  { subst ms. unfold eventMetrics_of. rewrite pass2_session.
    unfold metrics_of_group. fold session. by rewrite Hid. }
  assert (chain (fun a b => 0 <= created_ms b - created_ms a <= 1800000)
                session) as Hchain.
  { eapply chain_impl;
      [|exact (chain_and_sorted _ _ _ (session_chain viewRows s)
                 Hsorted)].
    simpl. intros a b _ _. lia. }
  clearbody ms session. subst ms. split_and!; [done| |done| |].
  - apply current_session_metrics.
  - intros i x next Hx Hnext. rewrite lookup_session_metrics in Hx.
    destruct (session !! i) as [cur|] eqn:Hcur; [|done].
    injection Hx as <-. simpl. unfold duration_at.
    replace (i + 1)%nat with (S i) by lia. rewrite Hnext.
    pose proof (chain_lookup _ _ _ _ _ Hchain Hcur Hnext) as Hgap.
    simpl in Hgap. rewrite Math_round_div_1000.
    assert ((created_ms next - created_ms cur + 500) / 1000 < 1801).
    { apply Z.div_lt_upper_bound; lia. }
    lia.
  - intros i x Hx Hnone. rewrite lookup_session_metrics in Hx.
    destruct (session !! i) as [cur|] eqn:Hcur; [|done].
    injection Hx as <-. simpl. unfold duration_at.
    replace (i + 1)%nat with (S i) by lia. by rewrite Hnone.
Qed.

Lemma scenario_rows_time_ordered : time_ordered scenario_rows.
Proof.
  unfold time_ordered, scenario_rows.
  repeat (constructor; [|repeat (constructor; [simpl; lia|]); constructor]).
  constructor.
Defined.

Lemma time_ordered_sessions_witness :
  js_sort by_created_ms
    (filter (fun e => session_id e = "u1-1") (events (pass1 scenario_rows)))
  = filter (fun e => session_id e = "u1-1") (events (pass1 scenario_rows)).
Proof.
  apply (time_ordered_sessions scenario_rows "u1-1"
           scenario_rows_time_ordered).
Defined.

(** ** Ratios *)

Lemma js_div_bounds (a b lo hi : Z) :
  0 < b -> lo * b <= a <= hi * b ->
  (inject_Z lo <= js_div a b <= inject_Z hi)%Q.
Proof.
  intros Hb [Hlo Hhi].
  assert (0 < inject_Z b)%Q as HbQ.
  { change 0%Q with (inject_Z 0). by rewrite <- Zlt_Qlt. }
  rewrite js_div_correct. split.
  - apply Qle_shift_div_l; [done|].
    rewrite <- inject_Z_mult. by rewrite <- Zle_Qle.
  - apply Qle_shift_div_r; [done|].
    rewrite <- inject_Z_mult. by rewrite <- Zle_Qle.
Qed.

Lemma sum_durations_bounds (ms : list metric) :
  Forall (fun x => 1 <= duration_seconds x <= 1800) ms ->
  Z.of_nat (length ms) <= sum_durations ms <= 1800 * Z.of_nat (length ms).
Proof.
  unfold sum_durations. induction 1 as [|x ms Hx _ IH]; simpl; lia.
Qed.

Lemma singlePageSessions_le (spc : JsMap.t string Z) :
  0 <= singlePageSessions spc <= totalSessions spc.
Proof.
  unfold singlePageSessions, totalSessions, JsMap.size.
  pose proof (length_filter (fun count => count = 1) (JsMap.values spc)) as H.
  unfold JsMap.values in *. rewrite length_map in H. lia.
Qed.

Lemma bounceRatio_range (spc : JsMap.t string Z) :
  (0 <= bounceRatio spc <= 1)%Q.
Proof.
  unfold bounceRatio. pose proof (singlePageSessions_le spc).
  destruct (Z.ltb_spec 0 (totalSessions spc)); [|done].
  apply (js_div_bounds _ _ 0 1); lia.
Qed.

Lemma avgDurationSeconds_range (ms : list metric) :
  Forall (fun x => 1 <= duration_seconds x <= 1800) ms -> ms <> [] ->
  (1 <= avgDurationSeconds ms <= 1800)%Q.
Proof.
  intros Hms Hne. unfold avgDurationSeconds, totalPageViews.
  pose proof (sum_durations_bounds ms Hms).
  destruct ms as [|x ms]; [done|].
  destruct (Z.ltb_spec 0 (Z.of_nat (length (x :: ms)))) as [Hlt|Hge];
    [|simpl in Hge; lia].
  rewrite durationTotal_sum. apply (js_div_bounds _ _ 1 1800); lia.
Qed.

Lemma summary_bounce_range (rows : list row) (pages : list page) :
  (0 <= bounce_ratio (out_summary (reconstruct rows pages)) <= 1)%Q.
Proof.
  change (bounce_ratio (out_summary (reconstruct rows pages)))
    with (or_zeroQ (bounceRatio (sessionPageCounts (pass1 rows)))).
  rewrite or_zeroQ_bounce. apply bounceRatio_range.
Qed.

Lemma summary_avg_range (rows : list row) (pages : list page) :
  rows <> [] ->
  (1 <= avg_duration_seconds (out_summary (reconstruct rows pages))
   <= 1800)%Q.
Proof.
  intros Hne.
  change (avg_duration_seconds (out_summary (reconstruct rows pages)))
    with (or_zeroQ (avgDurationSeconds (eventMetrics_of rows))).
  rewrite or_zeroQ_avg.
  apply avgDurationSeconds_range; [apply pass2_range|].
  intros Hnil. apply Hne.
  pose proof (length_eventMetrics rows) as Hlen.
  rewrite Hnil in Hlen. by destruct rows.
Qed.

(** X6.  The bounce ratio lies between 0 and 1, and for a non-empty input
    the average duration lies between 1 and 1800 seconds. *)
Theorem ratios_in_range (viewRows : list row) (pages : list page) :
  let s := out_summary (reconstruct viewRows pages) in
  (0 <= bounce_ratio s <= 1)%Q /\
  (viewRows <> [] -> (1 <= avg_duration_seconds s <= 1800)%Q).
Proof.
  split; [apply summary_bounce_range|apply summary_avg_range].
Qed.

Lemma ratios_in_range_witness :
  (1 <= avg_duration_seconds
          (out_summary (reconstruct scenario_rows scenario_pages))
   <= 1800)%Q.
Proof.
  apply (proj2 (ratios_in_range scenario_rows scenario_pages)).
  discriminate.
Defined.

(** ** The formatted average *)

Lemma Qfloor_unique (q : Q) (z : Z) :
  (inject_Z z <= q)%Q -> (q < inject_Z (z + 1))%Q -> Qfloor q = z.
Proof.
  intros Hle Hlt.
  pose proof (Qfloor_resp_le _ _ Hle) as H1. rewrite Qfloor_Z in H1.
  assert (Qfloor q < z + 1); [|lia].
  rewrite Zlt_Qlt. eapply Qle_lt_trans; [apply Qfloor_le|done].
Qed.

Lemma Qfloor_minus_Z (q : Q) (k : Z) :
  Qfloor (q - inject_Z k) = Qfloor q - k.
Proof.
  apply Qfloor_unique.
  - rewrite <- (Z.add_opp_r (Qfloor q)), inject_Z_plus, inject_Z_opp.
    apply Qplus_le_compat; [apply Qfloor_le|apply Qle_refl].
  - replace (Qfloor q - k + 1) with ((Qfloor q + 1) + - k) by lia.
    rewrite inject_Z_plus, inject_Z_opp.
    apply Qplus_lt_le_compat; [apply Qlt_floor|apply Qle_refl].
Qed.

Lemma Qfloor_div_60 (q : Q) : Qfloor (q / 60) = Qfloor q / 60.
Proof.
  pose proof (Z.div_mod (Qfloor q) 60 ltac:(lia)) as Hdm.
  pose proof (Z.mod_pos_bound (Qfloor q) 60 ltac:(lia)) as Hmod.
  apply Qfloor_unique.
  - apply Qle_shift_div_l; [done|].
    eapply Qle_trans; [|apply Qfloor_le].
    change 60%Q with (inject_Z 60). rewrite <- inject_Z_mult, <- Zle_Qle. lia.
  - apply Qlt_shift_div_r; [done|].
    eapply Qlt_le_trans; [apply Qlt_floor|].
    change 60%Q with (inject_Z 60). rewrite <- inject_Z_mult, <- Zle_Qle. lia.
Qed.

Lemma Qfloor_rem_60 (q : Q) :
  (0 < q)%Q -> Qfloor (js_rem q 60) = Qfloor q mod 60.
Proof.
  intros Hq. unfold js_rem, Qtrunc.
  assert (Qle_bool 0 (q / 60) = true) as ->.
  { apply Qle_bool_iff, Qle_shift_div_l; [done|].
    rewrite Qmult_0_l. by apply Qlt_le_weak. }
  rewrite Qfloor_div_60.
  assert (60 * inject_Z (Qfloor q / 60) == inject_Z (60 * (Qfloor q / 60)))%Q
    as -> by (by rewrite inject_Z_mult).
  rewrite Qfloor_minus_Z, Z.mod_eq by lia. done.
Qed.

Lemma padStart_two_digits (n : Z) :
  0 <= n < 100 -> padStart 2 "0" (pretty n) = two_digits n.
Proof.
  intros Hn. rewrite <- (Z2Nat.id n) by lia.
  assert (Z.to_nat n < 100)%nat as Hlt by lia.
  generalize dependent (Z.to_nat n). clear n Hn. intros k Hk.
  do 100 (destruct k as [|k]; [vm_compute; reflexivity|]). lia.
Qed.

Lemma formatAverageTime_pos (q : Q) :
  (0 < q)%Q ->
  formatAverageTime q
  = pretty (Qfloor q / 60) +:+ ":" +:+ two_digits (Qfloor q mod 60).
Proof.
  intros Hq. unfold formatAverageTime.
  assert (Qeq_bool q 0 = false) as ->.
  { destruct (Qeq_bool q 0) eqn:E; [|done].
    apply Qeq_bool_iff in E. rewrite E in Hq. by apply Qlt_irrefl in Hq. }
  assert (Qle_bool q 0 = false) as ->.
  { destruct (Qle_bool q 0) eqn:E; [|done].
    apply Qle_bool_iff in E. by apply Qle_not_lt in E. }
  cbn [orb]. rewrite Qfloor_div_60, Qfloor_rem_60 by done.
  rewrite padStart_two_digits; [done|].
  pose proof (Z.mod_pos_bound (Qfloor q) 60 ltac:(lia)). lia.
Qed.

(** X7.  [formatAverageTime] writes a positive number of seconds as whole
    minutes, a colon and the remaining whole seconds on exactly two
    digits, the fraction of a second dropped; everything that is not
    positive is written ["0:00"]. *)
Theorem formatAverageTime_spec (seconds : Q) :
  ((seconds <= 0)%Q -> formatAverageTime seconds = "0:00") /\
  ((0 < seconds)%Q ->
     exists m ss : Z,
       0 <= m /\ 0 <= ss < 60 /\ 60 * m + ss = Qfloor seconds /\
       formatAverageTime seconds = pretty m +:+ ":" +:+ two_digits ss /\
       String.length (two_digits ss) = 2%nat).
Proof.
  split.
  - intros Hle. unfold formatAverageTime.
    apply Qle_bool_iff in Hle. rewrite Hle. by rewrite orb_true_r.
  - intros Hpos. exists (Qfloor seconds / 60), (Qfloor seconds mod 60).
    pose proof (Z.div_mod (Qfloor seconds) 60 ltac:(lia)).
    pose proof (Z.mod_pos_bound (Qfloor seconds) 60 ltac:(lia)).
    assert (0 <= Qfloor seconds).
    { rewrite <- (Qfloor_Z 0). by apply Qfloor_resp_le, Qlt_le_weak. }
    split_and!; [by apply Z.div_pos|lia|lia|lia| |done].
    by apply formatAverageTime_pos.
Qed.

Lemma formatAverageTime_spec_witness :
  formatAverageTime 0 = "0:00".
Proof. apply (proj1 (formatAverageTime_spec 0)). discriminate. Defined.

Lemma Math_round_percent (q : Q) :
  (0 <= q <= 1)%Q -> 0 <= Math_round (q * 100) <= 100.
Proof.
  intros [Hlo Hhi]. unfold Math_round. split.
  - change 0 with (Qfloor (1 # 2)). apply Qfloor_resp_le.
    rewrite <- (Qplus_0_l (1 # 2)) at 1.
    apply Qplus_le_compat; [|apply Qle_refl].
    rewrite <- (Qmult_0_l 100). by apply Qmult_le_compat_r.
  - change 100 with (Qfloor (1 * 100 + (1 # 2))) at 2. apply Qfloor_resp_le.
    apply Qplus_le_compat; [|apply Qle_refl].
    by apply Qmult_le_compat_r.
Qed.

(** X8.  In the [metrics] of the response the bounce rate is a whole
    percentage between 0 and 100; for an empty input the average time is
    ["0:00"] and the rate 0; for a non-empty input the average time reads
    [m:ss] with at most 30 minutes, the seconds on two digits, and
    denotes the average duration rounded down to whole seconds. *)
Theorem response_metrics_shape (viewRows : list row) (pages : list page) :
  let es := out_summary (reconstruct viewRows pages) in
  let m := metrics_of es in
  0 <= bounceRate m <= 100 /\
  totalVisits m = total_sessions es /\
  metrics_uniqueVisitors m = unique_visitors_total es /\
  pageViews m = Z.of_nat (length viewRows) /\
  (viewRows = [] -> avgTimeOnPage m = "0:00" /\ bounceRate m = 0) /\
  (viewRows <> [] ->
     exists mm ss : Z,
       0 <= mm <= 30 /\ 0 <= ss < 60 /\
       60 * mm + ss = Qfloor (avg_duration_seconds es) /\
       avgTimeOnPage m = pretty mm +:+ ":" +:+ two_digits ss).
Proof.
  intros es m.
  pose proof (summary_bounce_range viewRows pages) as Hb.
  pose proof (summary_avg_range viewRows pages) as Ha.
  assert (total_page_views es = Z.of_nat (length viewRows)) as Hv.
  { change (total_page_views es)
      with (or_zero (totalPageViews (eventMetrics_of viewRows))).
    rewrite or_zero_id. unfold totalPageViews.
    by rewrite length_eventMetrics. }
  assert (viewRows = [] -> avgTimeOnPage m = "0:00" /\ bounceRate m = 0)
    as Hempty by (by intros ->).
  assert (bounceRate m
          = if Qeq_bool (bounce_ratio es) 0 then 0
            else Math_round (bounce_ratio es * 100)) as Hrate by done.
  assert (avgTimeOnPage m = formatAverageTime (avg_duration_seconds es))
    as Havg by done.
  assert (totalVisits m = or_zero (total_sessions es)) as Htv by done.
  assert (metrics_uniqueVisitors m = or_zero (unique_visitors_total es))
    as Huv by done.
  assert (pageViews m = or_zero (total_page_views es)) as Hpv by done.
  fold es in Hb, Ha. clearbody m es.
  rewrite Hrate, Htv, Huv, Hpv, Havg, !or_zero_id.
  assert (0 <= (if Qeq_bool (bounce_ratio es) 0 then 0
                else Math_round (bounce_ratio es * 100)) <= 100) as [? ?].
  { destruct (Qeq_bool (bounce_ratio es) 0); [lia|].
    by apply Math_round_percent. }
  split_and!; [done|done|done|done|done| |].
  - intros Hnil. rewrite <- Hrate, <- Havg. by apply Hempty.
  - intros Hne. specialize (Ha Hne). destruct Ha as [Hlo Hhi].
    assert (0 < avg_duration_seconds es)%Q as Hpos.
    { eapply Qlt_le_trans; [|exact Hlo]. done. }
    exists (Qfloor (avg_duration_seconds es) / 60),
           (Qfloor (avg_duration_seconds es) mod 60).
    pose proof (Z.div_mod (Qfloor (avg_duration_seconds es)) 60 ltac:(lia)).
    pose proof (Z.mod_pos_bound (Qfloor (avg_duration_seconds es)) 60
                  ltac:(lia)).
    assert (1 <= Qfloor (avg_duration_seconds es) <= 1800) as [? ?].
    { split.
      - rewrite <- (Qfloor_Z 1). by apply Qfloor_resp_le.
      - rewrite <- (Qfloor_Z 1800). by apply Qfloor_resp_le. }
    split_and!; [lia|lia|lia|lia|lia|].
    by apply formatAverageTime_pos.
Qed.

Lemma response_metrics_shape_witness :
  avgTimeOnPage (metrics_of (out_summary (reconstruct [] scenario_pages)))
  = "0:00".
Proof.
  apply (proj1 (proj2 (proj2 (proj2 (proj2
           (response_metrics_shape [] scenario_pages)))))).
  reflexivity.
Defined.

Example avgTimeOnPage_scenario :
  avgTimeOnPage (metrics_of (out_summary
                   (reconstruct scenario_rows scenario_pages))) = "0:58" /\
  bounceRate (metrics_of (out_summary
                (reconstruct scenario_rows scenario_pages))) = 33.
Proof. by vm_compute. Qed.

(** ** The aggregate of a page *)

Lemma pageAgg_step_agg spc (m : JsMap.t jsval agg) (x : metric) :
  pageAgg_step spc m x
  = JsMap.set m (resource_id (current x))
      (agg_step spc
         (default agg_zero (JsMap.get m (resource_id (current x)))) x).
Proof. done. Qed.

Lemma pageAgg_fold_get spc (ms : list metric) (m0 : JsMap.t jsval agg)
    (k : jsval) :
  JsMap.get (fold_left (pageAgg_step spc) ms m0) k
  = if decide (metrics_of_page ms k = []) then JsMap.get m0 k
    else Some (fold_left (agg_step spc) (metrics_of_page ms k)
                 (default agg_zero (JsMap.get m0 k))).
Proof.
  revert m0. induction ms as [|x ms IH]; intros m0; [done|].
  simpl. rewrite IH, pageAgg_step_agg, get_set. unfold metrics_of_page.
  rewrite filter_cons.
  destruct (decide (resource_id (current x) = k)) as [Hk|Hk].
  - rewrite (decide_False (P := _ :: _ = [])) by done. subst k.
    simpl. destruct (decide (filter _ ms = [])) as [Hnil|Hne]; [|done].
    by rewrite Hnil.
  - done.
Qed.

Lemma agg_fold_views spc (l : list metric) (a : agg) :
  agg_views (fold_left (agg_step spc) l a)
  = agg_views a + Z.of_nat (length l).
Proof.
  revert a. induction l as [|x l IH]; intros a; simpl; [lia|].
  rewrite IH. simpl. lia.
Qed.

Lemma agg_fold_duration spc (l : list metric) (a : agg) :
  agg_durationSum (fold_left (agg_step spc) l a)
  = agg_durationSum a + sum_durations l.
Proof.
  revert a. induction l as [|x l IH]; intros a; simpl.
  - unfold sum_durations. simpl. lia.
  - rewrite IH. unfold sum_durations. simpl. lia.
Qed.

Lemma agg_fold_visitors spc (l : list metric) (a : agg) :
  agg_uniqueVisitors (fold_left (agg_step spc) l a)
  = list_to_set (map (fun x => visitor_id (current x)) l)
    ∪ agg_uniqueVisitors a.
Proof.
  revert a. induction l as [|x l IH]; intros a; simpl.
  - set_solver.
  - rewrite IH. simpl. set_solver.
Qed.

Lemma agg_fold_hits spc (l : list metric) (a : agg) :
  agg_bounceHits a <= agg_bounceHits (fold_left (agg_step spc) l a)
  <= agg_bounceHits a + Z.of_nat (length l).
Proof.
  revert a. induction l as [|x l IH]; intros a; simpl; [lia|].
  specialize (IH (agg_step spc a x)). simpl in IH.
  destruct (get_or_zero spc (session_id (current x)) =? 1); lia.
Qed.

Lemma visitor_pairs (rows : list row) :
  map (fun x => (resource_id (current x), visitor_id (current x)))
      (eventMetrics_of rows)
  ≡ₚ map (fun r => (al_resource_id r, buildVisitorId r)) rows.
Proof.
  transitivity (map (fun e => (resource_id e, visitor_id e))
                    (events (pass1 rows))).
  - rewrite <- (map_map current (fun e => (resource_id e, visitor_id e))).
    unfold eventMetrics_of. by rewrite pass2_Permutation.
  - assert (map (fun e => (resource_id e, visitor_id e)) (events (pass1 rows))
            = map fst (map event_data (events (pass1 rows)))) as ->.
    { by rewrite map_map. }
    unfold pass1. rewrite data_pass1_from. simpl. by rewrite map_map.
Qed.

Lemma length_filter_eq_map {A B} `{EqDecision B} (f : A -> B) (k : B)
    (l : list A) :
  length (filter (fun x => f x = k) l)
  = length (filter (fun y => y = k) (map f l)).
Proof.
  induction l as [|x l IH]; [done|]. simpl.
  rewrite !filter_cons. destruct (decide (f x = k)); simpl; by rewrite IH.
Qed.

Lemma length_metrics_of_page (rows : list row) (k : jsval) :
  length (metrics_of_page (eventMetrics_of rows) k)
  = length (rows_of_page rows k).
Proof.
  unfold metrics_of_page, rows_of_page.
  rewrite (length_filter_eq_map (fun x => resource_id (current x))).
  rewrite (length_filter_eq_map al_resource_id).
  by rewrite resources_eventMetrics.
Qed.

Lemma visitors_metrics_of_page (rows : list row) (k : jsval) :
  (list_to_set (map (fun x => visitor_id (current x))
                    (metrics_of_page (eventMetrics_of rows) k))
     : gset string)
  = list_to_set (map buildVisitorId (rows_of_page rows k)).
Proof.
  apply set_eq. intros v. rewrite !elem_of_list_to_set.
  unfold metrics_of_page, rows_of_page.
  transitivity ((k, v) ∈ map (fun x => (resource_id (current x),
                                        visitor_id (current x)))
                             (eventMetrics_of rows)).
  - split.
    + intros (x & -> & [<- Hx]%list_elem_of_filter)%list_elem_of_fmap_1.
      by apply (list_elem_of_fmap_2
                  (fun x => (resource_id (current x), visitor_id (current x)))).
    + intros (x & [= -> ->] & Hx)%list_elem_of_fmap_1.
      apply (list_elem_of_fmap_2 (fun x => visitor_id (current x))).
      by apply list_elem_of_filter.
  - rewrite visitor_pairs. split.
    + intros (r & [= -> ->] & Hr)%list_elem_of_fmap_1.
      apply (list_elem_of_fmap_2 buildVisitorId).
      by apply list_elem_of_filter.
    + intros (r & -> & [<- Hr]%list_elem_of_filter)%list_elem_of_fmap_1.
      by apply (list_elem_of_fmap_2
                  (fun r => (al_resource_id r, buildVisitorId r))).
Qed.

Lemma size_visitors_le (l : list string) :
  (size (list_to_set l : gset string) <= length l)%nat.
Proof. rewrite size_list_to_set_remove_dups. apply length_remove_dups_le. Qed.

Lemma size_visitors_pos (l : list string) :
  l <> [] -> (1 <= size (list_to_set l : gset string))%nat.
Proof.
  intros Hne. destruct l as [|x l]; [done|].
  assert (size (list_to_set (x :: l) : gset string) <> 0%nat); [|lia].
  rewrite size_empty_iff. intros Hempty.
  assert (x ∈ (list_to_set (x :: l) : gset string)) as Hx by set_solver.
  rewrite Hempty in Hx. set_solver.
Qed.

Lemma page_entry_of_metrics spc (ms : list metric) (p : page) :
  let mk := metrics_of_page ms (p_id p) in
  let a := fold_left (agg_step spc) mk agg_zero in
  page_entry (build_pageAgg spc ms) p
  = PageDetail (p_title p) (Z.of_nat (length mk))
      (Z.of_nat (size (list_to_set
                         (map (fun x => visitor_id (current x)) mk)
                       : gset string)))
      (if decide (mk = []) then 0%Q
       else js_div (sum_durations mk) (Z.of_nat (length mk)))
      (if decide (mk = []) then 0
       else Math_round (js_div (agg_bounceHits a) (Z.of_nat (length mk))
                        * 100))
      (p_updated_at p).
Proof.
  intros mk a. unfold page_entry, build_pageAgg.
  rewrite pageAgg_fold_get. fold mk. simpl.
  destruct (decide (mk = [])) as [Hnil|Hne].
  - rewrite Hnil. done.
  - simpl. fold a.
    assert (agg_views a = Z.of_nat (length mk)) as Hviews.
    { subst a. rewrite agg_fold_views. simpl. lia. }
    assert (0 < Z.of_nat (length mk)) as Hpos.
    { destruct mk; [done|simpl; lia]. }
    rewrite Hviews, or_zero_id.
    destruct (Z.ltb_spec 0 (Z.of_nat (length mk))); [|lia].
    f_equal.
    + subst a. rewrite agg_fold_visitors. simpl. do 2 f_equal. set_solver.
    + subst a. rewrite agg_fold_duration. simpl. done.
Qed.

Lemma page_entry_views (rows : list row) (p : page) :
  views (page_entry (t_pageAgg (build_tables pass1_init rows)) p)
  = Z.of_nat (length (rows_of_page rows (p_id p))).
Proof.
  change (t_pageAgg (build_tables pass1_init rows))
    with (build_pageAgg (sessionPageCounts (pass1 rows))
                        (eventMetrics_of rows)).
  rewrite (page_entry_of_metrics _ (eventMetrics_of rows) p). simpl.
  by rewrite length_metrics_of_page.
Qed.

(** X9.  The entry of a catalog page reports the input rows that view
    that page: [views] is their number and [unique_visitors] the number of
    distinct visitor keys among them, at least 1 and at most [views] when
    there are any; [bounce_rate] is a percentage between 0 and 100 and
    [avg_time] lies between 1 and 1800 seconds; without such rows the
    entry is the zero entry. *)
Theorem page_entry_stats (viewRows : list row) (p : page) :
  let entry :=
    page_entry (t_pageAgg (build_tables pass1_init viewRows)) p in
  let hits := rows_of_page viewRows (p_id p) in
  title entry = p_title p /\ updated_at entry = p_updated_at p /\
  views entry = Z.of_nat (length hits) /\
  unique_visitors entry
  = Z.of_nat (size (list_to_set (map buildVisitorId hits) : gset string)) /\
  unique_visitors entry <= views entry /\
  0 <= bounce_rate entry <= 100 /\
  (hits = [] -> entry = zero_entry p) /\
  (hits <> [] ->
     1 <= unique_visitors entry /\ (1 <= avg_time entry <= 1800)%Q).
Proof.
  intros entry hits.
  set (spc := sessionPageCounts (pass1 viewRows)).
  set (mk := metrics_of_page (eventMetrics_of viewRows) (p_id p)).
  set (a := fold_left (agg_step spc) mk agg_zero).
  assert (entry = PageDetail (p_title p) (Z.of_nat (length mk))
      (Z.of_nat (size (list_to_set
                         (map (fun x => visitor_id (current x)) mk)
                       : gset string)))
      (if decide (mk = []) then 0%Q
       else js_div (sum_durations mk) (Z.of_nat (length mk)))
      (if decide (mk = []) then 0
       else Math_round (js_div (agg_bounceHits a) (Z.of_nat (length mk))
                        * 100))
      (p_updated_at p)) as Hentry.
  { apply (page_entry_of_metrics spc (eventMetrics_of viewRows) p). }
  assert (length mk = length hits) as Hlen
    by apply length_metrics_of_page.
  assert ((list_to_set (map (fun x => visitor_id (current x)) mk)
           : gset string)
          = list_to_set (map buildVisitorId hits)) as Hvis
    by apply visitors_metrics_of_page.
  assert (mk = [] <-> hits = []) as Hnil.
  { split; intros Hx; apply length_zero_iff_nil;
      apply (f_equal length) in Hx; simpl in Hx; lia. }
  assert (Forall (fun x => 1 <= duration_seconds x <= 1800) mk) as Hrange.
  { apply Forall_forall. intros x [_ Hx]%list_elem_of_filter.
    pose proof (pass2_range (group_sessions (events (pass1 viewRows))))
      as Hall.
    rewrite Forall_forall in Hall. by apply Hall. }
  pose proof (size_visitors_le (map buildVisitorId hits)) as Hsize.
  rewrite length_map in Hsize.
  pose proof (agg_fold_hits spc mk agg_zero) as Hhits. fold a in Hhits.
  simpl in Hhits. rewrite Hlen in Hhits.
  clearbody entry hits mk a. subst entry. simpl.
  rewrite Hvis, Hlen.
  assert (0 <= (if decide (mk = []) then 0
                else Math_round (js_div (agg_bounceHits a)
                                        (Z.of_nat (length hits)) * 100))
          <= 100) as [? ?].
  { destruct (decide (mk = [])) as [|Hne]; [lia|].
    assert (0 < Z.of_nat (length hits)).
    { destruct hits; [by destruct Hne; apply Hnil|simpl; lia]. }
    apply Math_round_percent, (js_div_bounds _ _ 0 1); lia. }
  split_and!; [done|done|done|done|lia|done|done| |].
  - intros ->. rewrite !decide_True by (by apply Hnil). reflexivity.
  - intros Hne. split.
    + pose proof (size_visitors_pos (map buildVisitorId hits)) as Hpos.
      destruct hits; [done|]. specialize (Hpos ltac:(done)). lia.
    + rewrite decide_False by (by rewrite Hnil).
      pose proof (sum_durations_bounds mk Hrange) as Hsum.
      rewrite Hlen in Hsum.
      apply (js_div_bounds _ _ 1 1800); [|lia].
      destruct hits; [done|simpl; lia].
Qed.

Lemma page_entry_stats_witness :
  page_entry (t_pageAgg (build_tables pass1_init scenario_rows))
             (Page (JStr "p3") "Empty" 30)
  = zero_entry (Page (JStr "p3") "Empty" 30).
Proof.
  apply (proj1 (proj2 (proj2 (proj2 (proj2 (proj2 (proj2
           (page_entry_stats scenario_rows (Page (JStr "p3") "Empty" 30))))))))).
  reflexivity.
Defined.

(** X10.  Every entry of [pageDetails] is the entry of a page of the
    catalog; rows that view a resource outside the catalog are counted in
    the summary but shown in no entry. *)
Theorem pageDetails_from_catalog (viewRows : list row) (pages : list page)
    (d : page_detail) :
  d ∈ out_pageDetails (reconstruct viewRows pages) ->
  exists p, p ∈ pages /\
    d = page_entry (t_pageAgg (build_tables pass1_init viewRows)) p /\
    views d = Z.of_nat (length (rows_of_page viewRows (p_id p))).
Proof.
  intros Hd.
  change (out_pageDetails (reconstruct viewRows pages))
    with (take 20 (ranked_pages
                     (t_pageAgg (build_tables pass1_init viewRows)) pages))
    in Hd.
  apply elem_of_take in Hd as (i & Hi & _).
  apply list_elem_of_lookup_2 in Hi.
  rewrite ranked_pages_Permutation in Hi.
  apply (list_elem_of_fmap_1 (page_entry _)) in Hi as (p & -> & Hp).
  exists p. split_and!; [done|done|].
  change (views (page_entry (build_pageAgg (sessionPageCounts (pass1 viewRows))
                               (eventMetrics_of viewRows)) p)
          = Z.of_nat (length (rows_of_page viewRows (p_id p)))).
  rewrite (page_entry_of_metrics _ (eventMetrics_of viewRows) p). simpl.
  by rewrite length_metrics_of_page.
Qed.

Lemma pageDetails_from_catalog_witness :
  exists p, p ∈ scenario_pages /\
    PageDetail "Home" 4 1 65 0 10
    = page_entry (t_pageAgg (build_tables pass1_init scenario_rows)) p /\
    views (PageDetail "Home" 4 1 65 0 10)
    = Z.of_nat (length (rows_of_page scenario_rows (p_id p))).
Proof.
  apply (pageDetails_from_catalog scenario_rows scenario_pages
           (PageDetail "Home" 4 1 65 0 10)).
  apply list_elem_of_here.
Defined.

(** ** SQL texts *)

Lemma placeholders_app (s1 s2 : string) :
  placeholders (s1 +:+ s2) = (placeholders s1 + placeholders s2)%nat.
Proof.
  induction s1 as [|c s1 IH]; [done|].
  rewrite string_app_cons. simpl. rewrite IH. lia.
Qed.

Lemma add_filter_where (clause : string) (x : option qsval)
    (acc : string * list qsval) :
  (add_filter clause x acc).1
  = if from_option qs_truthy false x then acc.1 +:+ clause else acc.1.
Proof. destruct x as [v|]; simpl; [|done]. by destruct (qs_truthy v). Qed.

Lemma add_filter_params (clause : string) (x : option qsval)
    (acc : string * list qsval) :
  (add_filter clause x acc).2
  = acc.2 ++ match x with
             | Some v => if qs_truthy v then [v] else []
             | None => []
             end.
Proof.
  destruct x as [v|]; simpl; [|by rewrite app_nil_r].
  destruct (qs_truthy v); simpl; [done|by rewrite app_nil_r].
Qed.

Lemma add_filter_arity (clause : string) (x : option qsval)
    (acc : string * list qsval) :
  placeholders clause = 1%nat ->
  placeholders acc.1 = length acc.2 ->
  placeholders (add_filter clause x acc).1
  = length (add_filter clause x acc).2.
Proof.
  intros Hc Hacc. destruct x as [v|]; simpl; [|done].
  destruct (qs_truthy v); simpl; [|done].
  rewrite placeholders_app, length_app, Hc, Hacc. simpl. lia.
Qed.

Lemma logs_filters_arity (q : logs_query) :
  placeholders (whereClause q) = length (params q).
Proof.
  unfold whereClause, params, logs_filters.
  repeat (apply add_filter_arity; [done|]). done.
Qed.

Lemma placeholders_lines_where (before after : list string) (w : string) :
  placeholders (lines (before ++ ["      " +:+ w] ++ after))
  = (placeholders (lines before) + placeholders w
     + placeholders (lines after))%nat.
Proof.
  unfold lines.
  induction before as [|b before IH]; simpl.
  - destruct after as [|a after]; simpl.
    + rewrite placeholders_app. simpl. lia.
    + rewrite !placeholders_app. simpl. lia.
  - destruct before as [|b' before]; simpl in *.
    + rewrite !placeholders_app, IH. simpl. lia.
    + rewrite !placeholders_app in *. rewrite IH. simpl. lia.
Qed.

(** X11.  Each prepared statement of [/logs] has as many [?]
    placeholders as it is given arguments, whatever filters the query
    sets; the arguments of the filters are the values of the filters that
    are set, in the order of the clauses. *)
Theorem logs_statement_arity (q : logs_query) :
  placeholders (count_sql q) = length (count_args q) /\
  placeholders (list_sql q) = length (list_args q) /\
  params q
  = omap (fun x => x ≫= fun v => if qs_truthy v then Some v else None)
         [q_action q; q_resource_type q; q_user_id q;
          q_start_date q; q_end_date q] /\
  (length (params q) <= 5)%nat.
Proof.
  pose proof (logs_filters_arity q) as Hw.
  assert (params q
          = omap (fun x => x ≫= fun v => if qs_truthy v then Some v else None)
              [q_action q; q_resource_type q; q_user_id q;
               q_start_date q; q_end_date q]) as Hparams.
  { unfold params, logs_filters. rewrite !add_filter_params. simpl.
    destruct (q_action q) as [v1|], (q_resource_type q) as [v2|],
      (q_user_id q) as [v3|], (q_start_date q) as [v4|],
      (q_end_date q) as [v5|]; simpl;
      repeat match goal with
             | |- context [qs_truthy ?v] => destruct (qs_truthy v)
             end; reflexivity. }
  split_and!.
  - unfold count_sql, count_args. rewrite length_map, <- Hw.
    etrans; [apply (placeholders_lines_where
                      [""; "      SELECT COUNT(*) as total ";
                       "      FROM activity_logs al"] ["    "])|].
    simpl. lia.
  - unfold list_sql, list_args. rewrite length_app, length_map, <- Hw.
    etrans; [apply (placeholders_lines_where
               [""; "      SELECT "; "        al.id,"; "        al.action,";
                "        al.resource_type,"; "        al.resource_id,";
                "        al.description,"; "        al.ip_address,";
                "        al.created_at,"; "        u.username";
                "      FROM activity_logs al";
                "      LEFT JOIN users u ON al.user_id = u.id"]
               ["      ORDER BY al.created_at DESC";
                "      LIMIT ? OFFSET ?"; "    "])|].
    simpl. lia.
  - done.
  - rewrite Hparams. simpl.
    destruct (q_action q) as [v1|], (q_resource_type q) as [v2|],
      (q_user_id q) as [v3|], (q_start_date q) as [v4|],
      (q_end_date q) as [v5|]; simpl;
      repeat match goal with
             | |- context [qs_truthy ?v] => destruct (qs_truthy v)
             end; simpl; lia.
Qed.

Lemma whereClause_flags (q : logs_query) :
  whereClause q
  = foldl (fun w '(b, clause) => if b : bool then w +:+ clause else w)
      "WHERE 1=1"
      (zip (filters_set q)
           [" AND al.action = ?"; " AND al.resource_type = ?";
            " AND al.user_id = ?"; " AND al.created_at >= ?";
            " AND al.created_at <= ?"]).
Proof.
  unfold whereClause, logs_filters. rewrite !add_filter_where. done.
Qed.

(** X12.  The SQL text of [/logs] depends only on which filters are set:
    the values of the filters reach the database as arguments of the
    prepared statement and never as part of its text. *)
Theorem logs_sql_text_independent (q q' : logs_query) :
  filters_set q = filters_set q' ->
  whereClause q = whereClause q' /\
  count_sql q = count_sql q' /\
  list_sql q = list_sql q'.
Proof.
  intros Hflags.
  assert (whereClause q = whereClause q') as Hw.
  { by rewrite !whereClause_flags, Hflags. }
  unfold count_sql, list_sql. by rewrite Hw.
Qed.

Lemma logs_sql_text_independent_witness :
  list_sql (LogsQuery None None (Some (QStr "view")) None None None None)
  = list_sql (LogsQuery (Some (QStr "3")) (Some (QStr "50"))
                      (Some (QStr "x' OR '1'='1")) None
                (Some (QStr "")) None None).
Proof.
  apply (logs_sql_text_independent
           (LogsQuery None None (Some (QStr "view")) None None None None)
           (LogsQuery (Some (QStr "3")) (Some (QStr "50"))
                      (Some (QStr "x' OR '1'='1")) None
              (Some (QStr "")) None None)).
  reflexivity.
Defined.

(** X13.  The date condition of [/analytics] is one of four fixed SQL
    fragments: the three ranges "24h", "30days" and "90days" select
    theirs, and everything else (a missing key, an unknown string, a list
    or an object) selects the 7-day fragment.  The statement has no
    placeholder. *)
Theorem dateCondition_fixed (range : option qsval) :
  dateCondition range
  ∈ [ "AND al.created_at >= DATE_SUB(NOW(), INTERVAL 1 DAY)";
      "AND al.created_at >= DATE_SUB(NOW(), INTERVAL 7 DAY)";
      "AND al.created_at >= DATE_SUB(NOW(), INTERVAL 30 DAY)";
      "AND al.created_at >= DATE_SUB(NOW(), INTERVAL 90 DAY)" ] /\
  (dateCondition range
   <> "AND al.created_at >= DATE_SUB(NOW(), INTERVAL 7 DAY)" ->
   range = Some (QStr "24h") \/ range = Some (QStr "30days") \/
   range = Some (QStr "90days")) /\
  dateCondition (Some (QStr "24h"))
  = "AND al.created_at >= DATE_SUB(NOW(), INTERVAL 1 DAY)" /\
  dateCondition (Some (QStr "30days"))
  = "AND al.created_at >= DATE_SUB(NOW(), INTERVAL 30 DAY)" /\
  dateCondition (Some (QStr "90days"))
  = "AND al.created_at >= DATE_SUB(NOW(), INTERVAL 90 DAY)" /\
  placeholders (viewRows_sql range) = 0%nat.
Proof.
  assert (range = Some (QStr "24h") \/ range = Some (QStr "30days") \/
          range = Some (QStr "90days") \/
          dateCondition range
          = "AND al.created_at >= DATE_SUB(NOW(), INTERVAL 7 DAY)") as Hcases.
  { unfold dateCondition. destruct range as [[s|l|o]|]; simpl; auto.
    destruct (String.eqb_spec s "24h") as [-> | _ ]; [auto|].
    destruct (String.eqb_spec s "7days") as [-> | _ ]; [auto|].
    destruct (String.eqb_spec s "30days") as [-> | _ ]; [auto|].
    destruct (String.eqb_spec s "90days") as [-> | _ ]; auto. }
  split_and!; try done.
  - destruct Hcases as [-> | [-> | [-> | -> ]]].
    + apply list_elem_of_here.
    + do 2 apply list_elem_of_further. apply list_elem_of_here.
    + do 3 apply list_elem_of_further. apply list_elem_of_here.
    + apply list_elem_of_further, list_elem_of_here.
  - intros Hne. destruct Hcases as [?|[?|[?|?]]]; auto. done.
  - unfold viewRows_sql.
    etrans; [apply (placeholders_lines_where
               [""; "      SELECT"; "        al.id,";
                "        al.resource_id,"; "        al.user_id,";
                "        al.ip_address,"; "        al.user_agent,";
                "        al.created_at"; "      FROM activity_logs al";
                "      WHERE al.action = 'view' AND al.resource_type = 'page'"]
               ["      ORDER BY al.created_at ASC"; "    "])|].
    destruct Hcases as [-> | [-> | [-> | -> ]]]; reflexivity.
Qed.

Lemma dateCondition_fixed_witness :
  Some (QStr "24h") = Some (QStr "24h") \/
  Some (QStr "24h") = Some (QStr "30days") \/
  Some (QStr "24h") = Some (QStr "90days").
Proof.
  apply (proj1 (proj2 (dateCondition_fixed (Some (QStr "24h"))))).
  discriminate.
Defined.

(** ** Pagination of [/logs] *)

Lemma Qceiling_unique (q : Q) (z : Z) :
  (inject_Z (z - 1) < q)%Q -> (q <= inject_Z z)%Q -> Qceiling q = z.
Proof.
  intros Hlt Hle.
  pose proof (Qceiling_resp_le _ _ Hle) as H1. rewrite Qceiling_Z in H1.
  assert (z - 1 < Qceiling q); [|lia].
  rewrite Zlt_Qlt. eapply Qlt_le_trans; [exact Hlt|apply Qle_ceiling].
Qed.

Lemma Qceiling_div (t l : Z) :
  0 < l -> Qceiling (inject_Z t / inject_Z l) = (t + l - 1) / l.
Proof.
  intros Hl.
  pose proof (Z.div_mod (t + l - 1) l ltac:(lia)) as Hdm.
  pose proof (Z.mod_pos_bound (t + l - 1) l Hl) as Hmod.
  assert (0 < inject_Z l)%Q as HlQ.
  { change 0%Q with (inject_Z 0). by rewrite <- Zlt_Qlt. }
  apply Qceiling_unique.
  - apply Qlt_shift_div_l; [done|].
    rewrite <- inject_Z_mult, <- Zlt_Qlt. nia.
  - apply Qle_shift_div_r; [done|].
    rewrite <- inject_Z_mult, <- Zle_Qle. nia.
Qed.

Lemma digits_value_nonneg (s : string) (acc n : Z) :
  0 <= acc -> digits_value acc s = Some n -> 0 <= n.
Proof.
  revert acc. induction s as [|c s IH]; intros acc Hacc; simpl.
  - by intros [= <-].
  - destruct (Z.leb_spec 48 (Z.of_nat (nat_of_ascii c))); [|done].
    destruct (Z.leb_spec (Z.of_nat (nat_of_ascii c)) 57); [|done].
    simpl. apply IH. lia.
Qed.

Lemma plain_number_nonneg (dflt : Z) (v : option qsval) (n : Z) :
  0 <= dflt -> plain_number dflt v = Some n -> 0 <= n.
Proof.
  intros Hd. destruct v as [[s|l|o]|]; simpl; try done.
  - destruct (_ && _); [|done]. by apply digits_value_nonneg.
  - by intros [= <-].
Qed.

(** X14.  When [page] and [limit] are plain (missing, or a string of 1 to
    7 decimal digits) and the count is at least 0 and below 2^53, the
    [meta] of [/logs] reports them as [current_page] and [per_page]; for a
    positive limit it counts the least number of pages that hold the rows,
    announces a next page exactly when rows remain after the rows of this
    page, and a previous page exactly when the offset is positive.  With a
    limit of 0 the number of pages is not a finite number and a next page
    is announced whenever there is any row. *)
Theorem logs_pagination (q : logs_query) (total page limit : Z) :
  0 <= total < 2 ^ 53 ->
  page_number q = Some page ->
  limit_number q = Some limit ->
  exists m,
    meta_of q total = Some m /\
    offset q = Some ((page - 1) * limit) /\
    current_page m = page /\ per_page m = limit /\
    0 <= page /\ 0 <= limit /\
    (0 < limit ->
       (exists n, total_pages m = Num n /\ 0 <= n /\
          (n - 1) * limit < total <= n * limit) /\
       (has_next m = true <-> (page - 1) * limit + limit < total) /\
       (has_prev m = true <-> 0 < (page - 1) * limit) /\
       (1 <= page -> 0 <= (page - 1) * limit)) /\
    (limit = 0 ->
       (forall n, total_pages m <> Num n) /\
       has_next m = (0 <? total)).
Proof.
  intros Htotal Hpage Hlimit.
  assert (0 <= page) as Hp0.
  { eapply plain_number_nonneg; [|exact Hpage]. lia. }
  assert (0 <= limit) as Hl0.
  { eapply plain_number_nonneg; [|exact Hlimit]. lia. }
  unfold meta_of, offset. rewrite Hpage, Hlimit.
  eexists. split; [done|]. simpl.
  split_and!; try done.
  - intros Hl. unfold ceil_div.
    destruct (Z.eqb_spec limit 0) as [|_]; [lia|].
    rewrite Qceiling_div by done. simpl.
    pose proof (Z.div_mod (total + limit - 1) limit ltac:(lia)) as Hdm.
    pose proof (Z.mod_pos_bound (total + limit - 1) limit Hl) as Hmod.
    set (n := (total + limit - 1) / limit) in *.
    assert (0 <= n) by (apply Z.div_pos; lia).
    split_and!.
    + exists n. split_and!; [done|done|nia|nia].
    + rewrite Z.ltb_lt. split; intros; nia.
    + rewrite Z.ltb_lt. split; intros; nia.
    + intros. nia.
  - intros ->. unfold ceil_div. simpl. split.
    + intros n. destruct (0 <? total); [done|].
      by destruct (total <? 0).
    + destruct (Z.ltb_spec 0 total); [done|].
      by destruct (total <? 0).
Qed.

Lemma logs_pagination_witness :
  exists m,
    meta_of (LogsQuery (Some (QStr "2")) (Some (QStr "10"))
                       None None None None None) 25
    = Some m /\
    current_page m = 2 /\ per_page m = 10 /\
    total_pages m = Num 3 /\ has_next m = true /\ has_prev m = true.
Proof.
  destruct (logs_pagination
              (LogsQuery (Some (QStr "2")) (Some (QStr "10"))
                         None None None None None) 25 2 10
              ltac:(lia) eq_refl eq_refl)
    as (m & Hm & _).
  exists m. split; [exact Hm|].
  injection Hm as <-. by vm_compute.
Defined.

(** What [plain_number] leaves out: the two readings of the handler
    differ on ["1e1"] (10 and 1) and ["2.5"] is no whole number. *)
Example plain_number_examples :
  plain_number 1 None = Some 1 /\
  plain_number 1 (Some (QStr "007")) = Some 7 /\
  plain_number 1 (Some (QStr "1e1")) = None /\
  plain_number 1 (Some (QStr "2.5")) = None /\
  plain_number 1 (Some (QStr "")) = None /\
  plain_number 1 (Some (QStr "-1")) = None /\
  plain_number 1 (Some (QList [QStr "2"])) = None.
Proof. by vm_compute. Qed.

(** ** Keys and session ids are well formed *)

Lemma pretty_N_go_nonempty (x : N) (s : string) :
  s <> "" -> pretty_N_go x s <> "".
Proof.
  revert s. induction (N.lt_wf_0 x) as [x _ IH]; intros s Hs.
  destruct (decide (x = 0%N)) as [->|Hx].
  - by rewrite pretty_N_go_0.
  - rewrite pretty_N_go_step by lia. apply IH; [|done].
    apply N.div_lt; lia.
Qed.

Lemma pretty_Z_nonempty (n : Z) : pretty n <> "".
Proof.
  destruct n as [|p|p]; [done| |done].
  unfold pretty, pretty_Z, pretty, pretty_positive, pretty, pretty_N.
  rewrite decide_False by done.
  rewrite pretty_N_go_step by lia. by apply pretty_N_go_nonempty.
Qed.

Lemma js_String_nonempty (v : jsval) : truthy v = true -> js_String v <> "".
Proof.
  destruct v as [|n|s]; simpl; [done| |].
  - intros _. apply pretty_Z_nonempty.
  - by destruct (String.eqb_spec s "").
Qed.

Lemma buildVisitorId_nonempty (r : row) : buildVisitorId r <> "".
Proof.
  unfold buildVisitorId.
  destruct (truthy (al_user_id r)) eqn:Hu; [by apply js_String_nonempty|].
  destruct (truthy (al_ip_address r)) eqn:Hi; [by apply js_String_nonempty|].
  by destruct (truthy_str (al_user_agent r)).
Qed.

Lemma spec_indices_from_le (last : option Z) (idx : Z) (ts : list Z)
    (i : nat) (k : Z) :
  spec_indices_from last idx ts !! i = Some k -> k <= idx + Z.of_nat i + 1.
Proof.
  revert last idx i. induction ts as [|t ts IH]; intros last idx i; [done|].
  simpl.
  set (idx' := match last with
               | Some l => if 1800000 <? t - l then idx + 1 else idx
               | None => idx + 1
               end).
  assert (idx' <= idx + 1) as Hle.
  { subst idx'. destruct last as [l|]; [|lia].
    destruct (1800000 <? t - l); lia. }
  destruct i as [|i]; simpl.
  - intros [= <-]. lia.
  - intros Hk%IH. lia.
Qed.

(** X15.  Every event of pass 1 has a non-empty visitor key, the key of
    its row, and a session id made of that key, a dash and an index that
    is at least 1 and at most the number of rows of that visitor. *)
Theorem events_well_formed (viewRows : list row) (e : event) :
  e ∈ events (pass1 viewRows) ->
  visitor_id e <> "" /\
  exists r k,
    r ∈ viewRows /\ visitor_id e = buildVisitorId r /\
    resource_id e = al_resource_id r /\ created_ms e = al_created_at r /\
    session_id e = visitor_id e +:+ "-" +:+ pretty k /\
    1 <= k <= Z.of_nat (length (filter (fun r' => buildVisitorId r'
                                                  = visitor_id e) viewRows)).
Proof.
  intros He.
  assert (e ∈ filter (fun e' => visitor_id e' = visitor_id e)
                     (events (pass1 viewRows))) as Hin.
  { by apply list_elem_of_filter. }
  rewrite pass1_visitor in Hin.
  apply list_elem_of_lookup in Hin as [i Hi].
  apply lookup_positioned in Hi as (r & k & Hr & Hk & Heq).
  pose proof (lookup_lt_Some _ _ _ Hr) as Hlt.
  pose proof (spec_indices_from_le _ _ _ _ _ Hk) as Hle.
  pose proof (spec_session_indices_pos
    (map al_created_at
       (filter (fun r => buildVisitorId r = visitor_id e) viewRows))) as Hpos.
  rewrite Forall_forall in Hpos.
  apply list_elem_of_lookup_2 in Hk. apply Hpos in Hk.
  apply list_elem_of_lookup_2, list_elem_of_filter in Hr as [Hv Hr].
  split.
  - rewrite <- Hv. apply buildVisitorId_nonempty.
  - exists r, k. rewrite Heq at 2 3 4. simpl.
    split_and!; [done|done|done|done|done|lia|lia].
Qed.

Lemma events_well_formed_witness :
  visitor_id (Event (JStr "p1") "u1" "u1-2" 2000000) <> "".
Proof.
  apply (events_well_formed scenario_rows
           (Event (JStr "p1") "u1" "u1-2" 2000000)).
  do 3 apply list_elem_of_further. apply list_elem_of_here.
Defined.

(** ** The views of the page table *)

Lemma sum_list_Permutation (l1 l2 : list Z) :
  l1 ≡ₚ l2 -> sum_list l1 = sum_list l2.
Proof.
  unfold sum_list. induction 1; simpl; lia.
Qed.

Lemma sum_list_take (n : nat) (l : list Z) :
  Forall (fun x => 0 <= x) l -> 0 <= sum_list (take n l) <= sum_list l.
Proof.
  unfold sum_list. intros Hl. revert n.
  induction Hl as [|x l Hx _ IH]; intros n.
  - by destruct n.
  - destruct n as [|n]; simpl.
    + specialize (IH 0%nat). simpl in IH. lia.
    + specialize (IH n). lia.
Qed.

Lemma count_in_catalog (ks : list jsval) (k : jsval) :
  NoDup ks ->
  sum_list (map (fun k' => if decide (k = k') then 1 else 0) ks)
  = if decide (k ∈ ks) then 1 else 0.
Proof.
  unfold sum_list. induction 1 as [|k0 ks Hk0 _ IH]; simpl.
  - done.
  - rewrite IH. destruct (decide (k = k0)) as [->|Hne].
    + rewrite decide_False by done.
      rewrite decide_True by apply list_elem_of_here. lia.
    + destruct (decide (k ∈ ks)) as [Hin|Hin].
      * rewrite decide_True by (by apply list_elem_of_further). lia.
      * rewrite decide_False; [lia|].
        intros [?|?]%elem_of_cons; done.
Qed.

Lemma views_of_catalog (rows : list row) (ks : list jsval) :
  NoDup ks ->
  sum_list (map (fun k => Z.of_nat (length (rows_of_page rows k))) ks)
  = Z.of_nat (length (filter (fun r => al_resource_id r ∈ ks) rows)).
Proof.
  intros Hnd. unfold rows_of_page.
  induction rows as [|r rows IH].
  - simpl. unfold sum_list. induction ks as [|k ks IHk]; [done|].
    simpl. apply NoDup_cons in Hnd as [_ Hnd]. rewrite (IHk Hnd). done.
  - rewrite (filter_cons (fun r => al_resource_id r ∈ ks)).
    assert (sum_list (map (fun k => Z.of_nat (length
                (filter (fun r0 => al_resource_id r0 = k) (r :: rows)))) ks)
            = sum_list (map (fun k => if decide (al_resource_id r = k)
                                      then 1 else 0) ks)
              + sum_list (map (fun k => Z.of_nat (length
                  (filter (fun r0 => al_resource_id r0 = k) rows))) ks))
      as ->.
    { clear IH Hnd. unfold sum_list.
      induction ks as [|k ks IHk]; [done|]. simpl.
      rewrite IHk, filter_cons.
      destruct (decide (al_resource_id r = k)); simpl; lia. }
    rewrite IH, (count_in_catalog _ _ Hnd).
    destruct (decide (al_resource_id r ∈ ks)); simpl; lia.
Qed.

(** X16.  When the ids of the catalog are distinct, the views shown in
    [pageDetails] add up to at most the number of input rows, and to
    exactly that number when the catalog has at most 20 pages and every
    row views a page of the catalog. *)
Theorem pageDetails_views_total (viewRows : list row) (pages : list page) :
  NoDup (map p_id pages) ->
  let shown :=
    sum_list (map views (out_pageDetails (reconstruct viewRows pages))) in
  0 <= shown <= Z.of_nat (length viewRows) /\
  ((length pages <= 20)%nat ->
   (forall r, r ∈ viewRows -> al_resource_id r ∈ map p_id pages) ->
   shown = Z.of_nat (length viewRows)).
Proof.
  intros Hnd shown.
  set (pageAgg := t_pageAgg (build_tables pass1_init viewRows)).
  assert (map views (map (page_entry pageAgg) pages)
          = map (fun k => Z.of_nat (length (rows_of_page viewRows k)))
                (map p_id pages)) as Hviews.
  { rewrite !map_map. apply map_ext. intros p.
    apply page_entry_views. }
  assert (sum_list (map views (ranked_pages pageAgg pages))
          = Z.of_nat (length (filter (fun r => al_resource_id r
                                               ∈ map p_id pages) viewRows)))
    as Hall.
  { rewrite (sum_list_Permutation _ (map views (map (page_entry pageAgg)
                                                    pages))).
    - by rewrite Hviews, views_of_catalog.
    - apply Permutation_map, ranked_pages_Permutation. }
  assert (Forall (fun x => 0 <= x) (map views (ranked_pages pageAgg pages)))
    as Hpos.
  { rewrite (Permutation_map views (ranked_pages_Permutation pageAgg pages)).
    rewrite Hviews. apply Forall_forall.
    intros x (k & -> & _)%list_elem_of_fmap_1. lia. }
  assert (shown = sum_list (take 20 (map views (ranked_pages pageAgg pages))))
    as Hshown.
  { subst shown. unfold sum_list. f_equal.
    change (out_pageDetails (reconstruct viewRows pages))
      with (take 20 (ranked_pages pageAgg pages)).
    change (take 20 (map views (ranked_pages pageAgg pages)))
      with (take 20 (views <$> ranked_pages pageAgg pages)).
    by rewrite <- fmap_take. }
  pose proof (sum_list_take 20 _ Hpos) as Htake.
  pose proof (length_filter (fun r => al_resource_id r ∈ map p_id pages)
                            viewRows) as Hle.
  split; [lia|].
  intros Hlen Hcat. rewrite Hshown, take_ge.
  - rewrite Hall. f_equal. f_equal. apply filter_all.
    by apply Forall_forall.
  - by rewrite length_map, length_ranked_pages.
Qed.

Lemma pageDetails_views_total_witness :
  sum_list (map views (out_pageDetails
              (reconstruct [Row 1 (JNum 7) (JNum 42) JNull None 1000]
                           [Page (JNum 7) "Home" 10])))
  = Z.of_nat (length [Row 1 (JNum 7) (JNum 42) JNull None 1000]).
Proof.
  apply (proj2 (pageDetails_views_total
                  [Row 1 (JNum 7) (JNum 42) JNull None 1000]
                  [Page (JNum 7) "Home" 10] (NoDup_singleton (JNum 7)))).
  - simpl. lia.
  - intros r Hr. apply list_elem_of_singleton in Hr as ->.
    apply list_elem_of_here.
Defined.

(** ** The number of sessions of a visitor *)

Lemma length_remove_dups_inj {A B} `{EqDecision A, EqDecision B}
    (f : A -> B) (l : list A) :
  (forall x y, f x = f y -> x = y) ->
  length (remove_dups (map f l)) = length (remove_dups l).
Proof.
  intros Hinj. induction l as [|x l IH]; [done|]. simpl.
  destruct (decide_rel elem_of x l) as [Hx|Hx];
    destruct (decide_rel elem_of (f x) (map f l)) as [Hfx|Hfx]; simpl.
  - done.
  - destruct Hfx. by apply (list_elem_of_fmap_2 f).
  - apply (list_elem_of_fmap_1 f) in Hfx as (y & Hxy & Hy).
    apply Hinj in Hxy. by subst y.
  - by rewrite IH.
Qed.

Lemma distinct_spec_indices (last : option Z) (idx : Z) (t : Z)
    (ts : list Z) :
  length (remove_dups (spec_indices_from last idx (t :: ts)))
  = S (long_gaps (t :: ts)).
Proof.
  revert last idx t. induction ts as [|t2 ts IH]; intros last idx t; [done|].
  change (spec_indices_from last idx (t :: t2 :: ts))
    with (let idx' := match last with
                      | Some l => if 1800000 <? t - l then idx + 1 else idx
                      | None => idx + 1
                      end in
          idx' :: spec_indices_from (Some t) idx' (t2 :: ts)).
  cbv zeta.
  set (idx' := match last with
               | Some l => if 1800000 <? t - l then idx + 1 else idx
               | None => idx + 1
               end).
  change (long_gaps (t :: t2 :: ts))
    with ((if (1800000 <? t2 - t)%Z then 1 else 0)
          + long_gaps (t2 :: ts))%nat.
  cbn [remove_dups].
  pose proof (IH (Some t) idx' t2) as IH'.
  destruct (decide_rel elem_of idx'
              (spec_indices_from (Some t) idx' (t2 :: ts))) as [Hin|Hin].
  - rewrite IH'.
    destruct (Z.ltb_spec 1800000 (t2 - t)) as [Hgap|Hgap]; [|done].
    exfalso. simpl in Hin. destruct (Z.ltb_spec 1800000 (t2 - t)); [|lia].
    apply elem_of_cons in Hin as [Hin|Hin]; [lia|].
    pose proof (spec_indices_from_ge (Some t2) (idx' + 1) ts) as Hge.
    rewrite Forall_forall in Hge. apply Hge in Hin. lia.
  - cbn [length]. rewrite IH'.
    destruct (Z.ltb_spec 1800000 (t2 - t)) as [Hgap|Hgap]; [done|].
    exfalso. apply Hin. simpl.
    destruct (Z.ltb_spec 1800000 (t2 - t)); [lia|].
    apply list_elem_of_here.
Qed.

Lemma session_ids_of_visitor (rows : list row) (v : string) :
  map session_id (filter (fun e => visitor_id e = v) (events (pass1 rows)))
  = map (sessionId_of v)
        (spec_session_indices
           (map al_created_at
                (filter (fun r => buildVisitorId r = v) rows))).
Proof.
  rewrite pass1_visitor.
  generalize (filter (fun r => buildVisitorId r = v) rows) as rs.
  intros rs. unfold spec_session_indices.
  generalize (@None Z) as last. generalize 0 as idx.
  induction rs as [|r rs IH]; intros idx last; [done|].
  simpl. f_equal. apply IH.
Qed.

Lemma sessions_of_visitor_count (rows : list row) (v : string) :
  let rows_v := filter (fun r => buildVisitorId r = v) rows in
  let sessions_v :=
    remove_dups (map session_id
                   (filter (fun e => visitor_id e = v)
                           (events (pass1 rows)))) in
  (rows_v = [] -> sessions_v = []) /\
  (rows_v <> [] ->
     length sessions_v = S (long_gaps (map al_created_at rows_v))).
Proof.
  intros rows_v sessions_v. subst sessions_v.
  rewrite session_ids_of_visitor. fold rows_v. clearbody rows_v. split.
  - by intros ->.
  - intros Hne. destruct rows_v as [|r rs]; [done|].
    rewrite (length_remove_dups_inj (sessionId_of v)).
    + apply distinct_spec_indices.
    + apply sessionId_of_inj.
Qed.

(** X17.  A visitor with at least one row has one session, and one more
    for every pair of consecutive rows of that visitor that lie more than
    1800000 ms apart; a visitor without rows has none. *)
Theorem sessions_of_visitor (viewRows : list row) (v : string) :
  let rows_v := filter (fun r => buildVisitorId r = v) viewRows in
  let sessions_v :=
    remove_dups (map session_id
                   (filter (fun e => visitor_id e = v)
                           (events (pass1 viewRows)))) in
  (rows_v = [] -> sessions_v = []) /\
  (rows_v <> [] ->
     length sessions_v = S (long_gaps (map al_created_at rows_v))).
Proof. apply sessions_of_visitor_count. Qed.

Lemma sessions_of_visitor_witness :
  length (remove_dups (map session_id
            (filter (fun e => visitor_id e = "u1")
                    (events (pass1 scenario_rows)))))
  = 2%nat.
Proof.
  apply (proj2 (sessions_of_visitor scenario_rows "u1")).
  discriminate.
Defined.

(** ** Sessions, visitors and long gaps *)

Lemma visitors_pass1 (rows : list row) :
  map visitor_id (events (pass1 rows)) = map buildVisitorId rows.
Proof.
  assert (map visitor_id (events (pass1 rows))
          = map (fun d => d.1.2) (map event_data (events (pass1 rows)))) as ->.
  { by rewrite map_map. }
  unfold pass1. rewrite data_pass1_from. simpl. by rewrite map_map.
Qed.

Lemma length_bind_sum {A B} (f : A -> list B) (l : list A) :
  length (l ≫= f) = sum_nats (map (fun x => length (f x)) l).
Proof.
  induction l as [|x l IH]; [done|].
  rewrite bind_cons, length_app, IH. done.
Qed.

Lemma sessions_by_visitor (rows : list row) :
  remove_dups (map session_id (events (pass1 rows)))
  ≡ₚ remove_dups (map visitor_id (events (pass1 rows)))
     ≫= (fun v => remove_dups
                    (map session_id
                       (filter (fun e => visitor_id e = v)
                               (events (pass1 rows))))).
Proof.
  apply NoDup_Permutation.
  - apply NoDup_remove_dups.
  - apply NoDup_bind; [| |apply NoDup_remove_dups].
    + intros v1 v2 s _ _.
      rewrite !elem_of_remove_dups.
      intros (e1 & -> & [<- He1]%list_elem_of_filter)%list_elem_of_fmap_1
             (e2 & Hs & [<- He2]%list_elem_of_filter)%list_elem_of_fmap_1.
      by apply (same_session_same_visitor rows).
    + intros v _. apply NoDup_remove_dups.
  - intros s. rewrite elem_of_remove_dups, list_elem_of_bind. split.
    + intros (e & -> & He)%list_elem_of_fmap_1.
      exists (visitor_id e). split.
      * apply elem_of_remove_dups, (list_elem_of_fmap_2 session_id).
        by apply list_elem_of_filter.
      * by apply elem_of_remove_dups, (list_elem_of_fmap_2 visitor_id).
    + intros (v & Hs & _). rewrite elem_of_remove_dups in Hs.
      apply list_elem_of_fmap_1 in Hs
        as (e & -> & [_ He]%list_elem_of_filter).
      by apply (list_elem_of_fmap_2 session_id).
Qed.

(** X18.  The number of sessions is the number of unique visitors plus,
    visitor by visitor, the number of pairs of consecutive rows of the
    visitor that lie more than 1800000 ms apart. *)
Theorem sessions_visitors_gaps (viewRows : list row) (pages : list page) :
  let s := out_summary (reconstruct viewRows pages) in
  let visitors := remove_dups (map buildVisitorId viewRows) in
  let gaps v :=
    long_gaps (map al_created_at
                   (filter (fun r => buildVisitorId r = v) viewRows)) in
  unique_visitors_total s = Z.of_nat (length visitors) /\
  total_sessions s
  = Z.of_nat (length visitors + sum_nats (map gaps visitors)).
Proof.
  intros s visitors gaps.
  assert (unique_visitors_total s = Z.of_nat (length visitors)) as Hu.
  { change (unique_visitors_total s)
      with (or_zero (uniqueVisitors (eventMetrics_of viewRows))).
    rewrite or_zero_id, uniqueVisitors_distinct.
    by rewrite visitors_pass1. }
  split; [done|].
  change (total_sessions s)
    with (or_zero (totalSessions (sessionPageCounts (pass1 viewRows)))).
  rewrite or_zero_id.
  rewrite (totalSessions_distinct _ _ (counts_of_pass1 viewRows)).
  f_equal. rewrite sessions_by_visitor, length_bind_sum.
  rewrite visitors_pass1. fold visitors.
  assert (Forall (fun v => v ∈ map buildVisitorId viewRows) visitors) as Hin.
  { apply Forall_forall. intros v. apply elem_of_remove_dups. }
  clearbody visitors. clear Hu.
  induction Hin as [|v vs Hv _ IH]; [done|]. simpl.
  rewrite IH. clear IH.
  destruct (sessions_of_visitor_count viewRows v) as [_ Hcount].
  rewrite Hcount; [unfold gaps; lia|].
  apply (list_elem_of_fmap_1 buildVisitorId) in Hv as (r & -> & Hr).
  intros Hnil.
  assert (r ∈ filter (fun r' => buildVisitorId r' = buildVisitorId r)
                     viewRows) as Hr'.
  { by apply list_elem_of_filter. }
  rewrite Hnil in Hr'. by apply not_elem_of_nil in Hr'.
Qed.
